(** * EasyFlash: environment variables in wear-leveling mode

    A shallow embedding of [flash/src/flash_env_wl.c] and the properties of
    its record store, load/recovery path and wear-leveling save loop.

    Conventions of the embedding
    - [uint32_t] and [size_t] values are [Z] with the wrap-around [u32]
      written at every arithmetic operation ([size_t] is 32 bits wide on
      the targets of the library); [uint16_t] wraps with [u16].
    - A [char] is an [ascii]; a C string argument is the [list ascii] of its
      characters before the terminating NUL.
    - [env_cache] is the list of the bytes of the RAM buffer; a pointer into
      it is the byte offset from [env_cache].  Words are stored
      little-endian.  An access outside the buffer is undefined behaviour.
    - Every function runs in the monad [M]: it threads the module's globals
      and the flash device, and yields [None] when the C program stops on a
      failed [FLASH_ASSERT] or leaves defined behaviour. *)

From Stdlib Require Import Ascii String.
From Stdlib Require Import ZArith List Bool Lia.
Import ListNotations.
Open Scope Z_scope.

Set Implicit Arguments.

(** ** Machine integers and bytes *)

Definition u32 (x : Z) : Z := x mod 2 ^ 32.
Definition u16 (x : Z) : Z := x mod 2 ^ 16.

Definition NUL : ascii := Ascii.zero.
Definition EQUAL_SIGN : ascii := "="%char.
Definition ERASED : ascii := ascii_of_N 255.

Definition byte_of_Z (z : Z) : ascii := ascii_of_N (Z.to_N (z mod 256)).
Definition Z_of_byte (b : ascii) : Z := Z.of_N (N_of_ascii b).

(** The four bytes of a word, least significant first. *)
Definition word_bytes (w : Z) : list ascii :=
  [byte_of_Z w; byte_of_Z (w / 256); byte_of_Z (w / 65536);
   byte_of_Z (w / 16777216)].

Definition bytes_word (bs : list ascii) : Z :=
  fold_right (fun b acc => Z_of_byte b + 256 * acc) 0 bs.

Definition strlen (s : list ascii) : Z := Z.of_nat (length s).

(** Shorthand for string literals in examples. *)
Definition str (s : string) : list ascii := list_ascii_of_string s.
Arguments str s%_string.

(** ** Declarations of [flash.h] *)

(** [FlashErrCode], the result type of the library. *)
Inductive FlashErrCode : Type :=
| FLASH_NO_ERR
| FLASH_ERASE_ERR
| FLASH_WRITE_ERR
| FLASH_ENV_NAME_ERR
| FLASH_ENV_NAME_EXIST
| FLASH_ENV_FULL.

Definition FlashErrCode_eqb (a b : FlashErrCode) : bool :=
  match a, b with
  | FLASH_NO_ERR, FLASH_NO_ERR
  | FLASH_ERASE_ERR, FLASH_ERASE_ERR
  | FLASH_WRITE_ERR, FLASH_WRITE_ERR
  | FLASH_ENV_NAME_ERR, FLASH_ENV_NAME_ERR
  | FLASH_ENV_NAME_EXIST, FLASH_ENV_NAME_EXIST
  | FLASH_ENV_FULL, FLASH_ENV_FULL => true
  | _, _ => false
  end.

(** [flash_env], one entry of the default set. *)
Record flash_env : Type := { key : list ascii; value : list ascii }.

(** The build: whether [FLASH_ENV_USING_CRC_CHECK] is defined, and the
    external [calc_crc32 (crc, buf, size)]. *)
Class Build : Type := {
  crc_check : bool;
  calc_crc32 : Z -> list ascii -> Z
}.

(** ** The flash device *)

Inductive flash_op : Type :=
| OpErase (addr size : Z)
| OpWrite (addr : Z) (data : list ascii).

(** Modelled from the spec: the storage device of section 6, whose port
    functions [flash_read], [flash_write] and [flash_erase] are not part of
    this file.  [flash_mem] is the content of the device by address; a
    successful erase sets the bytes it is asked for to all-ones, a
    successful write stores the bytes; [dev_faults n op] tells whether the
    [n]-th erase or write issued, being [op], faults (a faulting operation
    leaves the content as it was); [dev_log] records every erase and write
    issued with its result, the most recent first. *)
Record flash_dev : Type := {
  flash_mem : Z -> ascii;
  dev_faults : nat -> flash_op -> bool;
  dev_log : list (flash_op * FlashErrCode)
}.

Definition mem_store (m : Z -> ascii) (addr : Z) (data : list ascii)
  : Z -> ascii :=
  fun a =>
    if (addr <=? a) && (a <? addr + strlen data)
    then nth (Z.to_nat (a - addr)) data ERASED
    else m a.

Definition mem_erase (m : Z -> ascii) (addr size : Z) : Z -> ascii :=
  fun a => if (addr <=? a) && (a <? addr + size) then ERASED else m a.

Definition mem_load (m : Z -> ascii) (addr size : Z) : list ascii :=
  map (fun i => m (addr + Z.of_nat i)) (seq 0 (Z.to_nat size)).

Definition dev_erase (d : flash_dev) (addr size : Z)
  : FlashErrCode * flash_dev :=
  let op := OpErase addr size in
  if dev_faults d (length (dev_log d)) op
  then (FLASH_ERASE_ERR,
        {| flash_mem := flash_mem d; dev_faults := dev_faults d;
           dev_log := (op, FLASH_ERASE_ERR) :: dev_log d |})
  else (FLASH_NO_ERR,
        {| flash_mem := mem_erase (flash_mem d) addr size;
           dev_faults := dev_faults d;
           dev_log := (op, FLASH_NO_ERR) :: dev_log d |}).

Definition dev_write (d : flash_dev) (addr : Z) (data : list ascii)
  : FlashErrCode * flash_dev :=
  let op := OpWrite addr data in
  if dev_faults d (length (dev_log d)) op
  then (FLASH_WRITE_ERR,
        {| flash_mem := flash_mem d; dev_faults := dev_faults d;
           dev_log := (op, FLASH_WRITE_ERR) :: dev_log d |})
  else (FLASH_NO_ERR,
        {| flash_mem := mem_store (flash_mem d) addr data;
           dev_faults := dev_faults d;
           dev_log := (op, FLASH_NO_ERR) :: dev_log d |}).

(** ** The module's globals *)

Record env_state : Type := {
  default_env_set : list flash_env;
  env_total_size : Z;
  flash_erase_min_size : Z;
  env_cache : list ascii;
  env_start_addr : Z;
  cur_using_data_addr : Z;
  flash : flash_dev
}.

Definition with_cache (st : env_state) (c : list ascii) : env_state :=
  {| default_env_set := default_env_set st;
     env_total_size := env_total_size st;
     flash_erase_min_size := flash_erase_min_size st;
     env_cache := c;
     env_start_addr := env_start_addr st;
     cur_using_data_addr := cur_using_data_addr st;
     flash := flash st |}.

Definition with_cur (st : env_state) (a : Z) : env_state :=
  {| default_env_set := default_env_set st;
     env_total_size := env_total_size st;
     flash_erase_min_size := flash_erase_min_size st;
     env_cache := env_cache st;
     env_start_addr := env_start_addr st;
     cur_using_data_addr := a;
     flash := flash st |}.

Definition with_flash (st : env_state) (d : flash_dev) : env_state :=
  {| default_env_set := default_env_set st;
     env_total_size := env_total_size st;
     flash_erase_min_size := flash_erase_min_size st;
     env_cache := env_cache st;
     env_start_addr := env_start_addr st;
     cur_using_data_addr := cur_using_data_addr st;
     flash := d |}.

(** ** The monad of the program *)

Definition M (A : Type) : Type := env_state -> option (A * env_state).

Definition ret {A} (a : A) : M A := fun st => Some (a, st).

Definition bind {A B} (m : M A) (k : A -> M B) : M B :=
  fun st => match m st with
            | Some (a, st') => k a st'
            | None => None
            end.

Definition stop {A} : M A := fun _ => None.

Definition gets {A} (f : env_state -> A) : M A := fun st => Some (f st, st).

Definition modify (f : env_state -> env_state) : M unit :=
  fun st => Some (tt, f st).

Declare Scope flash_scope.
Delimit Scope flash_scope with flash.
Notation "x <- m ;; k" := (bind m (fun x => k))
  (at level 61, m at next level, right associativity) : flash_scope.
Notation "m ;;; k" := (bind m (fun _ => k))
  (at level 61, right associativity) : flash_scope.
Open Scope flash_scope.

(** [FLASH_ASSERT (b)]: the program stops when [b] does not hold. *)
Definition FLASH_ASSERT (b : bool) : M unit :=
  if b then ret tt else stop.

(** The outcome of an undefined access. *)
Definition defined {A} (o : option A) : M A :=
  match o with Some a => ret a | None => stop end.

(** ** RAM accesses *)

(** [n] bytes of [ram] from offset [p]. *)
Definition ram_load (ram : list ascii) (p n : Z) : option (list ascii) :=
  if (0 <=? p) && (0 <=? n) && (p + n <=? strlen ram)
  then Some (firstn (Z.to_nat n) (skipn (Z.to_nat p) ram))
  else None.

(** [ram] with [data] stored from offset [p]. *)
Definition ram_splice (ram : list ascii) (p : Z) (data : list ascii)
  : list ascii :=
  firstn (Z.to_nat p) ram ++ data ++ skipn (Z.to_nat p + length data) ram.

Definition ram_store (ram : list ascii) (p : Z) (data : list ascii)
  : option (list ascii) :=
  if (0 <=? p) && (p + strlen data <=? strlen ram)
  then Some (ram_splice ram p data)
  else None.

(** The characters before the first NUL of [l]; undefined without one. *)
Fixpoint until_nul (l : list ascii) : option (list ascii) :=
  match l with
  | [] => None
  | c :: l' =>
      if Ascii.eqb c NUL then Some []
      else match until_nul l' with
           | Some s => Some (c :: s)
           | None => None
           end
  end.

(** The C string that starts at offset [p] of [ram]. *)
Definition c_string_at (ram : list ascii) (p : Z) : option (list ascii) :=
  if (0 <=? p) && (p <? strlen ram)
  then until_nul (skipn (Z.to_nat p) ram)
  else None.

(** ** [string.h] *)

Fixpoint starts_with (s k : list ascii) : bool :=
  match k, s with
  | [], _ => true
  | _ :: _, [] => false
  | a :: k', b :: s' => Ascii.eqb a b && starts_with s' k'
  end.

(** [strstr (s, k)]: the index of the first occurrence of [k] in [s]. *)
Fixpoint strstr (s k : list ascii) : option nat :=
  if starts_with s k then Some 0%nat
  else match s with
       | [] => None
       | _ :: s' => option_map S (strstr s' k)
       end.

(** [s[i]], the terminating NUL included. *)
Definition char_at (s : list ascii) (i : nat) : ascii := nth i s NUL.

(** ** The program *)

Section Program.

Context {B : Build}.

(** Index of the detail part end address in the parameters part. *)
Definition ENV_PARAM_PART_INDEX_END_ADDR : Z := 0.
(** Index of the CRC32 code (present with [FLASH_ENV_USING_CRC_CHECK]). *)
Definition ENV_PARAM_PART_INDEX_DATA_CRC : Z := 1.
Definition ENV_PARAM_PART_WORD_SIZE : Z := if crc_check then 2 else 1.
Definition ENV_PARAM_PART_BYTE_SIZE : Z := ENV_PARAM_PART_WORD_SIZE * 4.

(** [env_cache[i]] read and written as a word. *)
Definition cache_word (i : Z) : M Z :=
  cache <- gets env_cache ;;
  bs <- defined (ram_load cache (4 * i) 4) ;;
  ret (bytes_word bs).

Definition set_cache_word (i w : Z) : M unit :=
  cache <- gets env_cache ;;
  cache' <- defined (ram_store cache (4 * i) (word_bytes w)) ;;
  modify (fun st => with_cache st cache').

(** [memcpy] into the cache from a buffer outside it. *)
Definition memcpy_to_cache (dst : Z) (data : list ascii) : M unit :=
  cache <- gets env_cache ;;
  cache' <- defined (ram_store cache dst data) ;;
  modify (fun st => with_cache st cache').

(** [memcpy (env_cache + dst, env_cache + src, n)] with [dst <= src]: the
    bytes are copied in ascending order, so every byte is read before the
    copy overwrites it. *)
Definition memcpy_in_cache (dst src n : Z) : M unit :=
  cache <- gets env_cache ;;
  data <- defined (ram_load cache src n) ;;
  cache' <- defined (ram_store cache dst data) ;;
  modify (fun st => with_cache st cache').

(** *** Device primitives *)

Definition flash_read (addr size : Z) : M (list ascii) :=
  gets (fun st => mem_load (flash_mem (flash st)) addr size).

Definition flash_erase (addr size : Z) : M FlashErrCode :=
  fun st => let (r, d) := dev_erase (flash st) addr size in
            Some (r, with_flash st d).

Definition flash_write (addr : Z) (data : list ascii) : M FlashErrCode :=
  fun st => let (r, d) := dev_write (flash st) addr data in
            Some (r, with_flash st d).

(** *** Layout *)

Definition get_env_start_addr : M Z :=
  a <- gets env_start_addr ;;
  FLASH_ASSERT (negb (a =? 0)) ;;;
  ret a.

Definition get_cur_using_data_addr : M Z :=
  a <- gets cur_using_data_addr ;;
  FLASH_ASSERT (negb (a =? 0)) ;;;
  ret a.

Definition set_cur_using_data_addr (using_data_addr : Z) : M unit :=
  modify (fun st => with_cur st using_data_addr).

Definition get_env_detail_addr : M Z :=
  a <- gets cur_using_data_addr ;;
  FLASH_ASSERT (negb (a =? 0)) ;;;
  ret (u32 (a + ENV_PARAM_PART_BYTE_SIZE)).

Definition get_env_detail_end_addr : M Z :=
  cache_word ENV_PARAM_PART_INDEX_END_ADDR.

Definition set_env_detail_end_addr (end_addr : Z) : M unit :=
  set_cache_word ENV_PARAM_PART_INDEX_END_ADDR end_addr.

Definition get_env_detail_size : M Z :=
  end_addr <- get_env_detail_end_addr ;;
  detail_addr <- get_env_detail_addr ;;
  ret (u32 (end_addr - detail_addr)).

Definition flash_get_env_total_size : M Z :=
  t <- gets env_total_size ;;
  FLASH_ASSERT (negb (t =? 0)) ;;;
  ret t.

Definition flash_get_env_used_size : M Z :=
  end_addr <- get_env_detail_end_addr ;;
  start <- get_env_start_addr ;;
  ret (u32 (end_addr - start)).

(** *** Records *)

(** The buffer [env_str] of [write_env] after the two copy loops: the
    [env_str_length] zero bytes with [key], ['='] and [value] written from
    its start.  The loops write [strlen key + 1 + strlen value] characters;
    when the buffer is shorter they run past its end. *)
Definition format_env_str (env_str_length : Z) (key value : list ascii)
  : option (list ascii) :=
  let s := key ++ EQUAL_SIGN :: value in
  if strlen s <=? env_str_length
  then Some (s ++ repeat NUL (Z.to_nat (env_str_length - strlen s)))
  else None.

(** The storage length of [write_env], a [uint16_t]. *)
Definition env_storage_length (key value : list ascii) : Z :=
  let env_str_length := u16 (strlen key + strlen value + 2) in
  if negb (env_str_length mod 4 =? 0)
  then u16 ((env_str_length / 4 + 1) * 4)
  else env_str_length.

Definition write_env (key value : list ascii) : M FlashErrCode :=
  let env_str_length := env_storage_length key value in
  detail_size <- get_env_detail_size ;;
  total <- flash_get_env_total_size ;;
  if u32 (env_str_length + detail_size) >=? total then ret FLASH_ENV_FULL
  else
    env_str <- defined (format_env_str env_str_length key value) ;;
    detail_size <- get_env_detail_size ;;
    memcpy_to_cache (ENV_PARAM_PART_BYTE_SIZE + detail_size) env_str ;;;
    end_addr <- get_env_detail_end_addr ;;
    set_env_detail_end_addr (u32 (end_addr + env_str_length)) ;;;
    ret FLASH_NO_ERR.

(** The test of [find_env] on the string [s] that starts at [env]:
    [env_bak && env_bak[strlen(key)] == '='] with
    [env_bak = strstr (env, key)]. *)
Definition env_matches (s key : list ascii) : bool :=
  match strstr s key with
  | Some i => Ascii.eqb (char_at s (i + length key)) EQUAL_SIGN
  | None => false
  end.

(** The [while (env < env_end)] loop of [find_env].  Every turn moves [env]
    forward by at least one byte, so [env_end - env] turns are enough. *)
Fixpoint find_env_loop (fuel : nat) (cache key : list ascii)
    (env env_end : Z) : option (option Z) :=
  if env <? env_end then
    match fuel with
    | O => None
    | S fuel' =>
        match c_string_at cache env with
        | None => None
        | Some s =>
            if env_matches s key then Some (Some env)
            else find_env_loop fuel' cache key (env + strlen s + 1) env_end
        end
    end
  else Some None.

(** [find_env]: the offset of the record in the cache, [None] for [NULL]. *)
Definition find_env (key : list ascii) : M (option Z) :=
  cur <- gets cur_using_data_addr ;;
  FLASH_ASSERT (negb (cur =? 0)) ;;;
  match key with
  | [] => ret None
  | _ :: _ =>
      detail_size <- get_env_detail_size ;;
      let env_start := ENV_PARAM_PART_BYTE_SIZE in
      let env_end := ENV_PARAM_PART_BYTE_SIZE + detail_size in
      if env_start =? env_end then ret None
      else
        cache <- gets env_cache ;;
        defined (find_env_loop (Z.to_nat detail_size) cache key
                   env_start env_end)
  end.

Definition has_equal_sign (key : list ascii) : bool :=
  match strstr key [EQUAL_SIGN] with Some _ => true | None => false end.

Definition create_env (key value : list ascii) : M FlashErrCode :=
  match key with
  | [] => ret FLASH_ENV_NAME_ERR
  | _ :: _ =>
      if has_equal_sign key then ret FLASH_ENV_NAME_ERR
      else
        found <- find_env key ;;
        match found with
        | Some _ => ret FLASH_ENV_NAME_EXIST
        | None => write_env key value
        end
  end.

Definition flash_del_env (key : list ascii) : M FlashErrCode :=
  match key with
  | [] => ret FLASH_ENV_NAME_ERR
  | _ :: _ =>
      if has_equal_sign key then ret FLASH_ENV_NAME_ERR
      else
        found <- find_env key ;;
        match found with
        | None => ret FLASH_ENV_NAME_ERR
        | Some del_env_str =>
            cache <- gets env_cache ;;
            s <- defined (c_string_at cache del_env_str) ;;
            let del_env_length := u32 (strlen s + 1) in
            let del_env_length :=
              if negb (del_env_length mod 4 =? 0)
              then u32 ((del_env_length / 4 + 1) * 4)
              else del_env_length in
            detail_size <- get_env_detail_size ;;
            let remain_env_length := u32 (detail_size - del_env_str) in
            memcpy_in_cache del_env_str (del_env_str + del_env_length)
              remain_env_length ;;;
            end_addr <- get_env_detail_end_addr ;;
            set_env_detail_end_addr (u32 (end_addr - del_env_length)) ;;;
            ret FLASH_NO_ERR
        end
  end.

Definition flash_set_env (key value : list ascii) : M FlashErrCode :=
  match value with
  | [] => flash_del_env key
  | _ :: _ =>
      found <- find_env key ;;
      result <- match found with
                | Some _ => flash_del_env key
                | None => ret FLASH_NO_ERR
                end ;;
      if FlashErrCode_eqb result FLASH_NO_ERR then create_env key value
      else ret result
  end.

(** [flash_get_env]: the returned [char *] is given as the string it points
    to, [None] for [NULL]. *)
Definition flash_get_env (key : list ascii) : M (option (list ascii)) :=
  env_cache_addr <- find_env key ;;
  match env_cache_addr with
  | None => ret None
  | Some p =>
      cache <- gets env_cache ;;
      s <- defined (c_string_at cache p) ;;
      match strstr s [EQUAL_SIGN] with
      | None => ret None
      | Some i => ret (Some (skipn (S i) s))
      end
  end.

(** *** Printing *)

(** The calls of [flash_print], the output function of the port:
    [flash_print ("%c", c)], [flash_print ("\n")], and the closing call
    that prints the used size and the total size. *)
Inductive print_call : Type :=
| PRINT_CHAR (c : ascii)
| PRINT_NEWLINE
| PRINT_SIZE (used total : Z).

(** The inner [for] loop of [flash_print_env] on the word [w], from byte
    [j] on; [n] counts the turns left of its four. *)
Fixpoint print_word (n : nat) (w j : Z) : list print_call :=
  match n with
  | O => []
  | S n' =>
      let c := byte_of_Z (Z.shiftr w (8 * j)) in
      PRINT_CHAR c
      :: (if Ascii.eqb c NUL then [PRINT_NEWLINE]
          else print_word n' w (j + 1))
  end.

(** The outer [for] loop, over the [n] words from [env_cache[i]] on. *)
Fixpoint print_words (n : nat) (i : Z) : M (list print_call) :=
  match n with
  | O => ret []
  | S n' =>
      w <- cache_word i ;;
      rest <- print_words n' (i + 1) ;;
      ret (print_word 4 w 0 ++ rest)
  end.

(** [flash_print_env]; the embedding returns the calls of [flash_print]
    in their order. *)
Definition flash_print_env : M (list print_call) :=
  detail_size <- get_env_detail_size ;;
  out <- print_words (Z.to_nat (detail_size / 4)) ENV_PARAM_PART_WORD_SIZE ;;
  used <- flash_get_env_used_size ;;
  total <- flash_get_env_total_size ;;
  ret (out ++ [PRINT_SIZE used total]).

(** *** CRC *)

Definition calc_env_crc : M Z :=
  cache <- gets env_cache ;;
  end_word <- defined (ram_load cache (4 * ENV_PARAM_PART_INDEX_END_ADDR) 4) ;;
  let crc32 := u32 (calc_crc32 0 end_word) in
  detail_size <- get_env_detail_size ;;
  detail <- defined (ram_load cache (4 * ENV_PARAM_PART_WORD_SIZE)
                       detail_size) ;;
  ret (u32 (calc_crc32 crc32 detail)).

Definition env_crc_is_ok : M bool :=
  crc <- calc_env_crc ;;
  stored <- cache_word ENV_PARAM_PART_INDEX_DATA_CRC ;;
  ret (crc =? stored).

(** *** Saving *)

Definition save_cur_using_data_addr (cur_data_addr : Z) : M FlashErrCode :=
  start <- get_env_start_addr ;;
  result <- flash_erase start 4 ;;
  match result with
  | FLASH_NO_ERR =>
      start <- get_env_start_addr ;;
      flash_write start (word_bytes cur_data_addr)
  | _ => ret result
  end.

(** The body of both fault cases of [flash_save_env]: move the data section
    and the detail part end address to the next position. *)
Definition move_to_next_position (env_detail_size : Z) : M unit :=
  erase_min <- gets flash_erase_min_size ;;
  if erase_min =? 0 then stop
  else
    let move_offset_addr :=
      u32 ((env_detail_size / erase_min + 1) * erase_min) in
    cur <- get_cur_using_data_addr ;;
    set_cur_using_data_addr (u32 (cur + move_offset_addr)) ;;;
    end_addr <- get_env_detail_end_addr ;;
    set_env_detail_end_addr (u32 (end_addr + move_offset_addr)).

(** The condition of the [while] loop of [flash_save_env], tested again
    after it. *)
Definition data_section_fits (env_detail_size : Z) : M bool :=
  cur <- get_cur_using_data_addr ;;
  start <- get_env_start_addr ;;
  total <- flash_get_env_total_size ;;
  ret (u32 (cur + env_detail_size) <? u32 (start + total)).

(** The CRC block at the head of the loop of [flash_save_env]: calculate
    and cache the CRC32 code. *)
Definition cache_crc : M unit :=
  if crc_check
  then crc <- calc_env_crc ;;
       set_cache_word ENV_PARAM_PART_INDEX_DATA_CRC crc
  else ret tt.

(** How a turn of the [while] loop of [flash_save_env] ends. *)
Inductive loop_ctl : Type := CONTINUE | BREAK.

(** One turn of the loop, that is one attempt to erase and write the data
    section at the current position; it yields [result] and how the turn
    ends. *)
Definition save_env_turn (env_detail_size : Z) : M (loop_ctl * FlashErrCode) :=
  cache_crc ;;;
  cur <- get_cur_using_data_addr ;;
  result <- flash_erase cur
              (u32 (ENV_PARAM_PART_BYTE_SIZE + env_detail_size)) ;;
  match result with
  | FLASH_ERASE_ERR =>
      move_to_next_position env_detail_size ;;;
      ret (CONTINUE, result)
  | _ =>
      cur <- get_cur_using_data_addr ;;
      cache <- gets env_cache ;;
      data <- defined
                (ram_load cache 0
                   (u32 (ENV_PARAM_PART_BYTE_SIZE + env_detail_size))) ;;
      result <- flash_write cur data ;;
      match result with
      | FLASH_WRITE_ERR =>
          move_to_next_position env_detail_size ;;;
          ret (CONTINUE, result)
      | FLASH_NO_ERR => ret (BREAK, result)
      | _ => ret (CONTINUE, result)
      end
  end.

(** The [while] loop of [flash_save_env]; it yields [result] as the loop
    leaves it.  The loop has no bound of its own: [fuel] counts its turns. *)
Fixpoint save_env_loop (fuel : nat) (env_detail_size : Z)
    (result : FlashErrCode) : M FlashErrCode :=
  fits <- data_section_fits env_detail_size ;;
  if fits then
    match fuel with
    | O => stop
    | S fuel' =>
        turn <- save_env_turn env_detail_size ;;
        match turn with
        | (CONTINUE, result) => save_env_loop fuel' env_detail_size result
        | (BREAK, result) => ret result
        end
    end
  else ret result.

Definition flash_save_env (fuel : nat) : M FlashErrCode :=
  cur_data_addr_bak <- get_cur_using_data_addr ;;
  env_detail_size <- get_env_detail_size ;;
  result <- save_env_loop fuel env_detail_size FLASH_NO_ERR ;;
  fits <- data_section_fits env_detail_size ;;
  if fits then
    cur <- get_cur_using_data_addr ;;
    (if negb (cur =? cur_data_addr_bak)
     then cur <- get_cur_using_data_addr ;;
          save_cur_using_data_addr cur ;;; ret tt
     else ret tt) ;;;
    ret result
  else
    save_cur_using_data_addr 4294967295 ;;;
    ret FLASH_ENV_FULL.

(** *** Defaults *)

(** The [for] loop of [flash_env_set_default]. *)
Fixpoint create_default_envs (set : list flash_env) : M unit :=
  match set with
  | [] => ret tt
  | e :: set' =>
      create_env (key e) (value e) ;;;
      create_default_envs set'
  end.

(** [default_env_set_size] is the length of [default_env_set]. *)
Definition flash_env_set_default (fuel : nat) : M FlashErrCode :=
  set <- gets default_env_set ;;
  FLASH_ASSERT (negb (Nat.eqb (length set) 0)) ;;;
  detail_addr <- get_env_detail_addr ;;
  set_env_detail_end_addr detail_addr ;;;
  create_default_envs set ;;;
  flash_save_env fuel ;;;
  ret FLASH_NO_ERR.

(** *** Loading *)

(** [flash_read (addr, env_cache + dst, size)]. *)
Definition flash_read_to_cache (addr dst size : Z) : M unit :=
  cache <- gets env_cache ;;
  if (0 <=? dst) && (dst + size <=? strlen cache)
  then data <- flash_read addr size ;; memcpy_to_cache dst data
  else stop.

(** The branch [flash_load_env] takes.  The C function returns nothing;
    the embedding returns the branch so that properties can name it. *)
Inductive load_branch : Type :=
| LOAD_NEW_DEFAULT      (* no usable data section address: first slot, defaults *)
| LOAD_END_ADDR_DEFAULT (* end address in error: defaults *)
| LOAD_CRC_DEFAULT      (* CRC check failed: defaults *)
| LOAD_FROM_FLASH.      (* the cache holds the data section of the flash *)


Definition flash_load_env (fuel : nat) : M load_branch :=
  start <- get_env_start_addr ;;
  w <- flash_read start 4 ;;
  let using_data_addr := bytes_word w in
  env_start <- gets env_start_addr ;;
  env_total <- gets env_total_size ;;
  if (using_data_addr =? 4294967295)
     || (using_data_addr >? u32 (env_start + env_total))
  then
    start <- get_env_start_addr ;;
    erase_min <- gets flash_erase_min_size ;;
    set_cur_using_data_addr (u32 (start + erase_min)) ;;;
    cur <- get_cur_using_data_addr ;;
    save_cur_using_data_addr cur ;;;
    flash_env_set_default fuel ;;;
    ret LOAD_NEW_DEFAULT
  else
    set_cur_using_data_addr using_data_addr ;;;
    cur <- get_cur_using_data_addr ;;
    w <- flash_read (u32 (cur + ENV_PARAM_PART_INDEX_END_ADDR * 4)) 4 ;;
    let env_end_addr := bytes_word w in
    if env_end_addr >? u32 (env_start + env_total)
    then flash_env_set_default fuel ;;; ret LOAD_END_ADDR_DEFAULT
    else
      set_env_detail_end_addr env_end_addr ;;;
      detail_addr <- get_env_detail_addr ;;
      detail_size <- get_env_detail_size ;;
      flash_read_to_cache detail_addr (4 * ENV_PARAM_PART_WORD_SIZE)
        detail_size ;;;
      if crc_check then
        cur <- get_cur_using_data_addr ;;
        flash_read_to_cache (u32 (cur + ENV_PARAM_PART_INDEX_DATA_CRC * 4))
          (4 * ENV_PARAM_PART_INDEX_DATA_CRC) 4 ;;;
        ok <- env_crc_is_ok ;;
        if ok then ret LOAD_FROM_FLASH
        else flash_env_set_default fuel ;;; ret LOAD_CRC_DEFAULT
      else ret LOAD_FROM_FLASH.

(** *** Initialisation *)

(** [raw] is the buffer [flash_malloc] returns, [total_size] bytes of
    unspecified content; [dev] is the flash device. *)
Definition flash_env_init (fuel : nat) (start_addr total_size erase_min_size : Z)
    (default_env : list flash_env) (raw : list ascii) (dev : flash_dev)
  : option (FlashErrCode * env_state) :=
  if negb (start_addr =? 0) && negb (total_size =? 0)
     && negb (erase_min_size =? 0)
     && (Z.of_nat (length default_env) <? total_size)
     && (total_size mod 4 =? 0)
     && (strlen raw =? total_size)
  then
    match flash_load_env fuel
            {| default_env_set := default_env;
               env_total_size := total_size;
               flash_erase_min_size := erase_min_size;
               env_cache := raw;
               env_start_addr := start_addr;
               cur_using_data_addr := 0;
               flash := dev |} with
    | Some (_, st) => Some (FLASH_NO_ERR, st)
    | None => None
    end
  else None.

End Program.

(** ** A concrete build and device for examples *)

(** Modelled from the spec: the external [crc32 (seed, buffer, length)] of
    section 6, as the usual reflected CRC-32 (polynomial 0xEDB88320). *)
Definition crc32_step (c : Z) : Z :=
  if Z.odd c then Z.lxor (Z.shiftr c 1) 3988292384 else Z.shiftr c 1.

Definition crc32_byte (c : Z) (b : ascii) : Z :=
  let c := Z.lxor c (Z_of_byte b) in
  crc32_step (crc32_step (crc32_step (crc32_step
    (crc32_step (crc32_step (crc32_step (crc32_step c))))))).

Definition std_crc32 (crc : Z) (buf : list ascii) : Z :=
  Z.lxor (fold_left crc32_byte buf (Z.lxor crc 4294967295)) 4294967295.

(** The build with [FLASH_ENV_USING_CRC_CHECK]. *)
Definition crc_build : Build :=
  {| crc_check := true; calc_crc32 := std_crc32 |}.

(** The build without it. *)
Definition plain_build : Build :=
  {| crc_check := false; calc_crc32 := std_crc32 |}.

(** An erased device on which no operation faults. *)
Definition blank_dev : flash_dev :=
  {| flash_mem := fun _ => ERASED;
     dev_faults := fun _ _ => false;
     dev_log := [] |}.

(** A cache of [total] bytes: the end address word, a zero CRC word with
    [FLASH_ENV_USING_CRC_CHECK], the [detail] bytes, and zero bytes up to
    [total]. *)
Definition make_cache {B : Build} (end_addr : Z) (detail : list ascii)
    (total : Z) : list ascii :=
  let head := word_bytes end_addr
              ++ (if crc_check then word_bytes 0 else []) ++ detail in
  head ++ repeat NUL (Z.to_nat (total - strlen head)).

(** A state whose cache holds [detail] as the detail part of the data
    section at [cur]. *)
Definition make_state {B : Build} (start total erase_min cur : Z)
    (detail : list ascii) (dev : flash_dev) : env_state :=
  {| default_env_set := [];
     env_total_size := total;
     flash_erase_min_size := erase_min;
     env_cache :=
       make_cache (cur + ENV_PARAM_PART_BYTE_SIZE + strlen detail) detail total;
     env_start_addr := start;
     cur_using_data_addr := cur;
     flash := dev |}.

(** The detail part the cache of [st] holds. *)
Definition detail_of {B : Build} (st : env_state) : option (list ascii) :=
  match get_env_detail_size st with
  | Some (d, _) => ram_load (env_cache st) ENV_PARAM_PART_BYTE_SIZE d
  | None => None
  end.

(** ** Notions used by the properties *)


(** The stride of [flash_save_env]. *)
Definition move_offset (detail_size erase_min : Z) : Z :=
  u32 ((detail_size / erase_min + 1) * erase_min).

Section Notions.

Context {B : Build}.

(** What the layout functions compute, as functions of the globals. *)
Definition end_addr_of (st : env_state) : Z :=
  bytes_word (firstn 4 (env_cache st)).

Definition detail_addr_of (st : env_state) : Z :=
  u32 (cur_using_data_addr st + ENV_PARAM_PART_BYTE_SIZE).

Definition detail_size_of (st : env_state) : Z :=
  u32 (end_addr_of st - detail_addr_of st).

(** The word the System Section of the flash holds. *)
Definition system_word (st : env_state) : Z :=
  bytes_word (mem_load (flash_mem (flash st)) (env_start_addr st) 4).

(** The globals the assertions of the layout functions look at, and the
    parameters part inside the cache. *)
Definition usable (st : env_state) : Prop :=
  cur_using_data_addr st <> 0 /\ env_start_addr st <> 0
  /\ env_total_size st <> 0
  /\ ENV_PARAM_PART_BYTE_SIZE <= strlen (env_cache st) < 2 ^ 32.

(** A stored record: the string, its NUL, and NULs up to a multiple of 4. *)
Definition align4 (n : Z) : Z := if n mod 4 =? 0 then n else (n / 4 + 1) * 4.

Definition record_bytes (s : list ascii) : list ascii :=
  s ++ repeat NUL (Z.to_nat (align4 (strlen s + 1) - strlen s)).

Definition nul_free (s : list ascii) : Prop := Forall (fun c => c <> NUL) s.

(** The record [key=value]. *)
Definition record_of (key value : list ascii) : list ascii :=
  key ++ EQUAL_SIGN :: value.

(** The detail part holds exactly the records [recs], one after the other. *)
Definition holds_records (st : env_state) (recs : list (list ascii)) : Prop :=
  exists head slack,
    env_cache st = head ++ flat_map record_bytes recs ++ slack
    /\ strlen head = ENV_PARAM_PART_BYTE_SIZE
    /\ detail_size_of st = strlen (flat_map record_bytes recs)
    /\ Forall nul_free recs.

(** The record [find_env] stops at among [recs], the first being at [pos]. *)
Fixpoint find_in_records (recs : list (list ascii)) (key : list ascii)
    (pos : Z) : option Z :=
  match recs with
  | [] => None
  | r :: recs' =>
      if env_matches r key then Some pos
      else find_in_records recs' key (pos + strlen (record_bytes r))
  end.

(** The CRC32 [calc_env_crc] computes. *)
Definition crc_of (st : env_state) : Z :=
  u32 (calc_crc32 (u32 (calc_crc32 0 (firstn 4 (env_cache st))))
         (firstn (Z.to_nat (detail_size_of st))
            (skipn (Z.to_nat ENV_PARAM_PART_BYTE_SIZE) (env_cache st)))).

(** The cache with the CRC32 code stored in its place (nothing to store
    without [FLASH_ENV_USING_CRC_CHECK]). *)
Definition with_crc (st : env_state) : env_state :=
  if crc_check
  then with_cache st (firstn 4 (env_cache st) ++ word_bytes (crc_of st)
                      ++ skipn 8 (env_cache st))
  else st.

(** The state after the data section and the detail part end address have
    been moved to the next position. *)
Definition relocated (env_detail_size : Z) (st : env_state) : env_state :=
  let m := move_offset env_detail_size (flash_erase_min_size st) in
  with_cache (with_cur st (u32 (cur_using_data_addr st + m)))
    (word_bytes (u32 (end_addr_of st + m)) ++ skipn 4 (env_cache st)).

(** What a turn of the loop of [flash_save_env] yields when nothing in it
    is undefined. *)
Definition turn_result (env_detail_size : Z) (st : env_state)
  : (loop_ctl * FlashErrCode) * env_state :=
  let st1 := with_crc st in
  let cur := cur_using_data_addr st in
  let size := u32 (ENV_PARAM_PART_BYTE_SIZE + env_detail_size) in
  let e := dev_erase (flash st) cur size in
  match fst e with
  | FLASH_ERASE_ERR =>
      ((CONTINUE, FLASH_ERASE_ERR),
       relocated env_detail_size (with_flash st1 (snd e)))
  | _ =>
      let w := dev_write (snd e) cur
                 (firstn (Z.to_nat size) (env_cache st1)) in
      match fst w with
      | FLASH_WRITE_ERR =>
          ((CONTINUE, FLASH_WRITE_ERR),
           relocated env_detail_size (with_flash st1 (snd w)))
      | FLASH_NO_ERR => ((BREAK, FLASH_NO_ERR), with_flash st1 (snd w))
      | r => ((CONTINUE, r), with_flash st1 (snd w))
      end
  end.

(** [data_section_fits] as a function of the globals. *)
Definition fits_of (env_detail_size : Z) (st : env_state) : bool :=
  u32 (cur_using_data_addr st + env_detail_size)
  <? u32 (env_start_addr st + env_total_size st).

(** The detail part end address word of the data section the System
    Section points to. *)
Definition end_word_of (st : env_state) : Z :=
  bytes_word (mem_load (flash_mem (flash st))
                (u32 (system_word st + ENV_PARAM_PART_INDEX_END_ADDR * 4)) 4).

(** The state [flash_load_env] leaves when it loads the data section the
    System Section points to. *)
Definition loaded_state (st : env_state) : env_state :=
  let mem := flash_mem (flash st) in
  let st1 := with_cur st (system_word st) in
  let st2 := with_cache st1
               (word_bytes (end_word_of st) ++ skipn 4 (env_cache st)) in
  let st3 := with_cache st2
               (ram_splice (env_cache st2) (4 * ENV_PARAM_PART_WORD_SIZE)
                  (mem_load mem (detail_addr_of st2) (detail_size_of st2))) in
  if crc_check
  then with_cache st3
         (ram_splice (env_cache st3) (4 * ENV_PARAM_PART_INDEX_DATA_CRC)
            (mem_load mem
               (u32 (system_word st + ENV_PARAM_PART_INDEX_DATA_CRC * 4)) 4))
  else st3.

(** The CRC32 code the cache holds. *)
Definition stored_crc_of (st : env_state) : Z :=
  bytes_word (firstn 4 (skipn 4 (env_cache st))).

(** The address limit both tests of [flash_load_env] compare with. *)
Definition load_limit (st : env_state) : Z :=
  u32 (env_start_addr st + env_total_size st).

End Notions.

(** A default variable whose strings are C strings and whose record length
    fits the 16 bits [write_env] holds it in. *)
Definition valid_default (e : flash_env) : Prop :=
  nul_free (key e) /\ nul_free (value e)
  /\ strlen (key e) + strlen (value e) + 2 <= 65532.

(** The bytes the records of a default set take. *)
Definition defaults_size (set : list flash_env) : Z :=
  fold_right
    (fun e acc => strlen (record_bytes (record_of (key e) (value e))) + acc)
    0 set.

(** Two states that differ in the cache at most, the cache keeping its
    length. *)
Definition only_cache_differs (st st' : env_state) : Prop :=
  default_env_set st' = default_env_set st
  /\ env_total_size st' = env_total_size st
  /\ flash_erase_min_size st' = flash_erase_min_size st
  /\ env_start_addr st' = env_start_addr st
  /\ cur_using_data_addr st' = cur_using_data_addr st
  /\ flash st' = flash st
  /\ strlen (env_cache st') = strlen (env_cache st).

(** The value [flash_get_env] returns on a detail part that holds [recs]:
    the text after the first equal sign of the first record that passes
    the test of [find_env]. *)
Definition lookup_records (recs : list (list ascii)) (key : list ascii)
  : option (list ascii) :=
  match key with
  | [] => None
  | _ :: _ =>
      match find (fun r => env_matches r key) recs with
      | Some r =>
          match strstr r [EQUAL_SIGN] with
          | Some i => Some (skipn (S i) r)
          | None => None
          end
      | None => None
      end
  end.

(** The records of a default set, and a default set that [create_env]
    takes whole: every name is not empty and has no equal sign, and no
    record of an earlier variable passes the test of [find_env] for the
    name of a later one. *)
Definition default_records (set : list flash_env) : list (list ascii) :=
  map (fun e => record_of (key e) (value e)) set.

Definition proper_name (k : list ascii) : Prop :=
  k <> [] /\ has_equal_sign k = false.

Definition distinct_defaults (set : list flash_env) : Prop :=
  ForallOrdPairs
    (fun e1 e2 =>
       env_matches (record_of (key e1) (value e1)) (key e2) = false) set.

(** What [flash_print_env] prints of four bytes of the cache, of [n]
    words of it, and of a record: its characters, the NUL, a newline. *)
Fixpoint print_bytes (bs : list ascii) : list print_call :=
  match bs with
  | [] => []
  | c :: bs' =>
      PRINT_CHAR c
      :: (if Ascii.eqb c NUL then [PRINT_NEWLINE] else print_bytes bs')
  end.

Fixpoint print_chunks (n : nat) (l : list ascii) : list print_call :=
  match n with
  | O => []
  | S n' => print_bytes (firstn 4 l) ++ print_chunks n' (skipn 4 l)
  end.

Definition record_line (r : list ascii) : list print_call :=
  map PRINT_CHAR r ++ [PRINT_CHAR NUL; PRINT_NEWLINE].

(** The erases a log records. *)
Definition erases (log : list (flash_op * FlashErrCode)) : list (Z * Z) :=
  flat_map (fun e => match fst e with
                     | OpErase a n => [(a, n)]
                     | OpWrite _ _ => []
                     end) log.

(** The last operation the device was asked for succeeded. *)
Definition last_op_succeeded (st : env_state) : Prop :=
  match dev_log (flash st) with
  | (_, FLASH_NO_ERR) :: _ => True
  | _ => False
  end.

Section TurnLog.

Context {B : Build}.

(** The operations a turn issues. *)
Definition turn_log (d : Z) (st st' : env_state)
    (new : list (flash_op * FlashErrCode)) : Prop :=
  let cur := cur_using_data_addr st in
  let size := u32 (ENV_PARAM_PART_BYTE_SIZE + d) in
  dev_log (flash st') = new ++ dev_log (flash st)
  /\ (new = [(OpErase cur size, FLASH_ERASE_ERR)]
      \/ exists data r, new = [(OpWrite cur data, r);
                               (OpErase cur size, FLASH_NO_ERR)]).

End TurnLog.

(** The length [flash_del_env] computes for the string [s]. *)
Definition del_length (s : list ascii) : Z :=
  let del_env_length := u32 (strlen s + 1) in
  if negb (del_env_length mod 4 =? 0)
  then u32 ((del_env_length / 4 + 1) * 4)
  else del_env_length.

(** The stride as section 4.5 of the specification words it:
    [ceil (detailSize / erase_unit_size) * erase_unit_size]. *)
Definition spec_stride (detail_size erase_unit_size : Z) : Z :=
  ((detail_size + erase_unit_size - 1) / erase_unit_size) * erase_unit_size.

Section SavedNotions.

Context {B : Build}.

(** The flash holds, at the data section in use, the parameters part and
    the detail part of the cache. *)
Definition data_section_saved (st : env_state) : Prop :=
  mem_load (flash_mem (flash st)) (cur_using_data_addr st)
    (ENV_PARAM_PART_BYTE_SIZE + detail_size_of st)
  = firstn (Z.to_nat (ENV_PARAM_PART_BYTE_SIZE + detail_size_of st))
      (env_cache st).

(** The detail part of the cache: what comes after the parameters part. *)
Definition cache_tail (st : env_state) : list ascii :=
  skipn (Z.to_nat ENV_PARAM_PART_BYTE_SIZE) (env_cache st).

End SavedNotions.


(** ** Example states

    A store of 1024 bytes at address 4096 with erase units of 256 bytes;
    the first data section is at 4352. *)

(** The detail part that holds the records [recs]. *)
Definition detail_with (recs : list (list ascii)) : list ascii :=
  flat_map record_bytes recs.

Definition plain_state (recs : list (list ascii)) : env_state :=
  make_state (B := plain_build) 4096 1024 256 4352 (detail_with recs) blank_dev.

Definition crc_state (recs : list (list ascii)) : env_state :=
  make_state (B := crc_build) 4096 1024 256 4352 (detail_with recs) blank_dev.

(** A value of 65533 characters. *)
Definition long_value : list ascii := repeat "v"%char (Z.to_nat 65533).

(** A value of 1000 characters. *)
Definition wide_value : list ascii := repeat "w"%char (Z.to_nat 1000).

(** The state an action leaves, and what it returns. *)
Definition state_after {A} (m : M A) (st : env_state) : env_state :=
  match m st with Some (_, st') => st' | None => st end.

Definition returned {A} (m : M A) (st : env_state) : option A :=
  option_map fst (m st).

(** A device whose operations fault as [plan] tells, in the order they are
    issued, and succeed once [plan] is used up. *)
Definition planned_dev (plan : list bool) : flash_dev :=
  {| flash_mem := fun _ => ERASED;
     dev_faults := fun n _ => nth n plan false;
     dev_log := [] |}.

(** A device on which every erase faults but that of the System Section at
    address 4096. *)
Definition worn_dev : flash_dev :=
  {| flash_mem := fun _ => ERASED;
     dev_faults := fun _ op =>
       match op with
       | OpErase addr _ => negb (addr =? 4096)
       | OpWrite _ _ => false
       end;
     dev_log := [] |}.

(** The store with the record [a=1] on the worn device. *)
Definition worn_state : env_state :=
  with_flash (plain_state [str "a=1"]) worn_dev.


(** The module before [flash_load_env], on the device [dev]: the store of
    1024 bytes at 4096, a default set of one variable, and a cache of zero
    bytes. *)
Definition unloaded_state (dev : flash_dev) : env_state :=
  {| default_env_set := [{| key := str "boot"; value := str "1" |}];
     env_total_size := 1024;
     flash_erase_min_size := 256;
     env_cache := repeat NUL (Z.to_nat 1024);
     env_start_addr := 4096;
     cur_using_data_addr := 0;
     flash := dev |}.

(** The module on the worn device with a default set of which the second
    variable has a ['='] in its name and the third has the name of the
    first. *)
Definition careless_state : env_state :=
  {| default_env_set :=
       [{| key := str "boot"; value := str "1" |};
        {| key := str "b=d"; value := str "x" |};
        {| key := str "boot"; value := str "2" |}];
     env_total_size := 1024;
     flash_erase_min_size := 256;
     env_cache := repeat NUL (Z.to_nat 1024);
     env_start_addr := 4096;
     cur_using_data_addr := 4352;
     flash := worn_dev |}.

(** A value of 1021 characters: with a name of one character its record
    takes 1024 bytes. *)
Definition kilo_value : list ascii := repeat "w"%char (Z.to_nat 1021).

(** A record of 1016 bytes. *)
Definition filler_record : list ascii :=
  str "k=" ++ repeat "w"%char (Z.to_nat 1012).

(** The store with two records on a device whose first operation faults,
    and the state a save leaves from it: the data section has moved from
    4352 to 4608. *)
Definition faulty_once_state : env_state :=
  with_flash (plain_state [str "a=1"; str "bcd=xyz"]) (planned_dev [true]).

Definition saved_state : env_state :=
  state_after (flash_save_env (B := plain_build) 4) faulty_once_state.

(** The module with a default set of two variables, on a blank device. *)
Definition tidy_defaults : list flash_env :=
  [{| key := str "boot"; value := str "1" |};
   {| key := str "mode"; value := str "fast" |}].

Definition tidy_state : env_state :=
  {| default_env_set := tidy_defaults;
     env_total_size := 1024;
     flash_erase_min_size := 256;
     env_cache := repeat NUL (Z.to_nat 1024);
     env_start_addr := 4096;
     cur_using_data_addr := 4352;
     flash := blank_dev |}.




(** * Properties *)

Unset Implicit Arguments.
Lemma u32_range x : 0 <= u32 x < 2 ^ 32.
Proof. unfold u32. apply Z.mod_pos_bound. lia. Qed.

Lemma u32_small x : 0 <= x < 2 ^ 32 -> u32 x = x.
Proof. intros. unfold u32. apply Z.mod_small. lia. Qed.

Lemma Z_of_byte_range b : 0 <= Z_of_byte b < 256.
Proof.
  unfold Z_of_byte. pose proof (N_ascii_bounded b). lia.
Qed.

Lemma Z_of_byte_of_Z z : Z_of_byte (byte_of_Z z) = z mod 256.
Proof.
  unfold Z_of_byte, byte_of_Z.
  assert (0 <= z mod 256 < 256) by (apply Z.mod_pos_bound; lia).
  rewrite N_ascii_embedding by lia. lia.
Qed.

Lemma byte_of_Z_of_byte b x : byte_of_Z (Z_of_byte b + 256 * x) = b.
Proof.
  unfold byte_of_Z.
  replace (Z_of_byte b + 256 * x) with (Z_of_byte b + x * 256) by lia.
  rewrite Z.mod_add by lia.
  rewrite Z.mod_small by apply Z_of_byte_range.
  unfold Z_of_byte. rewrite N2Z.id. apply ascii_N_embedding.
Qed.

Lemma bytes_word_word_bytes w : bytes_word (word_bytes w) = u32 w.
Proof.
  unfold bytes_word, word_bytes, u32. cbn [fold_right].
  rewrite !Z_of_byte_of_Z.
  change (2 ^ 32) with 4294967296.
  pose proof (Z.div_mod w 256 ltac:(lia)).
  pose proof (Z.div_mod (w / 256) 256 ltac:(lia)).
  pose proof (Z.div_mod (w / 256 / 256) 256 ltac:(lia)).
  pose proof (Z.div_mod (w / 256 / 256 / 256) 256 ltac:(lia)).
  pose proof (Z.mod_pos_bound w 256 ltac:(lia)).
  pose proof (Z.mod_pos_bound (w / 256) 256 ltac:(lia)).
  pose proof (Z.mod_pos_bound (w / 256 / 256) 256 ltac:(lia)).
  pose proof (Z.mod_pos_bound (w / 256 / 256 / 256) 256 ltac:(lia)).
  replace (w / 65536) with (w / 256 / 256) by (rewrite Z.div_div by lia; reflexivity).
  replace (w / 16777216) with (w / 256 / 256 / 256) by (rewrite !Z.div_div by lia; reflexivity).
  apply Z.mod_unique_pos with (q := w / 256 / 256 / 256 / 256); lia.
Qed.

Lemma bytes_word_range bs : length bs = 4%nat -> 0 <= bytes_word bs < 2 ^ 32.
Proof.
  destruct bs as [|a [|b [|c [|d [|]]]]]; try discriminate. intros _.
  unfold bytes_word. cbn [fold_right].
  pose proof (Z_of_byte_range a). pose proof (Z_of_byte_range b).
  pose proof (Z_of_byte_range c). pose proof (Z_of_byte_range d).
  change (2 ^ 32) with 4294967296. lia.
Qed.

Lemma word_bytes_bytes_word bs : length bs = 4%nat -> word_bytes (bytes_word bs) = bs.
Proof.
  destruct bs as [|a [|b [|c [|d [|]]]]]; try discriminate. intros _.
  unfold bytes_word, word_bytes. cbn [fold_right].
  pose proof (Z_of_byte_range a). pose proof (Z_of_byte_range b).
  pose proof (Z_of_byte_range c). pose proof (Z_of_byte_range d).
  rewrite byte_of_Z_of_byte.
  replace ((Z_of_byte a + 256 * (Z_of_byte b + 256 * (Z_of_byte c + 256 * (Z_of_byte d + 256 * 0)))) / 256)
    with (Z_of_byte b + 256 * (Z_of_byte c + 256 * (Z_of_byte d + 256 * 0))).
  2:{ apply Z.div_unique with (r := Z_of_byte a); lia. }
  rewrite byte_of_Z_of_byte.
  replace ((Z_of_byte a + 256 * (Z_of_byte b + 256 * (Z_of_byte c + 256 * (Z_of_byte d + 256 * 0)))) / 65536)
    with (Z_of_byte c + 256 * (Z_of_byte d + 256 * 0)).
  2:{ apply Z.div_unique with (r := Z_of_byte a + 256 * Z_of_byte b); lia. }
  rewrite byte_of_Z_of_byte.
  replace ((Z_of_byte a + 256 * (Z_of_byte b + 256 * (Z_of_byte c + 256 * (Z_of_byte d + 256 * 0)))) / 16777216)
    with (Z_of_byte d + 256 * 0).
  2:{ apply Z.div_unique with (r := Z_of_byte a + 256 * Z_of_byte b + 65536 * Z_of_byte c); lia. }
  rewrite byte_of_Z_of_byte. reflexivity.
Qed.

(** ** Running the monad *)

Lemma bind_Some A B (m : M A) (k : A -> M B) st b st' :
  bind m k st = Some (b, st') <->
  exists a st1, m st = Some (a, st1) /\ k a st1 = Some (b, st').
Proof.
  unfold bind. split.
  - destruct (m st) as [[a st1]|]; [|discriminate]. intros H. eauto.
  - intros (a & st1 & Hm & Hk). rewrite Hm. exact Hk.
Qed.

Lemma Some_pair_inj {A B} (a c : A) (b d : B) :
  Some (a, b) = Some (c, d) -> a = c /\ b = d.
Proof. intros H. injection H as -> ->. auto. Qed.

Lemma Some_pair_inj' {A B} (a c : A) (b d : B) :
  (a, b) = (c, d) -> a = c /\ b = d.
Proof. intros H. injection H as -> ->. auto. Qed.

Ltac pinj H := apply Some_pair_inj in H; destruct H as [<- <-].

Lemma bind_run {A B} {m : M A} (k : A -> M B) {st a st1} :
  m st = Some (a, st1) -> bind m k st = k a st1.
Proof. intros H. unfold bind. rewrite H. reflexivity. Qed.

Lemma bind_ret {A B} (a : A) (k : A -> M B) st : bind (ret a) k st = k a st.
Proof. reflexivity. Qed.

Lemma bind_gets {A B} (f : env_state -> A) (k : A -> M B) st :
  bind (gets f) k st = k (f st) st.
Proof. reflexivity. Qed.

Lemma bind_modify {B} (f : env_state -> env_state) (k : unit -> M B) st :
  bind (modify f) k st = k tt (f st).
Proof. reflexivity. Qed.

Lemma bind_defined {A B} (a : A) (k : A -> M B) st :
  bind (defined (Some a)) k st = k a st.
Proof. reflexivity. Qed.

Lemma bind_bind {A B C} (m : M A) (k : A -> M B) (h : B -> M C) st :
  bind (bind m k) h st = bind m (fun a => bind (k a) h) st.
Proof. unfold bind. destruct (m st) as [[a st1]|]; reflexivity. Qed.








Lemma FLASH_ASSERT_true b st : b = true -> FLASH_ASSERT b st = Some (tt, st).
Proof. intros ->. reflexivity. Qed.

(** One step of a run: the first action of a sequence yields as [H] says. *)
Ltac mstep H := rewrite (bind_run _ H).
Ltac mstep_in H H0 := rewrite (bind_run _ H) in H0.

Lemma strlen_nonneg s : 0 <= strlen s.
Proof. unfold strlen. lia. Qed.

Lemma strlen_app s t : strlen (s ++ t) = strlen s + strlen t.
Proof. unfold strlen. rewrite length_app. lia. Qed.

Lemma strlen_cons c s : strlen (c :: s) = 1 + strlen s.
Proof. unfold strlen. simpl length. lia. Qed.

Lemma strlen_repeat c n : strlen (repeat c n) = Z.of_nat n.
Proof. unfold strlen. rewrite repeat_length. reflexivity. Qed.

Lemma strlen_word_bytes w : strlen (word_bytes w) = 4.
Proof. reflexivity. Qed.

Lemma strlen_nil : strlen [] = 0.
Proof. reflexivity. Qed.

(** Lengths of concatenations, by linear arithmetic. *)
Ltac slen :=
  repeat rewrite ?strlen_app, ?strlen_cons, ?strlen_repeat, ?strlen_nil,
    ?strlen_word_bytes in *;
  lia.

(** ** Accesses to a RAM buffer given as a concatenation *)

Lemma ram_load_app pre mid post :
  ram_load (pre ++ mid ++ post) (strlen pre) (strlen mid) = Some mid.
Proof.
  unfold ram_load.
  pose proof (strlen_nonneg pre). pose proof (strlen_nonneg mid).
  pose proof (strlen_nonneg post).
  rewrite !strlen_app.
  replace ((0 <=? strlen pre) && (0 <=? strlen mid)
           && (strlen pre + strlen mid <=? strlen pre + (strlen mid + strlen post)))
    with true by (symmetry; rewrite !andb_true_iff; repeat split; apply Z.leb_le; lia).
  unfold strlen. rewrite !Nat2Z.id.
  rewrite skipn_app, Nat.sub_diag, skipn_all. simpl.
  rewrite firstn_app, Nat.sub_diag, firstn_all. simpl.
  rewrite app_nil_r. reflexivity.
Qed.

Lemma ram_store_app pre mid post data :
  length data = length mid ->
  ram_store (pre ++ mid ++ post) (strlen pre) data = Some (pre ++ data ++ post).
Proof.
  intros Hlen. unfold ram_store, ram_splice.
  pose proof (strlen_nonneg pre). pose proof (strlen_nonneg post).
  rewrite !strlen_app.
  assert (Hd : strlen data = strlen mid) by (unfold strlen; lia).
  replace ((0 <=? strlen pre)
           && (strlen pre + strlen data <=? strlen pre + (strlen mid + strlen post)))
    with true by (symmetry; rewrite !andb_true_iff; split; apply Z.leb_le; lia).
  unfold strlen. rewrite !Nat2Z.id.
  rewrite firstn_app, Nat.sub_diag, firstn_all. simpl. rewrite app_nil_r.
  rewrite Hlen.
  assert (Hsk : skipn (length pre + length mid) (pre ++ mid ++ post) = post).
  { rewrite app_assoc, <- length_app, skipn_app, Nat.sub_diag, skipn_all.
    reflexivity. }
  rewrite Hsk. reflexivity.
Qed.

Lemma until_nul_app s rest :
  nul_free s -> until_nul (s ++ NUL :: rest) = Some s.
Proof.
  induction 1 as [|c s Hc Hs IH]; simpl.
  - reflexivity.
  - destruct (Ascii.eqb_spec c NUL) as [->|_]; [contradiction|].
    rewrite IH. reflexivity.
Qed.

Lemma c_string_at_app pre s rest :
  nul_free s -> c_string_at (pre ++ s ++ NUL :: rest) (strlen pre) = Some s.
Proof.
  intros Hs. unfold c_string_at.
  pose proof (strlen_nonneg pre). pose proof (strlen_nonneg s).
  pose proof (strlen_nonneg rest).
  rewrite !strlen_app, strlen_cons.
  replace ((0 <=? strlen pre) && (strlen pre <? strlen pre + (strlen s + (1 + strlen rest))))
    with true
    by (symmetry; rewrite andb_true_iff; split; [apply Z.leb_le|apply Z.ltb_lt]; lia).
  unfold strlen. rewrite Nat2Z.id, skipn_app, Nat.sub_diag, skipn_all. simpl.
  apply until_nul_app. exact Hs.
Qed.

(** ** The layout functions *)

Section Layout.

Context {B : Build}.

Lemma param_size_cases :
  ENV_PARAM_PART_BYTE_SIZE = 4 \/ ENV_PARAM_PART_BYTE_SIZE = 8.
Proof.
  unfold ENV_PARAM_PART_BYTE_SIZE, ENV_PARAM_PART_WORD_SIZE.
  destruct crc_check; auto.
Qed.

Lemma usable_cache st : usable st -> 4 <= strlen (env_cache st).
Proof. intros (_ & _ & _ & H & _). pose proof param_size_cases. lia. Qed.

Lemma get_cur_using_data_addr_eq st :
  cur_using_data_addr st <> 0 ->
  get_cur_using_data_addr st = Some (cur_using_data_addr st, st).
Proof.
  intros H. unfold get_cur_using_data_addr, bind, gets, FLASH_ASSERT.
  destruct (Z.eqb_spec (cur_using_data_addr st) 0); [contradiction|reflexivity].
Qed.

Lemma get_env_start_addr_eq st :
  env_start_addr st <> 0 ->
  get_env_start_addr st = Some (env_start_addr st, st).
Proof.
  intros H. unfold get_env_start_addr, bind, gets, FLASH_ASSERT.
  destruct (Z.eqb_spec (env_start_addr st) 0); [contradiction|reflexivity].
Qed.

Lemma flash_get_env_total_size_eq st :
  env_total_size st <> 0 ->
  flash_get_env_total_size st = Some (env_total_size st, st).
Proof.
  intros H. unfold flash_get_env_total_size, bind, gets, FLASH_ASSERT.
  destruct (Z.eqb_spec (env_total_size st) 0); [contradiction|reflexivity].
Qed.

Lemma get_env_detail_addr_eq st :
  cur_using_data_addr st <> 0 ->
  get_env_detail_addr st = Some (detail_addr_of st, st).
Proof.
  intros H. unfold get_env_detail_addr, bind, gets, FLASH_ASSERT.
  destruct (Z.eqb_spec (cur_using_data_addr st) 0); [contradiction|reflexivity].
Qed.

Lemma ram_load_word0 ram :
  4 <= strlen ram -> ram_load ram 0 4 = Some (firstn 4 ram).
Proof.
  intros H. unfold ram_load.
  destruct (Z.leb_spec (0 + 4) (strlen ram)); [reflexivity|lia].
Qed.

Lemma ram_store_word0 ram w :
  4 <= strlen ram ->
  ram_store ram 0 (word_bytes w) = Some (word_bytes w ++ skipn 4 ram).
Proof.
  intros H. unfold ram_store, ram_splice. rewrite strlen_word_bytes.
  destruct (Z.leb_spec (0 + 4) (strlen ram)); [reflexivity|lia].
Qed.

Lemma get_env_detail_end_addr_eq st :
  4 <= strlen (env_cache st) ->
  get_env_detail_end_addr st = Some (end_addr_of st, st).
Proof.
  intros H. unfold get_env_detail_end_addr, cache_word, bind, gets.
  change (4 * ENV_PARAM_PART_INDEX_END_ADDR) with 0.
  rewrite ram_load_word0 by exact H. reflexivity.
Qed.

Lemma set_env_detail_end_addr_eq st e :
  4 <= strlen (env_cache st) ->
  set_env_detail_end_addr e st
  = Some (tt, with_cache st (word_bytes e ++ skipn 4 (env_cache st))).
Proof.
  intros H. unfold set_env_detail_end_addr, set_cache_word, bind, gets.
  change (4 * ENV_PARAM_PART_INDEX_END_ADDR) with 0.
  rewrite ram_store_word0 by exact H. reflexivity.
Qed.

Lemma get_env_detail_size_eq st :
  cur_using_data_addr st <> 0 -> 4 <= strlen (env_cache st) ->
  get_env_detail_size st = Some (detail_size_of st, st).
Proof.
  intros Hc Hl. unfold get_env_detail_size.
  rewrite (bind_run _ (get_env_detail_end_addr_eq st Hl)).
  rewrite (bind_run _ (get_env_detail_addr_eq st Hc)).
  reflexivity.
Qed.

(** The detail part end address after it has been set. *)
Lemma end_addr_of_set st e rest :
  end_addr_of (with_cache st (word_bytes e ++ rest)) = u32 e.
Proof.
  unfold end_addr_of. simpl env_cache.
  change (firstn 4 (word_bytes e ++ rest)) with (word_bytes e).
  apply bytes_word_word_bytes.
Qed.

Lemma end_addr_of_range st :
  4 <= strlen (env_cache st) -> 0 <= end_addr_of st < 2 ^ 32.
Proof.
  intros H. unfold end_addr_of. apply bytes_word_range.
  rewrite length_firstn. unfold strlen in H. lia.
Qed.

Lemma strlen_set_end st e :
  4 <= strlen (env_cache st) ->
  strlen (word_bytes e ++ skipn 4 (env_cache st)) = strlen (env_cache st).
Proof.
  intros H. rewrite strlen_app, strlen_word_bytes.
  unfold strlen in *. rewrite length_skipn. lia.
Qed.

End Layout.

(** ** Stored records *)

Lemma align4_bounds n : n <= align4 n < n + 4.
Proof.
  unfold align4. destruct (Z.eqb_spec (n mod 4) 0); [lia|].
  pose proof (Z.div_mod n 4 ltac:(lia)).
  pose proof (Z.mod_pos_bound n 4 ltac:(lia)). lia.
Qed.

Lemma align4_mod n : align4 n mod 4 = 0.
Proof.
  unfold align4. destruct (Z.eqb_spec (n mod 4) 0); [assumption|].
  apply Z.mod_mul. lia.
Qed.

Lemma record_bytes_eq r :
  record_bytes r
  = r ++ NUL :: repeat NUL (Z.to_nat (align4 (strlen r + 1) - strlen r - 1)).
Proof.
  unfold record_bytes. f_equal.
  pose proof (align4_bounds (strlen r + 1)).
  replace (Z.to_nat (align4 (strlen r + 1) - strlen r))
    with (S (Z.to_nat (align4 (strlen r + 1) - strlen r - 1))) by lia.
  reflexivity.
Qed.

Lemma strlen_record_bytes r : strlen (record_bytes r) = align4 (strlen r + 1).
Proof.
  unfold record_bytes. rewrite strlen_app, strlen_repeat.
  pose proof (align4_bounds (strlen r + 1)). lia.
Qed.

Lemma strlen_record_bytes_pos r : 4 <= strlen (record_bytes r).
Proof.
  rewrite strlen_record_bytes.
  pose proof (align4_bounds (strlen r + 1)).
  pose proof (align4_mod (strlen r + 1)).
  pose proof (strlen_nonneg r).
  pose proof (Z.div_mod (align4 (strlen r + 1)) 4 ltac:(lia)). lia.
Qed.

Lemma strlen_flat_map_cons r recs :
  strlen (flat_map record_bytes (r :: recs))
  = strlen (record_bytes r) + strlen (flat_map record_bytes recs).
Proof. simpl flat_map. apply strlen_app. Qed.

Lemma env_storage_length_eq key value :
  strlen key + strlen value + 2 <= 65532 ->
  env_storage_length key value = align4 (strlen (record_of key value) + 1).
Proof.
  intros H. pose proof (strlen_nonneg key). pose proof (strlen_nonneg value).
  unfold env_storage_length, record_of, align4, u16.
  rewrite strlen_app, strlen_cons.
  replace (strlen key + (1 + strlen value) + 1)
    with (strlen key + strlen value + 2) by lia.
  set (n := strlen key + strlen value + 2) in *.
  change (2 ^ 16) with 65536.
  rewrite (Z.mod_small n 65536) by lia.
  destruct (Z.eqb_spec (n mod 4) 0); simpl negb; cbv iota; [reflexivity|].
  apply Z.mod_small.
  pose proof (Z.div_mod n 4 ltac:(lia)).
  pose proof (Z.mod_pos_bound n 4 ltac:(lia)). lia.
Qed.

Lemma format_env_str_eq key value :
  format_env_str (align4 (strlen (record_of key value) + 1)) key value
  = Some (record_bytes (record_of key value)).
Proof.
  unfold format_env_str. fold (record_of key value).
  pose proof (align4_bounds (strlen (record_of key value) + 1)).
  destruct (Z.leb_spec (strlen (record_of key value))
              (align4 (strlen (record_of key value) + 1))); [|lia].
  reflexivity.
Qed.

(** ** The scan of [find_env] *)

Lemma find_env_loop_S fuel cache key env env_end :
  find_env_loop (S fuel) cache key env env_end
  = if env <? env_end then
      match c_string_at cache env with
      | None => None
      | Some s =>
          if env_matches s key then Some (Some env)
          else find_env_loop fuel cache key (env + strlen s + 1) env_end
      end
    else Some None.
Proof. reflexivity. Qed.

Lemma env_matches_nil key : key <> [] -> env_matches [] key = false.
Proof. destruct key; [congruence|reflexivity]. Qed.

(** The scan steps over NUL bytes one at a time. *)
Lemma find_loop_zeros k : forall pre rest fuel key env_end,
  key <> [] ->
  strlen pre + Z.of_nat k <= env_end ->
  find_env_loop (k + fuel) (pre ++ repeat NUL k ++ rest) key
    (strlen pre) env_end
  = find_env_loop fuel (pre ++ repeat NUL k ++ rest) key
      (strlen pre + Z.of_nat k) env_end.
Proof.
  induction k as [|k IH]; intros pre rest fuel key env_end Hkey Hend.
  - simpl. rewrite Z.add_0_r. reflexivity.
  - change (S k + fuel)%nat with (S (k + fuel)). rewrite find_env_loop_S.
    destruct (Z.ltb_spec (strlen pre) env_end); [|lia].
    change (pre ++ repeat NUL (S k) ++ rest)
      with (pre ++ [] ++ NUL :: (repeat NUL k ++ rest)).
    rewrite (c_string_at_app pre [] (repeat NUL k ++ rest)) by constructor.
    rewrite env_matches_nil by exact Hkey.
    replace (pre ++ [] ++ NUL :: (repeat NUL k ++ rest))
      with ((pre ++ [NUL]) ++ repeat NUL k ++ rest)
      by (rewrite <- app_assoc; reflexivity).
    replace (strlen pre + strlen [] + 1) with (strlen (pre ++ [NUL]))
      by slen.
    rewrite IH by (try assumption; slen).
    f_equal. slen.
Qed.

(** On a detail part that holds records, the scan stops at the first
    record [env_matches] accepts. *)
Lemma find_loop_records recs : forall pre slack fuel key,
  key <> [] -> Forall nul_free recs ->
  find_env_loop (length (flat_map record_bytes recs) + fuel)
    (pre ++ flat_map record_bytes recs ++ slack) key
    (strlen pre) (strlen pre + strlen (flat_map record_bytes recs))
  = Some (find_in_records recs key (strlen pre)).
Proof.
  induction recs as [|r recs IH]; intros pre slack fuel key Hkey Hnf.
  - simpl flat_map. change (strlen []) with 0. rewrite Z.add_0_r.
    destruct fuel; simpl; rewrite Z.ltb_irrefl; reflexivity.
  - inversion Hnf as [|? ? Hr Hrecs]; subst.
    pose proof (strlen_record_bytes_pos r) as Hpos.
    pose proof (strlen_nonneg (flat_map record_bytes recs)) as Hrest.
    rewrite strlen_flat_map_cons.
    simpl flat_map. rewrite record_bytes_eq in *.
    set (k := Z.to_nat (align4 (strlen r + 1) - strlen r - 1)) in *.
    rewrite !length_app. simpl length. rewrite repeat_length.
    replace (length r + S k + length (flat_map record_bytes recs) + fuel)%nat
      with (S (k + (length (flat_map record_bytes recs) + (length r + fuel))))
      by lia.
    rewrite find_env_loop_S.
    destruct (Z.ltb_spec (strlen pre)
                (strlen pre + (strlen (r ++ NUL :: repeat NUL k)
                               + strlen (flat_map record_bytes recs)))); [|lia].
    replace (pre ++ ((r ++ NUL :: repeat NUL k) ++ flat_map record_bytes recs) ++ slack)
      with (pre ++ r ++ NUL :: (repeat NUL k ++ flat_map record_bytes recs ++ slack))
      by (rewrite <- !app_assoc; reflexivity).
    rewrite c_string_at_app by exact Hr.
    simpl find_in_records.
    destruct (env_matches r key); [reflexivity|].
    replace (pre ++ r ++ NUL :: (repeat NUL k ++ flat_map record_bytes recs ++ slack))
      with ((pre ++ r ++ [NUL]) ++ repeat NUL k ++ (flat_map record_bytes recs ++ slack))
      by (rewrite <- !app_assoc; reflexivity).
    replace (strlen pre + strlen r + 1) with (strlen (pre ++ r ++ [NUL]))
      by slen.
    rewrite find_loop_zeros.
    2: exact Hkey.
    2: slen.
    replace ((pre ++ r ++ [NUL]) ++ repeat NUL k ++ flat_map record_bytes recs ++ slack)
      with ((pre ++ r ++ NUL :: repeat NUL k) ++ flat_map record_bytes recs ++ slack)
      by (rewrite <- !app_assoc; reflexivity).
    replace (strlen (pre ++ r ++ [NUL]) + Z.of_nat k)
      with (strlen (pre ++ r ++ NUL :: repeat NUL k))
      by slen.
    replace (strlen pre + (strlen (r ++ NUL :: repeat NUL k)
                           + strlen (flat_map record_bytes recs)))
      with (strlen (pre ++ r ++ NUL :: repeat NUL k)
            + strlen (flat_map record_bytes recs))
      by slen.
    rewrite IH by assumption.
    f_equal. f_equal. rewrite record_bytes_eq. fold k. slen.
Qed.

(** ** The record store on a detail part that holds records *)

Lemma ram_store_inv_app pre rest data c' :
  ram_store (pre ++ rest) (strlen pre) data = Some c' ->
  c' = pre ++ data ++ skipn (length data) rest /\ strlen data <= strlen rest.
Proof.
  unfold ram_store, ram_splice. rewrite strlen_app.
  destruct (Z.leb_spec 0 (strlen pre)); simpl andb; [|discriminate].
  destruct (Z.leb_spec (strlen pre + strlen data) (strlen pre + strlen rest));
    [|discriminate].
  intros Heq. injection Heq as <-. split; [|lia].
  unfold strlen. rewrite Nat2Z.id.
  rewrite firstn_app, Nat.sub_diag, firstn_all. simpl. rewrite app_nil_r.
  rewrite skipn_app.
  replace (length pre + length data - length pre)%nat with (length data) by lia.
  rewrite (skipn_all2 pre) by lia. reflexivity.
Qed.

Lemma ram_load_inv_app pre rest n l :
  ram_load (pre ++ rest) (strlen pre) n = Some l ->
  l = firstn (Z.to_nat n) rest /\ 0 <= n <= strlen rest.
Proof.
  unfold ram_load. rewrite strlen_app.
  destruct (Z.leb_spec 0 (strlen pre)); simpl andb; [|discriminate].
  destruct (Z.leb_spec 0 n); simpl andb; [|discriminate].
  destruct (Z.leb_spec (strlen pre + n) (strlen pre + strlen rest));
    [|discriminate].
  intros Heq. injection Heq as <-. split; [|lia].
  unfold strlen. rewrite Nat2Z.id.
  rewrite skipn_app, Nat.sub_diag, skipn_all. reflexivity.
Qed.

Lemma u32_add_sub e l a : u32 (u32 (e + l) - a) = u32 (u32 (e - a) + l).
Proof.
  unfold u32. rewrite Zminus_mod_idemp_l, Zplus_mod_idemp_l.
  f_equal. lia.
Qed.

Lemma flat_map_records_nil recs :
  strlen (flat_map record_bytes recs) = 0 -> recs = [].
Proof.
  destruct recs as [|r recs]; [reflexivity|].
  rewrite strlen_flat_map_cons.
  pose proof (strlen_record_bytes_pos r).
  pose proof (strlen_nonneg (flat_map record_bytes recs)). lia.
Qed.

Section Store.

Context {B : Build}.

Lemma holds_records_cache st recs :
  holds_records st recs -> 4 <= strlen (env_cache st).
Proof.
  intros (head & slack & Hc & Hh & _). rewrite Hc.
  pose proof param_size_cases.
  pose proof (strlen_nonneg (flat_map record_bytes recs ++ slack)). slen.
Qed.

(** [find_env] on a detail part that holds records. *)
Lemma find_env_records st recs key :
  holds_records st recs -> cur_using_data_addr st <> 0 -> key <> [] ->
  find_env key st
  = Some (find_in_records recs key ENV_PARAM_PART_BYTE_SIZE, st).
Proof.
  intros Hrec Hcur Hkey.
  pose proof (holds_records_cache st recs Hrec) as Hlen.
  destruct Hrec as (head & slack & Hc & Hh & Hd & Hnf).
  destruct key as [|c key]; [congruence|].
  unfold find_env.
  rewrite (bind_run (st := st) (a := cur_using_data_addr st) _ eq_refl).
  assert (Has : FLASH_ASSERT (negb (cur_using_data_addr st =? 0)) st
                = Some (tt, st)).
  { destruct (Z.eqb_spec (cur_using_data_addr st) 0); [contradiction|].
    reflexivity. }
  rewrite (bind_run _ Has).
  rewrite (bind_run _ (get_env_detail_size_eq st Hcur Hlen)).
  rewrite Hd.
  destruct (Z.eqb_spec ENV_PARAM_PART_BYTE_SIZE
              (ENV_PARAM_PART_BYTE_SIZE
               + strlen (flat_map record_bytes recs))) as [Heq|Hne].
  - rewrite (flat_map_records_nil recs) by lia. reflexivity.
  - unfold bind, gets, defined. rewrite Hc, <- Hh.
    unfold strlen at 1. rewrite Nat2Z.id.
    rewrite <- (Nat.add_0_r (length (flat_map record_bytes recs))).
    rewrite find_loop_records by (assumption || discriminate).
    reflexivity.
Qed.

Lemma ram_store_keeps_word0 ram p data c' :
  4 <= p -> ram_store ram p data = Some c' ->
  firstn 4 c' = firstn 4 ram /\ strlen c' = strlen ram.
Proof.
  intros Hp. unfold ram_store, ram_splice.
  destruct (Z.leb_spec 0 p); simpl andb; [|discriminate].
  destruct (Z.leb_spec (p + strlen data) (strlen ram)); [|discriminate].
  intros Heq. injection Heq as <-.
  pose proof (strlen_nonneg data) as Hd. unfold strlen in *. split.
  - rewrite firstn_app, firstn_firstn, length_firstn.
    replace (Nat.min 4 (Z.to_nat p)) with 4%nat by lia.
    replace (4 - Nat.min (Z.to_nat p) (length ram))%nat with 0%nat by lia.
    simpl. apply app_nil_r.
  - rewrite !length_app, length_firstn, length_skipn. lia.
Qed.

(** What a call of [write_env] that returns did. *)
Lemma write_env_run st key value r st' :
  usable st ->
  write_env key value st = Some (r, st') ->
  (u32 (env_storage_length key value + detail_size_of st) >= env_total_size st
   /\ r = FLASH_ENV_FULL /\ st' = st)
  \/ (u32 (env_storage_length key value + detail_size_of st) < env_total_size st
      /\ r = FLASH_NO_ERR
      /\ exists env_str c',
           format_env_str (env_storage_length key value) key value = Some env_str
           /\ ram_store (env_cache st)
                (ENV_PARAM_PART_BYTE_SIZE + detail_size_of st) env_str = Some c'
           /\ st' = with_cache st
                      (word_bytes (u32 (end_addr_of st
                                        + env_storage_length key value))
                       ++ skipn 4 c')).
Proof.
  intros Hus Hrun. pose proof (usable_cache st Hus) as Hlen.
  destruct Hus as (Hcur & Hstart & Htot & Hcache).
  unfold write_env in Hrun.
  mstep_in (get_env_detail_size_eq st Hcur Hlen) Hrun.
  mstep_in (flash_get_env_total_size_eq st Htot) Hrun.
  destruct (Z.geb_spec (u32 (env_storage_length key value + detail_size_of st))
              (env_total_size st)) as [Hfull|Hroom].
  - left. injection Hrun as <- <-. repeat split; lia.
  - right. split; [lia|].
    destruct (format_env_str (env_storage_length key value) key value)
      as [env_str|] eqn:Hfmt; [|discriminate].
    rewrite bind_defined in Hrun.
    mstep_in (get_env_detail_size_eq st Hcur Hlen) Hrun.
    unfold memcpy_to_cache in Hrun.
    rewrite bind_bind, bind_gets in Hrun.
    destruct (ram_store (env_cache st)
                (ENV_PARAM_PART_BYTE_SIZE + detail_size_of st) env_str)
      as [c'|] eqn:Hst; [|discriminate].
    pose proof param_size_cases as Hp.
    assert (Hdr : 4 <= ENV_PARAM_PART_BYTE_SIZE + detail_size_of st)
      by (pose proof (u32_range (end_addr_of st - detail_addr_of st));
          unfold detail_size_of; lia).
    destruct (ram_store_keeps_word0 _ _ _ _ Hdr Hst) as [Hw0 Hl'].
    rewrite bind_bind, bind_defined, bind_modify in Hrun.
    assert (Hlen' : 4 <= strlen (env_cache (with_cache st c')))
      by (simpl; lia).
    mstep_in (get_env_detail_end_addr_eq _ Hlen') Hrun.
    mstep_in (set_env_detail_end_addr_eq (with_cache st c')
                (u32 (end_addr_of (with_cache st c')
                      + env_storage_length key value)) Hlen') Hrun.
    injection Hrun as <- <-. split; [reflexivity|].
    exists env_str, c'. split; [reflexivity|]. split; [exact Hst|].
    unfold end_addr_of. simpl env_cache. rewrite Hw0. reflexivity.
Qed.

Lemma skipn_head (head rest : list ascii) n :
  (n <= length head)%nat -> skipn n (head ++ rest) = skipn n head ++ rest.
Proof.
  intros H. rewrite skipn_app.
  replace (n - length head)%nat with 0%nat by lia. reflexivity.
Qed.

Lemma nul_free_record_of key value :
  nul_free key -> nul_free value -> nul_free (record_of key value).
Proof.
  intros Hk Hv. unfold nul_free, record_of. apply Forall_app. split; [exact Hk|].
  constructor; [discriminate|exact Hv].
Qed.


(** [write_env] appends the record to a detail part that holds records. *)
Lemma write_env_records st recs key value st' :
  holds_records st recs -> usable st ->
  strlen key + strlen value + 2 <= 65532 ->
  nul_free key -> nul_free value ->
  write_env key value st = Some (FLASH_NO_ERR, st') ->
  holds_records st' (recs ++ [record_of key value])
  /\ exists c, st' = with_cache st c /\ strlen c = strlen (env_cache st).
Proof.
  intros Hrec Hus Hsize Hk Hv Hrun.
  destruct (write_env_run st key value _ _ Hus Hrun)
    as [(_ & Hr & _)|(Hroom & _ & env_str & c' & Hfmt & Hst & ->)];
    [discriminate|].
  destruct Hrec as (head & slack & Hc & Hh & Hd & Hnf).
  destruct Hus as (Hcur & Hstart & Htot & Hcache).
  pose proof param_size_cases as Hp.
  rewrite env_storage_length_eq in * by exact Hsize.
  rewrite format_env_str_eq in Hfmt. injection Hfmt as <-.
  set (rec := record_of key value) in *.
  rewrite <- strlen_record_bytes in *.
  rewrite Hc, Hd, app_assoc in Hst.
  replace (ENV_PARAM_PART_BYTE_SIZE + strlen (flat_map record_bytes recs))
    with (strlen (head ++ flat_map record_bytes recs)) in Hst by slen.
  apply ram_store_inv_app in Hst. destruct Hst as [-> Hfit].
  assert (Hh4 : (4 <= length head)%nat) by (unfold strlen in Hh; lia).
  rewrite <- !app_assoc, skipn_head by exact Hh4.
  assert (Hheadlen : strlen (word_bytes
                       (u32 (end_addr_of st + strlen (record_bytes rec)))
                     ++ skipn 4 head) = ENV_PARAM_PART_BYTE_SIZE).
  { rewrite strlen_app, strlen_word_bytes. unfold strlen in *.
    rewrite length_skipn. lia. }
  assert (Hslack : strlen (skipn (length (record_bytes rec)) slack)
                   = strlen slack - strlen (record_bytes rec)).
  { unfold strlen in *. rewrite length_skipn. lia. }
  split.
  - exists (word_bytes (u32 (end_addr_of st + strlen (record_bytes rec)))
            ++ skipn 4 head),
           (skipn (length (record_bytes rec)) slack).
    split; [|split; [exact Hheadlen|split]].
    + simpl env_cache. rewrite flat_map_app. simpl flat_map.
      rewrite app_nil_r, <- !app_assoc. reflexivity.
    + unfold detail_size_of. rewrite end_addr_of_set.
      change (detail_addr_of
                (with_cache st
                   (word_bytes (u32 (end_addr_of st + strlen (record_bytes rec)))
                    ++ skipn 4 head ++ flat_map record_bytes recs
                    ++ record_bytes rec
                    ++ skipn (length (record_bytes rec)) slack)))
        with (detail_addr_of st).
      rewrite (u32_small (u32 _)) by apply u32_range.
      rewrite u32_add_sub. fold (detail_size_of st). rewrite Hd.
      rewrite flat_map_app. simpl flat_map. rewrite app_nil_r, strlen_app.
      apply u32_small.
      pose proof (strlen_nonneg (flat_map record_bytes recs)).
      pose proof (strlen_record_bytes_pos rec).
      rewrite Hc in Hcache. rewrite !strlen_app in Hcache. lia.
    + apply Forall_app. split; [exact Hnf|].
      constructor; [|constructor].
      apply nul_free_record_of; assumption.
  - eexists. split; [reflexivity|].
    rewrite Hc. rewrite !strlen_app in *. lia.
Qed.

(** The record [find_env] stops at is the first one [env_matches] accepts. *)
Lemma find_in_records_Some recs : forall key pos p,
  find_in_records recs key pos = Some p ->
  exists rs1 rec rs2,
    recs = rs1 ++ rec :: rs2
    /\ p = pos + strlen (flat_map record_bytes rs1)
    /\ env_matches rec key = true
    /\ find_in_records rs1 key pos = None.
Proof.
  induction recs as [|r recs IH]; intros key pos p Hf; [discriminate|].
  simpl in Hf. destruct (env_matches r key) eqn:Hm.
  - injection Hf as <-. exists [], r, recs. simpl. rewrite strlen_nil.
    repeat split; auto. lia.
  - destruct (IH _ _ _ Hf) as (rs1 & rec & rs2 & -> & -> & Hrec & Hnone).
    exists (r :: rs1), rec, rs2. simpl flat_map. simpl find_in_records.
    rewrite Hm, strlen_app. repeat split; auto. lia.
Qed.

Lemma find_in_records_app rs1 : forall rs2 key pos,
  find_in_records rs1 key pos = None ->
  find_in_records (rs1 ++ rs2) key pos
  = find_in_records rs2 key (pos + strlen (flat_map record_bytes rs1)).
Proof.
  induction rs1 as [|r rs1 IH]; intros rs2 key pos Hn; simpl.
  - rewrite strlen_nil, Z.add_0_r. reflexivity.
  - simpl in Hn. destruct (env_matches r key); [discriminate|].
    rewrite IH by exact Hn. f_equal. slen.
Qed.

Lemma find_in_records_None recs : forall key pos,
  find_in_records recs key pos = None ->
  Forall (fun r => env_matches r key = false) recs.
Proof.
  induction recs as [|r recs IH]; intros key pos Hn; constructor.
  - simpl in Hn. destruct (env_matches r key); [discriminate|reflexivity].
  - simpl in Hn. destruct (env_matches r key); [discriminate|].
    eapply IH. exact Hn.
Qed.



Lemma del_length_eq s :
  strlen s + 4 < 2 ^ 32 -> del_length s = strlen (record_bytes s).
Proof.
  intros H. pose proof (strlen_nonneg s).
  rewrite strlen_record_bytes. unfold del_length, align4.
  rewrite (u32_small (strlen s + 1)) by lia.
  destruct (Z.eqb_spec ((strlen s + 1) mod 4) 0); simpl negb; cbv iota;
    [reflexivity|].
  apply u32_small.
  pose proof (Z.div_mod (strlen s + 1) 4 ltac:(lia)).
  pose proof (Z.mod_pos_bound (strlen s + 1) 4 ltac:(lia)). lia.
Qed.

(** What a call of [flash_del_env] that finds the record at [p] does. *)
Lemma flash_del_env_run st key p :
  usable st -> key <> [] -> has_equal_sign key = false ->
  find_env key st = Some (Some p, st) ->
  flash_del_env key st
  = match c_string_at (env_cache st) p with
    | None => None
    | Some s =>
        match ram_load (env_cache st) (p + del_length s)
                (u32 (detail_size_of st - p)) with
        | None => None
        | Some data =>
            match ram_store (env_cache st) p data with
            | None => None
            | Some c' =>
                if 4 <=? strlen c' then
                  Some (FLASH_NO_ERR,
                        with_cache st
                          (word_bytes
                             (u32 (bytes_word (firstn 4 c') - del_length s))
                           ++ skipn 4 c'))
                else None
            end
        end
    end.
Proof.
  intros Hus Hkey Heq Hfind. pose proof (usable_cache st Hus) as Hlen.
  destruct Hus as (Hcur & Hstart & Htot & Hcache).
  unfold flash_del_env. destruct key as [|c key]; [congruence|].
  rewrite Heq. mstep Hfind. rewrite bind_gets.
  destruct (c_string_at (env_cache st) p) as [s|]; [|reflexivity].
  rewrite bind_defined. fold (del_length s).
  mstep (get_env_detail_size_eq st Hcur Hlen).
  unfold memcpy_in_cache. rewrite bind_bind, bind_gets.
  destruct (ram_load (env_cache st) (p + del_length s)
              (u32 (detail_size_of st - p))) as [data|]; [|reflexivity].
  rewrite bind_bind, bind_defined.
  destruct (ram_store (env_cache st) p data) as [c'|]; [|reflexivity].
  rewrite bind_bind, bind_defined, bind_modify.
  destruct (Z.leb_spec 4 (strlen c')) as [Hc'|Hc'].
  - assert (Hlen' : 4 <= strlen (env_cache (with_cache st c'))) by exact Hc'.
    mstep (get_env_detail_end_addr_eq _ Hlen').
    mstep (set_env_detail_end_addr_eq (with_cache st c')
             (u32 (end_addr_of (with_cache st c') - del_length s)) Hlen').
    reflexivity.
  - unfold get_env_detail_end_addr, cache_word.
    rewrite !bind_bind, bind_gets. simpl env_cache.
    change (4 * ENV_PARAM_PART_INDEX_END_ADDR) with 0.
    unfold ram_load.
    destruct (Z.leb_spec (0 + 4) (strlen c')); [lia|]. reflexivity.
Qed.

Lemma u32_sub_sub e l a : u32 (u32 (e - l) - a) = u32 (u32 (e - a) - l).
Proof.
  unfold u32. rewrite !Zminus_mod_idemp_l. f_equal. lia.
Qed.

(** [flash_del_env] on a detail part that holds records: the record found
    is taken out when it is at least as long as the parameters part. *)
Lemma flash_del_env_records st key rs1 rec rs2 r st' :
  holds_records st (rs1 ++ rec :: rs2) -> usable st ->
  key <> [] -> has_equal_sign key = false ->
  find_in_records (rs1 ++ rec :: rs2) key ENV_PARAM_PART_BYTE_SIZE
  = Some (ENV_PARAM_PART_BYTE_SIZE + strlen (flat_map record_bytes rs1)) ->
  ENV_PARAM_PART_BYTE_SIZE <= strlen (record_bytes rec) ->
  flash_del_env key st = Some (r, st') ->
  r = FLASH_NO_ERR
  /\ holds_records st' (rs1 ++ rs2)
  /\ exists c, st' = with_cache st c /\ strlen c = strlen (env_cache st).
Proof.
  intros Hrec Hus Hkey Heq Hfind Hlong Hrun.
  pose proof (find_env_records st _ key Hrec (proj1 Hus) Hkey) as Hfe.
  rewrite Hfind in Hfe.
  rewrite (flash_del_env_run st key _ Hus Hkey Heq Hfe) in Hrun.
  destruct Hrec as (head & slack & Hc & Hh & Hd & Hnf).
  destruct Hus as (Hcur & Hstart & Htot & Hcache).
  pose proof param_size_cases as Hp.
  rewrite flat_map_app in Hc, Hd. simpl flat_map in Hc, Hd.
  set (F1 := flat_map record_bytes rs1) in *.
  set (F2 := flat_map record_bytes rs2) in *.
  rewrite <- !app_assoc in Hc.
  apply Forall_app in Hnf. destruct Hnf as [Hnf1 Hnf2].
  inversion Hnf2 as [|? ? Hnrec Hnf2']; subst.
  pose proof (strlen_nonneg F1) as HF1. pose proof (strlen_nonneg F2) as HF2.
  pose proof (strlen_nonneg slack) as Hsl.
  pose proof (strlen_nonneg rec) as Hrl.
  assert (Hcl : strlen (env_cache st)
                = ENV_PARAM_PART_BYTE_SIZE + strlen F1
                  + strlen (record_bytes rec) + strlen F2 + strlen slack)
    by (rewrite Hc; slen).
  assert (HRl : strlen rec + 1 <= strlen (record_bytes rec))
    by (rewrite strlen_record_bytes; apply align4_bounds).
  (* the string at the record *)
  assert (Hstr : c_string_at (env_cache st)
                   (ENV_PARAM_PART_BYTE_SIZE + strlen F1) = Some rec).
  { rewrite Hc, record_bytes_eq.
    replace (head ++ F1 ++ (rec ++ NUL :: repeat NUL _) ++ F2 ++ slack)
      with ((head ++ F1) ++ rec ++ NUL :: (repeat NUL
              (Z.to_nat (align4 (strlen rec + 1) - strlen rec - 1))
              ++ F2 ++ slack))
      by (rewrite <- !app_assoc; reflexivity).
    replace (ENV_PARAM_PART_BYTE_SIZE + strlen F1) with (strlen (head ++ F1))
      by slen.
    apply c_string_at_app. exact Hnrec. }
  rewrite Hstr in Hrun.
  rewrite del_length_eq in Hrun by lia.
  (* the bytes moved *)
  assert (Hrem : u32 (detail_size_of st
                      - (ENV_PARAM_PART_BYTE_SIZE + strlen F1))
                 = strlen (record_bytes rec) + strlen F2
                   - ENV_PARAM_PART_BYTE_SIZE).
  { rewrite Hd.
    replace (strlen (F1 ++ record_bytes rec ++ F2)
             - (ENV_PARAM_PART_BYTE_SIZE + strlen F1))
      with (strlen (record_bytes rec) + strlen F2 - ENV_PARAM_PART_BYTE_SIZE)
      by slen.
    apply u32_small. lia. }
  rewrite Hrem in Hrun.
  set (n := strlen (record_bytes rec) + strlen F2 - ENV_PARAM_PART_BYTE_SIZE) in *.
  destruct (ram_load (env_cache st)
              (ENV_PARAM_PART_BYTE_SIZE + strlen F1 + strlen (record_bytes rec)) n)
    as [data|] eqn:Hload; [|discriminate].
  rewrite Hc in Hload.
  replace (head ++ F1 ++ record_bytes rec ++ F2 ++ slack)
    with ((head ++ F1 ++ record_bytes rec) ++ F2 ++ slack) in Hload
    by (rewrite <- !app_assoc; reflexivity).
  replace (ENV_PARAM_PART_BYTE_SIZE + strlen F1 + strlen (record_bytes rec))
    with (strlen (head ++ F1 ++ record_bytes rec)) in Hload by slen.
  apply ram_load_inv_app in Hload. destruct Hload as [Hdata Hn].
  assert (Hdata' : data = F2 ++ firstn (Z.to_nat n - length F2) slack).
  { rewrite Hdata, firstn_app, firstn_all2; [reflexivity|].
    unfold strlen in *. lia. }
  destruct (ram_store (env_cache st) (ENV_PARAM_PART_BYTE_SIZE + strlen F1) data)
    as [c'|] eqn:Hst; [|discriminate].
  assert (Hp4 : 4 <= ENV_PARAM_PART_BYTE_SIZE + strlen F1) by lia.
  destruct (ram_store_keeps_word0 _ _ _ _ Hp4 Hst) as [Hw0 Hl'].
  rewrite Hc in Hst.
  replace (head ++ F1 ++ record_bytes rec ++ F2 ++ slack)
    with ((head ++ F1) ++ record_bytes rec ++ F2 ++ slack) in Hst
    by (rewrite <- !app_assoc; reflexivity).
  replace (ENV_PARAM_PART_BYTE_SIZE + strlen F1) with (strlen (head ++ F1)) in Hst
    by slen.
  apply ram_store_inv_app in Hst. destruct Hst as [Hc' _].
  destruct (Z.leb_spec 4 (strlen c')); [|lia].
  apply Some_pair_inj in Hrun. destruct Hrun as [<- <-].
  split; [reflexivity|].
  assert (Hh4 : (4 <= length head)%nat) by (unfold strlen in Hh; lia).
  rewrite Hw0. fold (end_addr_of st).
  split.
  - exists (word_bytes (u32 (end_addr_of st - strlen (record_bytes rec)))
            ++ skipn 4 head),
           (firstn (Z.to_nat n - length F2) slack
            ++ skipn (length data) (record_bytes rec ++ F2 ++ slack)).
    split; [|split; [|split]].
    + cbn [env_cache with_cache]. rewrite Hc', Hdata' at 1.
      rewrite <- !app_assoc. rewrite (skipn_head head) by exact Hh4.
      rewrite flat_map_app. fold F1 F2. rewrite <- !app_assoc. reflexivity.
    + rewrite strlen_app, strlen_word_bytes. unfold strlen in *.
      rewrite length_skipn. lia.
    + unfold detail_size_of. rewrite end_addr_of_set.
      change (detail_addr_of (with_cache st _)) with (detail_addr_of st).
      rewrite (u32_small (u32 _)) by apply u32_range.
      rewrite u32_sub_sub. fold (detail_size_of st). rewrite Hd.
      rewrite flat_map_app. fold F1 F2.
      replace (strlen (F1 ++ record_bytes rec ++ F2) - strlen (record_bytes rec))
        with (strlen (F1 ++ F2)) by slen.
      apply u32_small. slen.
    + apply Forall_app. split; assumption.
  - eexists. split; [reflexivity|].
    rewrite strlen_app, strlen_word_bytes. unfold strlen in *.
    rewrite length_skipn. lia.
Qed.

End Store.

(** ** Setting and getting *)

Lemma starts_with_app k : forall rest, starts_with (k ++ rest) k = true.
Proof.
  induction k as [|c k IH]; intros rest; simpl.
  - destruct rest; reflexivity.
  - rewrite Ascii.eqb_refl. apply IH.
Qed.

Lemma strstr_unfold s k :
  strstr s k
  = if starts_with s k then Some 0%nat
    else match s with
         | [] => None
         | _ :: s' => option_map S (strstr s' k)
         end.
Proof. destruct s; reflexivity. Qed.

Lemma strstr_prefix k rest : strstr (k ++ rest) k = Some 0%nat.
Proof. rewrite strstr_unfold, starts_with_app. reflexivity. Qed.

Lemma env_matches_record_of key value :
  env_matches (record_of key value) key = true.
Proof.
  unfold env_matches, record_of. rewrite strstr_prefix.
  unfold char_at. simpl Nat.add. rewrite nth_middle. reflexivity.
Qed.

Lemma starts_with_nil s : starts_with s [] = true.
Proof. destruct s; reflexivity. Qed.

Lemma starts_with_cons c s a :
  starts_with (c :: s) [a] = Ascii.eqb a c.
Proof. simpl. rewrite starts_with_nil. apply andb_true_r. Qed.

Lemma strstr_equal_sign key : forall value,
  has_equal_sign key = false ->
  strstr (record_of key value) [EQUAL_SIGN] = Some (length key).
Proof.
  unfold has_equal_sign, record_of.
  induction key as [|c key IH]; intros value Hk.
  - simpl app. rewrite strstr_unfold, starts_with_cons. reflexivity.
  - rewrite strstr_unfold, starts_with_cons in Hk.
    change ((c :: key) ++ EQUAL_SIGN :: value)
      with (c :: (key ++ EQUAL_SIGN :: value)).
    rewrite strstr_unfold, starts_with_cons.
    destruct (Ascii.eqb EQUAL_SIGN c); [discriminate|].
    rewrite IH; [reflexivity|].
    destruct (strstr key [EQUAL_SIGN]); [discriminate|reflexivity].
Qed.

Lemma skipn_record_of key value :
  skipn (S (length key)) (record_of key value) = value.
Proof.
  unfold record_of. induction key as [|c key IH]; [reflexivity|exact IH].
Qed.

Lemma env_storage_length_bound key value :
  0 <= env_storage_length key value <= 65532.
Proof.
  unfold env_storage_length, u16. change (2 ^ 16) with 65536.
  set (n := (strlen key + strlen value + 2) mod 65536).
  assert (Hn : 0 <= n < 65536) by (apply Z.mod_pos_bound; lia).
  pose proof (Z.div_mod n 4 ltac:(lia)) as Hdm.
  pose proof (Z.mod_pos_bound n 4 ltac:(lia)) as Hm.
  destruct (Z.eqb_spec (n mod 4) 0) as [H0|H0]; simpl negb; cbv iota.
  - lia.
  - destruct (Z.eq_dec ((n / 4 + 1) * 4) 65536) as [E|E].
    + rewrite E. change (65536 mod 65536) with 0. lia.
    + rewrite Z.mod_small by lia. lia.
Qed.

(** When the copy loops of [write_env] stay inside [env_str], the length
    has not been cut to 16 bits. *)
Lemma format_env_str_fits key value env_str :
  format_env_str (env_storage_length key value) key value = Some env_str ->
  strlen key + strlen value + 2 <= 65532.
Proof.
  unfold format_env_str.
  destruct (Z.leb_spec (strlen (key ++ EQUAL_SIGN :: value))
              (env_storage_length key value)) as [Hle|]; [|discriminate].
  intros _. rewrite strlen_app, strlen_cons in Hle.
  pose proof (env_storage_length_bound key value) as Hb.
  pose proof (strlen_nonneg key). pose proof (strlen_nonneg value).
  destruct (Z_le_gt_dec (strlen key + strlen value + 2) 65532) as [|Hgt];
    [assumption|exfalso].
  assert (E : strlen key + strlen value + 2 = 65533) by lia.
  assert (E0 : env_storage_length key value = 0)
    by (unfold env_storage_length; rewrite E; reflexivity).
  lia.
Qed.

Section SetGet.

Context {B : Build}.

Lemma c_string_at_record st rs1 rec rs2 :
  holds_records st (rs1 ++ rec :: rs2) ->
  c_string_at (env_cache st)
    (ENV_PARAM_PART_BYTE_SIZE + strlen (flat_map record_bytes rs1))
  = Some rec.
Proof.
  intros (head & slack & Hc & Hh & Hd & Hnf).
  apply Forall_app in Hnf. destruct Hnf as [_ Hnf].
  inversion Hnf as [|? ? Hrec _]; subst.
  rewrite Hc, flat_map_app. simpl flat_map. rewrite record_bytes_eq.
  rewrite <- Hh, <- strlen_app.
  replace (head ++ (flat_map record_bytes rs1
             ++ (rec ++ NUL :: repeat NUL
                   (Z.to_nat (align4 (strlen rec + 1) - strlen rec - 1)))
             ++ flat_map record_bytes rs2) ++ slack)
    with ((head ++ flat_map record_bytes rs1) ++ rec
          ++ NUL :: (repeat NUL
                       (Z.to_nat (align4 (strlen rec + 1) - strlen rec - 1))
                     ++ flat_map record_bytes rs2 ++ slack))
    by (rewrite <- !app_assoc; reflexivity).
  apply c_string_at_app. exact Hrec.
Qed.

(** [flash_get_env] returns the value of the record [find_env] stops at. *)
Lemma flash_get_env_record st rs1 key value rs2 :
  holds_records st (rs1 ++ record_of key value :: rs2) ->
  cur_using_data_addr st <> 0 ->
  key <> [] -> has_equal_sign key = false ->
  find_in_records rs1 key ENV_PARAM_PART_BYTE_SIZE = None ->
  flash_get_env key st = Some (Some value, st).
Proof.
  intros Hrec Hcur Hkey Heq Hnone.
  unfold flash_get_env.
  mstep (find_env_records st _ key Hrec Hcur Hkey).
  rewrite find_in_records_app by exact Hnone.
  cbn [find_in_records]. rewrite env_matches_record_of.
  rewrite bind_gets, (c_string_at_record st _ _ _ Hrec), bind_defined.
  rewrite strstr_equal_sign by exact Heq.
  rewrite skipn_record_of. reflexivity.
Qed.

(** After [create_env] has stored the record, [flash_get_env] returns the
    value. *)
Lemma create_then_get st recs key value st' :
  holds_records st recs -> usable st ->
  key <> [] -> has_equal_sign key = false ->
  nul_free key -> nul_free value ->
  create_env key value st = Some (FLASH_NO_ERR, st') ->
  flash_get_env key st' = Some (Some value, st')
  /\ holds_records st' (recs ++ [record_of key value]).
Proof.
  intros Hrec Hus Hkey Heq Hnk Hnv Hrun.
  unfold create_env in Hrun. destruct key as [|c key]; [congruence|].
  rewrite Heq in Hrun.
  mstep_in (find_env_records st _ (c :: key) Hrec (proj1 Hus) Hkey) Hrun.
  destruct (find_in_records recs (c :: key) ENV_PARAM_PART_BYTE_SIZE)
    eqn:Hfind; [discriminate|].
  assert (Hsize : strlen (c :: key) + strlen value + 2 <= 65532).
  { destruct (write_env_run st _ _ _ _ Hus Hrun)
      as [(_ & Hr & _)|(_ & _ & env_str & c' & Hfmt & _)]; [discriminate|].
    eapply format_env_str_fits. exact Hfmt. }
  destruct (write_env_records st recs _ _ _ Hrec Hus Hsize Hnk Hnv Hrun)
    as (Hrec' & cc & -> & Hlen).
  split; [|exact Hrec'].
  apply (flash_get_env_record _ recs (c :: key) value []); try assumption.
  exact (proj1 Hus).
Qed.

End SetGet.

(** ** The record store: claims C1, C2, C5 and C6 *)

(** C1 (the code departs from the claim).  [find_env] is to stop only at the
    record whose key is the key given.  It stops at a record whose key only
    ends with it: in a detail part that holds [ab=1] alone, the key [b] is
    found at the record [ab=1], and [flash_get_env] returns [str "1"] for it. *)
Theorem find_env_key_suffix :
  find_env (B := plain_build) (str "b") (plain_state [str "ab=1"])
  = Some (Some 4, plain_state [str "ab=1"])
  /\ c_string_at (env_cache (plain_state [str "ab=1"])) 4 = Some (str "ab=1")
  /\ flash_get_env (B := plain_build) (str "b") (plain_state [str "ab=1"])
     = Some (Some (str "1"), plain_state [str "ab=1"]).
Proof. repeat split; reflexivity. Qed.

(** C2 (the code departs from the claim).  With the CRC word in the
    parameters part, deleting the 4-byte record [a=1] in front of
    [bcd=xyz] moves 4 of the 8 bytes that follow: the detail part is left as
    [bcd=bcd=], not as the record [bcd=xyz], and [flash_get_env] on [bcd]
    then reads past the end of the detail part. *)
Theorem flash_del_env_short_move :
  returned (flash_del_env (B := crc_build) (str "a")) (crc_state [str "a=1"; str "bcd=xyz"])
  = Some FLASH_NO_ERR
  /\ detail_of (B := crc_build)
       (state_after (flash_del_env (B := crc_build) (str "a"))
          (crc_state [str "a=1"; str "bcd=xyz"]))
     = Some (str "bcd=bcd=")
  /\ detail_with [str "bcd=xyz"] <> str "bcd=bcd="
  /\ returned (flash_get_env (B := crc_build) (str "bcd"))
       (state_after (flash_del_env (B := crc_build) (str "a"))
          (crc_state [str "a=1"; str "bcd=xyz"]))
     = Some (Some (str "bcd=xyz")).
Proof. repeat split; try reflexivity. discriminate. Qed.

(** C5 (the code departs from the claim).  The storage length is held in a
    [uint16_t]: for the key [k] and a value of 65533 characters it is cut
    from 65536 to 0, the capacity test passes although the record is larger
    than the whole store, and the copy loops run past the empty buffer. *)
Theorem write_env_length_cut :
  env_storage_length (str "k") long_value = 0
  /\ align4 (strlen (str "k") + strlen long_value + 2)
     + detail_size_of (B := plain_build) (plain_state [])
     >= env_total_size (plain_state [])
  /\ write_env (B := plain_build) (str "k") long_value (plain_state [])
     = None.
Proof. repeat split; vm_compute; congruence. Qed.





(** ** What the layout functions tell when they return *)

Ltac binv H :=
  let a := fresh "a" in
  let s := fresh "s" in
  let H1 := fresh "Ha" in
  let H2 := fresh "Hb" in
  apply bind_Some in H; destruct H as (a & s & H1 & H2); rename H2 into H.

Section Inversions.

Context {B : Build}.

Lemma FLASH_ASSERT_inv b st u st' :
  FLASH_ASSERT b st = Some (u, st') -> b = true /\ st' = st.
Proof.
  destruct b; [|discriminate]. intros H. injection H as _ <-. auto.
Qed.

Lemma get_cur_using_data_addr_inv st a st' :
  get_cur_using_data_addr st = Some (a, st') ->
  st' = st /\ a = cur_using_data_addr st /\ cur_using_data_addr st <> 0.
Proof.
  unfold get_cur_using_data_addr. rewrite bind_gets. intros H. binv H.
  apply FLASH_ASSERT_inv in Ha. destruct Ha as [Hb ->].
  pinj H. repeat split.
  destruct (Z.eqb_spec (cur_using_data_addr st) 0); [discriminate|assumption].
Qed.

Lemma get_env_start_addr_inv st a st' :
  get_env_start_addr st = Some (a, st') ->
  st' = st /\ a = env_start_addr st /\ env_start_addr st <> 0.
Proof.
  unfold get_env_start_addr. rewrite bind_gets. intros H. binv H.
  apply FLASH_ASSERT_inv in Ha. destruct Ha as [Hb ->].
  pinj H. repeat split.
  destruct (Z.eqb_spec (env_start_addr st) 0); [discriminate|assumption].
Qed.

Lemma flash_get_env_total_size_inv st a st' :
  flash_get_env_total_size st = Some (a, st') ->
  st' = st /\ a = env_total_size st /\ env_total_size st <> 0.
Proof.
  unfold flash_get_env_total_size. rewrite bind_gets. intros H. binv H.
  apply FLASH_ASSERT_inv in Ha. destruct Ha as [Hb ->].
  pinj H. repeat split.
  destruct (Z.eqb_spec (env_total_size st) 0); [discriminate|assumption].
Qed.

Lemma ram_load_word0_inv ram bs :
  ram_load ram 0 4 = Some bs -> bs = firstn 4 ram /\ 4 <= strlen ram.
Proof.
  unfold ram_load.
  destruct (Z.leb_spec (0 + 4) (strlen ram)) as [Hl|Hl]; [|discriminate].
  intros H. injection H as <-. split; [reflexivity|lia].
Qed.

Lemma get_env_detail_end_addr_inv st a st' :
  get_env_detail_end_addr st = Some (a, st') ->
  st' = st /\ a = end_addr_of st /\ 4 <= strlen (env_cache st).
Proof.
  unfold get_env_detail_end_addr, cache_word. rewrite bind_gets.
  change (4 * ENV_PARAM_PART_INDEX_END_ADDR) with 0.
  destruct (ram_load (env_cache st) 0 4) as [bs|] eqn:Hl; [|discriminate].
  rewrite bind_defined. intros H. pinj H.
  apply ram_load_word0_inv in Hl. destruct Hl as [-> Hl]. auto.
Qed.

Lemma get_env_detail_addr_inv st a st' :
  get_env_detail_addr st = Some (a, st') ->
  st' = st /\ a = detail_addr_of st /\ cur_using_data_addr st <> 0.
Proof.
  unfold get_env_detail_addr. rewrite bind_gets. intros H. binv H.
  apply FLASH_ASSERT_inv in Ha. destruct Ha as [Hb ->].
  pinj H. repeat split.
  destruct (Z.eqb_spec (cur_using_data_addr st) 0); [discriminate|assumption].
Qed.

Lemma get_env_detail_size_inv st a st' :
  get_env_detail_size st = Some (a, st') ->
  st' = st /\ a = detail_size_of st
  /\ cur_using_data_addr st <> 0 /\ 4 <= strlen (env_cache st).
Proof.
  unfold get_env_detail_size. intros H. binv H.
  apply get_env_detail_end_addr_inv in Ha. destruct Ha as (-> & -> & Hl).
  binv H. apply get_env_detail_addr_inv in Ha. destruct Ha as (-> & -> & Hc).
  pinj H. auto.
Qed.

Lemma set_env_detail_end_addr_inv st e u st' :
  set_env_detail_end_addr e st = Some (u, st') ->
  4 <= strlen (env_cache st)
  /\ st' = with_cache st (word_bytes e ++ skipn 4 (env_cache st)).
Proof.
  unfold set_env_detail_end_addr, set_cache_word. rewrite bind_gets.
  change (4 * ENV_PARAM_PART_INDEX_END_ADDR) with 0.
  unfold ram_store, ram_splice. rewrite strlen_word_bytes.
  destruct (Z.leb_spec (0 + 4) (strlen (env_cache st))) as [Hl|Hl];
    [|discriminate].
  simpl andb. cbv iota. rewrite bind_defined. intros H.
  unfold modify in H. apply Some_pair_inj in H. destruct H as [_ <-].
  split; [lia|reflexivity].
Qed.

Lemma data_section_fits_inv d st b st' :
  data_section_fits d st = Some (b, st') ->
  st' = st /\ b = fits_of d st
  /\ cur_using_data_addr st <> 0 /\ env_start_addr st <> 0
  /\ env_total_size st <> 0.
Proof.
  unfold data_section_fits. intros H. binv H.
  apply get_cur_using_data_addr_inv in Ha. destruct Ha as (-> & -> & Hc).
  binv H. apply get_env_start_addr_inv in Ha. destruct Ha as (-> & -> & Hs).
  binv H. apply flash_get_env_total_size_inv in Ha.
  destruct Ha as (-> & -> & Ht).
  pinj H. auto.
Qed.

Lemma data_section_fits_eq d st :
  cur_using_data_addr st <> 0 -> env_start_addr st <> 0 ->
  env_total_size st <> 0 ->
  data_section_fits d st = Some (fits_of d st, st).
Proof.
  intros Hc Hs Ht. unfold data_section_fits.
  mstep (get_cur_using_data_addr_eq st Hc).
  mstep (get_env_start_addr_eq st Hs).
  mstep (flash_get_env_total_size_eq st Ht). reflexivity.
Qed.

End Inversions.

(** ** One turn of the loop of [flash_save_env] *)

Section Turn.

Context {B : Build}.

Lemma param_byte_size_eq : 4 * ENV_PARAM_PART_WORD_SIZE = ENV_PARAM_PART_BYTE_SIZE.
Proof. unfold ENV_PARAM_PART_BYTE_SIZE. lia. Qed.

Lemma calc_env_crc_inv st x st' :
  calc_env_crc st = Some (x, st') ->
  st' = st /\ x = crc_of st
  /\ ENV_PARAM_PART_BYTE_SIZE + detail_size_of st <= strlen (env_cache st).
Proof.
  unfold calc_env_crc. rewrite bind_gets.
  change (4 * ENV_PARAM_PART_INDEX_END_ADDR) with 0.
  destruct (ram_load (env_cache st) 0 4) as [w|] eqn:Hw; [|discriminate].
  rewrite bind_defined. apply ram_load_word0_inv in Hw. destruct Hw as [-> Hl].
  intros H. binv H.
  apply get_env_detail_size_inv in Ha. destruct Ha as (-> & -> & Hc & _).
  rewrite param_byte_size_eq in H.
  unfold ram_load in H.
  destruct (Z.leb_spec 0 ENV_PARAM_PART_BYTE_SIZE) as [_|Hn];
    [|pose proof param_size_cases; lia].
  destruct (Z.leb_spec 0 (detail_size_of st)) as [_|Hn];
    [|pose proof (u32_range (end_addr_of st - detail_addr_of st));
      unfold detail_size_of in Hn; lia].
  destruct (Z.leb_spec (ENV_PARAM_PART_BYTE_SIZE + detail_size_of st)
              (strlen (env_cache st))) as [Hfit|]; [|discriminate].
  simpl andb in H. cbv iota in H. rewrite bind_defined in H. pinj H.
  auto.
Qed.

Lemma calc_env_crc_eq st :
  cur_using_data_addr st <> 0 ->
  ENV_PARAM_PART_BYTE_SIZE + detail_size_of st <= strlen (env_cache st) ->
  calc_env_crc st = Some (crc_of st, st).
Proof.
  intros Hc Hfit.
  assert (Hd : 0 <= detail_size_of st)
    by (unfold detail_size_of; apply u32_range).
  pose proof param_size_cases as Hp.
  assert (Hl : 4 <= strlen (env_cache st)) by lia.
  unfold calc_env_crc. rewrite bind_gets.
  change (4 * ENV_PARAM_PART_INDEX_END_ADDR) with 0.
  rewrite ram_load_word0, bind_defined by exact Hl.
  mstep (get_env_detail_size_eq st Hc Hl).
  rewrite param_byte_size_eq. unfold ram_load.
  destruct (Z.leb_spec 0 ENV_PARAM_PART_BYTE_SIZE); [|lia].
  destruct (Z.leb_spec 0 (detail_size_of st)); [|lia].
  destruct (Z.leb_spec (ENV_PARAM_PART_BYTE_SIZE + detail_size_of st)
              (strlen (env_cache st))); [|lia].
  reflexivity.
Qed.

Lemma cache_crc_inv st u st' :
  cache_crc st = Some (u, st') -> st' = with_crc st.
Proof.
  unfold cache_crc, with_crc. destruct crc_check.
  - intros H. binv H. apply calc_env_crc_inv in Ha.
    destruct Ha as (-> & -> & _).
    unfold set_cache_word in H. rewrite bind_gets in H.
    change (4 * ENV_PARAM_PART_INDEX_DATA_CRC) with 4 in H.
    unfold ram_store, ram_splice in H. rewrite strlen_word_bytes in H.
    destruct (Z.leb_spec (4 + 4) (strlen (env_cache st))); [|discriminate].
    simpl andb in H. cbv iota in H. rewrite bind_defined in H.
    unfold modify in H. apply Some_pair_inj in H. destruct H as [_ <-].
    reflexivity.
  - intros H. pinj H. reflexivity.
Qed.

Lemma cache_crc_eq st :
  cur_using_data_addr st <> 0 ->
  ENV_PARAM_PART_BYTE_SIZE + detail_size_of st <= strlen (env_cache st) ->
  cache_crc st = Some (tt, with_crc st).
Proof.
  intros Hc Hfit. unfold cache_crc, with_crc.
  assert (Hd : 0 <= detail_size_of st)
    by (unfold detail_size_of; apply u32_range).
  destruct crc_check eqn:Hcrc; [|reflexivity].
  assert (Hp : ENV_PARAM_PART_BYTE_SIZE = 8)
    by (unfold ENV_PARAM_PART_BYTE_SIZE, ENV_PARAM_PART_WORD_SIZE;
        rewrite Hcrc; reflexivity).
  mstep (calc_env_crc_eq st Hc Hfit).
  unfold set_cache_word. rewrite bind_gets.
  change (4 * ENV_PARAM_PART_INDEX_DATA_CRC) with 4.
  unfold ram_store, ram_splice. rewrite strlen_word_bytes.
  destruct (Z.leb_spec (4 + 4) (strlen (env_cache st))); [|lia].
  reflexivity.
Qed.

Lemma move_to_next_position_inv d st u st' :
  move_to_next_position d st = Some (u, st') ->
  st' = relocated d st /\ flash_erase_min_size st <> 0.
Proof.
  unfold move_to_next_position. rewrite bind_gets.
  destruct (Z.eqb_spec (flash_erase_min_size st) 0) as [|Hne]; [discriminate|].
  intros H. binv H.
  apply get_cur_using_data_addr_inv in Ha. destruct Ha as (-> & -> & Hc).
  unfold set_cur_using_data_addr in H. rewrite bind_modify in H.
  binv H. apply get_env_detail_end_addr_inv in Ha.
  destruct Ha as (-> & -> & Hl).
  apply set_env_detail_end_addr_inv in H. destruct H as [_ ->].
  split; [reflexivity|assumption].
Qed.

Lemma move_to_next_position_eq d st :
  flash_erase_min_size st <> 0 -> cur_using_data_addr st <> 0 ->
  4 <= strlen (env_cache st) ->
  move_to_next_position d st = Some (tt, relocated d st).
Proof.
  intros He Hc Hl. unfold move_to_next_position. rewrite bind_gets.
  destruct (Z.eqb_spec (flash_erase_min_size st) 0); [contradiction|].
  mstep (get_cur_using_data_addr_eq st Hc).
  unfold set_cur_using_data_addr. rewrite bind_modify.
  set (st1 := with_cur st _).
  assert (Hl1 : 4 <= strlen (env_cache st1)) by exact Hl.
  mstep (get_env_detail_end_addr_eq st1 Hl1).
  rewrite (set_env_detail_end_addr_eq st1 _ Hl1). reflexivity.
Qed.

Lemma with_crc_fields st :
  cur_using_data_addr (with_crc st) = cur_using_data_addr st
  /\ flash (with_crc st) = flash st
  /\ env_start_addr (with_crc st) = env_start_addr st
  /\ env_total_size (with_crc st) = env_total_size st
  /\ flash_erase_min_size (with_crc st) = flash_erase_min_size st
  /\ default_env_set (with_crc st) = default_env_set st.
Proof. unfold with_crc. destruct crc_check; repeat split. Qed.

Lemma with_crc_cache st :
  ENV_PARAM_PART_BYTE_SIZE <= strlen (env_cache st) ->
  firstn 4 (env_cache (with_crc st)) = firstn 4 (env_cache st)
  /\ strlen (env_cache (with_crc st)) = strlen (env_cache st).
Proof.
  unfold with_crc, ENV_PARAM_PART_BYTE_SIZE, ENV_PARAM_PART_WORD_SIZE.
  destruct crc_check; [|auto]. intros Hl. cbn [env_cache with_cache].
  unfold strlen in *. split.
  - rewrite firstn_app, firstn_firstn, length_firstn.
    replace (4 - Nat.min 4 (length (env_cache st)))%nat with 0%nat by lia.
    simpl. apply app_nil_r.
  - rewrite !length_app, length_firstn, length_skipn. simpl length. lia.
Qed.

(** A turn that returns has yielded [turn_result]. *)
Lemma save_env_turn_inv d st x st' :
  save_env_turn d st = Some (x, st') -> (x, st') = turn_result d st.
Proof.
  unfold save_env_turn. intros H. binv H.
  apply cache_crc_inv in Ha. subst s.
  destruct (with_crc_fields st) as (Hcur & Hfl & _).
  binv H. apply get_cur_using_data_addr_inv in Ha.
  destruct Ha as (-> & -> & Hc). rewrite Hcur in *.
  unfold turn_result.
  unfold flash_erase at 1 in H. unfold bind at 1 in H. rewrite Hfl in H.
  destruct (dev_erase (flash st) (cur_using_data_addr st)
              (u32 (ENV_PARAM_PART_BYTE_SIZE + d))) as [re de] eqn:He.
  cbn [fst snd].
  assert (Hre : re = FLASH_ERASE_ERR \/ re = FLASH_NO_ERR).
  { unfold dev_erase in He.
    destruct (dev_faults (flash st) _ _); injection He as <- _; auto. }
  destruct Hre as [-> | ->].
  - binv H. apply move_to_next_position_inv in Ha. destruct Ha as [-> _].
    pinj H. reflexivity.
  - binv H. apply get_cur_using_data_addr_inv in Ha.
    destruct Ha as (-> & -> & _).
    rewrite bind_gets in H.
    cbn [cur_using_data_addr env_cache with_flash] in H. rewrite Hcur in H.
    destruct (ram_load (env_cache (with_crc st)) 0
                (u32 (ENV_PARAM_PART_BYTE_SIZE + d))) as [data|] eqn:Hld;
      [|discriminate].
    rewrite bind_defined in H.
    apply (ram_load_inv_app []) in Hld. destruct Hld as [-> _].
    unfold flash_write at 1 in H. unfold bind at 1 in H.
    cbn [flash with_flash] in H.
    destruct (dev_write de (cur_using_data_addr st) _) as [rw dw] eqn:Hw.
    cbn [fst snd].
    assert (Hrw : rw = FLASH_WRITE_ERR \/ rw = FLASH_NO_ERR).
    { unfold dev_write in Hw.
      destruct (dev_faults de _ _); injection Hw as <- _; auto. }
    destruct Hrw as [-> | ->].
    + binv H. apply move_to_next_position_inv in Ha. destruct Ha as [-> _].
      pinj H. reflexivity.
    + pinj H. reflexivity.
Qed.

(** A turn in which nothing is undefined yields [turn_result]. *)
Lemma save_env_turn_eq d st :
  cur_using_data_addr st <> 0 -> flash_erase_min_size st <> 0 ->
  ENV_PARAM_PART_BYTE_SIZE + detail_size_of st <= strlen (env_cache st) ->
  0 <= d -> u32 (ENV_PARAM_PART_BYTE_SIZE + d) <= strlen (env_cache st) ->
  save_env_turn d st = Some (turn_result d st).
Proof.
  intros Hc He Hfit Hd Hsz.
  assert (Hds : 0 <= detail_size_of st)
    by (unfold detail_size_of; apply u32_range).
  pose proof param_size_cases as Hp.
  destruct (with_crc_fields st) as (Hcur & Hfl & _ & _ & Hmin & _).
  assert (Hpl : ENV_PARAM_PART_BYTE_SIZE <= strlen (env_cache st)) by lia.
  destruct (with_crc_cache st Hpl) as [Hw0 Hlen].
  unfold save_env_turn.
  mstep (cache_crc_eq st Hc Hfit).
  assert (Hc1 : cur_using_data_addr (with_crc st) <> 0) by (rewrite Hcur; exact Hc).
  mstep (get_cur_using_data_addr_eq _ Hc1). rewrite Hcur.
  unfold turn_result.
  unfold flash_erase at 1. unfold bind at 1. rewrite Hfl.
  destruct (dev_erase (flash st) (cur_using_data_addr st)
              (u32 (ENV_PARAM_PART_BYTE_SIZE + d))) as [re de] eqn:Hde.
  cbn [fst snd].
  assert (Hre : re = FLASH_ERASE_ERR \/ re = FLASH_NO_ERR).
  { unfold dev_erase in Hde.
    destruct (dev_faults (flash st) _ _); injection Hde as <- _; auto. }
  destruct Hre as [-> | ->].
  - assert (Hm : move_to_next_position d (with_flash (with_crc st) de)
                 = Some (tt, relocated d (with_flash (with_crc st) de))).
    { apply move_to_next_position_eq; cbn [flash_erase_min_size
        cur_using_data_addr env_cache with_flash]; lia. }
    mstep Hm. reflexivity.
  - assert (Hc2 : cur_using_data_addr (with_flash (with_crc st) de) <> 0)
      by (cbn; lia).
    mstep (get_cur_using_data_addr_eq _ Hc2).
    rewrite bind_gets. cbn [cur_using_data_addr env_cache with_flash].
    rewrite Hcur.
    unfold ram_load at 1.
    pose proof (u32_range (ENV_PARAM_PART_BYTE_SIZE + d)) as Hr.
    destruct (Z.leb_spec 0 (u32 (ENV_PARAM_PART_BYTE_SIZE + d))); [|lia].
    destruct (Z.leb_spec (0 + u32 (ENV_PARAM_PART_BYTE_SIZE + d))
                (strlen (env_cache (with_crc st)))); [|lia].
    simpl andb. cbv iota. rewrite bind_defined.
    change (Z.to_nat 0) with 0%nat. cbn [skipn].
    unfold flash_write at 1. unfold bind at 1. cbn [flash with_flash].
    destruct (dev_write de (cur_using_data_addr st) _) as [rw dw] eqn:Hw.
    cbn [fst snd].
    assert (Hrw : rw = FLASH_WRITE_ERR \/ rw = FLASH_NO_ERR).
    { unfold dev_write in Hw.
      destruct (dev_faults de _ _); injection Hw as <- _; auto. }
    destruct Hrw as [-> | ->].
    + assert (Hm : move_to_next_position d (with_flash (with_crc st) dw)
                   = Some (tt, relocated d (with_flash (with_crc st) dw))).
      { apply move_to_next_position_eq; cbn [flash_erase_min_size
          cur_using_data_addr env_cache with_flash]; lia. }
      mstep Hm. reflexivity.
    + reflexivity.
Qed.

End Turn.

(** ** The loop of [flash_save_env] *)

Lemma u32_idem x : u32 (u32 x) = u32 x.
Proof. unfold u32. apply Z.mod_mod. lia. Qed.

Lemma detail_size_moved e c p m :
  u32 (u32 (e + m) - u32 (u32 (c + m) + p)) = u32 (e - u32 (c + p)).
Proof.
  unfold u32.
  rewrite Zminus_mod_idemp_l, !Zminus_mod_idemp_r.
  replace (e + m - ((c + m) mod 2 ^ 32 + p))
    with (e + m - p - (c + m) mod 2 ^ 32) by lia.
  rewrite Zminus_mod_idemp_r. f_equal. lia.
Qed.

Lemma divide_u32 e x : (e | 2 ^ 32) -> (e | x) -> (e | u32 x).
Proof.
  intros HN Hx. unfold u32. rewrite Z.mod_eq by lia.
  apply Z.divide_sub_r; [exact Hx|].
  apply Z.divide_mul_l. exact HN.
Qed.

Section Loop.

Context {B : Build}.

Lemma end_addr_of_relocated d st :
  end_addr_of (relocated d st)
  = u32 (end_addr_of st + move_offset d (flash_erase_min_size st)).
Proof. unfold relocated. rewrite end_addr_of_set. apply u32_idem. Qed.

Lemma detail_size_of_relocated d st :
  detail_size_of (relocated d st) = detail_size_of st.
Proof.
  unfold detail_size_of at 1. rewrite end_addr_of_relocated.
  unfold detail_addr_of, relocated. cbn [cur_using_data_addr with_cache with_cur].
  apply detail_size_moved.
Qed.

Lemma strlen_relocated d st :
  4 <= strlen (env_cache st) ->
  strlen (env_cache (relocated d st)) = strlen (env_cache st).
Proof.
  intros H. unfold relocated. cbn [env_cache with_cache].
  apply strlen_set_end. exact H.
Qed.

(** What a turn does: it breaks the loop where it is after a successful
    write, and goes on from the next position after a fault. *)
Lemma turn_result_facts d st ctl r st' :
  turn_result d st = ((ctl, r), st') ->
  ENV_PARAM_PART_BYTE_SIZE <= strlen (env_cache st) ->
  (env_start_addr st' = env_start_addr st
   /\ env_total_size st' = env_total_size st
   /\ flash_erase_min_size st' = flash_erase_min_size st
   /\ default_env_set st' = default_env_set st
   /\ strlen (env_cache st') = strlen (env_cache st)
   /\ dev_faults (flash st') = dev_faults (flash st)
   /\ detail_size_of st' = detail_size_of st)
  /\ (exists new, turn_log d st st' new)
  /\ ((ctl = BREAK /\ r = FLASH_NO_ERR
       /\ cur_using_data_addr st' = cur_using_data_addr st
       /\ end_addr_of st' = end_addr_of st)
      \/ (ctl = CONTINUE /\ (r = FLASH_ERASE_ERR \/ r = FLASH_WRITE_ERR)
          /\ cur_using_data_addr st'
             = u32 (cur_using_data_addr st
                    + move_offset d (flash_erase_min_size st))
          /\ end_addr_of st'
             = u32 (end_addr_of st + move_offset d (flash_erase_min_size st)))).
Proof.
  intros Ht Hl. pose proof param_size_cases as Hp.
  destruct (with_crc_fields st) as (Hcur & Hfl & Hst & Htot & Hmin & Hdef).
  destruct (with_crc_cache st Hl) as [Hw0 Hlen].
  assert (Hds : detail_size_of (with_crc st) = detail_size_of st).
  { unfold detail_size_of, end_addr_of, detail_addr_of.
    rewrite Hw0, Hcur. reflexivity. }
  assert (Hend : end_addr_of (with_crc st) = end_addr_of st)
    by (unfold end_addr_of; rewrite Hw0; reflexivity).
  unfold turn_result in Ht. unfold turn_log.
  unfold dev_erase in Ht.
  destruct (dev_faults (flash st) (length (dev_log (flash st)))
              (OpErase (cur_using_data_addr st)
                 (u32 (ENV_PARAM_PART_BYTE_SIZE + d)))) eqn:Hfe;
    cbn [fst snd] in Ht.
  - apply Some_pair_inj' in Ht. destruct Ht as [Hx <-].
    injection Hx as <- <-.
    rewrite detail_size_of_relocated, end_addr_of_relocated.
    rewrite strlen_relocated by (cbn [env_cache with_flash]; lia).
    cbn [env_start_addr env_total_size flash_erase_min_size default_env_set
           env_cache flash relocated with_cache with_cur with_flash
           cur_using_data_addr dev_faults dev_log].
    unfold move_offset.
    rewrite Hst, Htot, Hmin, Hdef, Hlen, Hcur.
    repeat split; auto.
    + eexists. split; [|left; reflexivity]. reflexivity.
    + right. repeat split; auto.
      unfold end_addr_of. cbn [env_cache with_flash]. rewrite Hw0. reflexivity.
  - unfold dev_write in Ht. cbn [dev_faults dev_log] in Ht.
    match type of Ht with
    | context [if ?c then _ else _] => destruct c eqn:Hfw
    end; cbn [fst snd] in Ht.
    + apply Some_pair_inj' in Ht. destruct Ht as [Hx <-].
      injection Hx as <- <-.
      rewrite detail_size_of_relocated, end_addr_of_relocated.
      rewrite strlen_relocated by (cbn [env_cache with_flash]; lia).
      cbn [env_start_addr env_total_size flash_erase_min_size default_env_set
             env_cache flash relocated with_cache with_cur with_flash
             cur_using_data_addr dev_faults dev_log].
      unfold move_offset.
      rewrite Hst, Htot, Hmin, Hdef, Hlen, Hcur.
      repeat split; auto.
      * eexists. split; [|right; eexists; eexists; reflexivity]. reflexivity.
      * right. repeat split; auto.
        unfold end_addr_of. cbn [env_cache with_flash]. rewrite Hw0. reflexivity.
    + apply Some_pair_inj' in Ht. destruct Ht as [Hx <-].
      injection Hx as <- <-.
      cbn [env_start_addr env_total_size flash_erase_min_size default_env_set
             env_cache flash with_cache with_cur with_flash
             cur_using_data_addr dev_faults dev_log].
      rewrite Hst, Htot, Hmin, Hdef, Hlen, Hcur.
      repeat split; auto.
      eexists. split; [|right; eexists; eexists; reflexivity]. reflexivity.
Qed.

Lemma erases_app l1 l2 : erases (l1 ++ l2) = erases l1 ++ erases l2.
Proof. unfold erases. apply flat_map_app. Qed.

Lemma turn_log_erases d st st' new :
  turn_log d st st' new ->
  erases new = [(cur_using_data_addr st, u32 (ENV_PARAM_PART_BYTE_SIZE + d))].
Proof.
  intros [_ [-> | (data & r & ->)]]; reflexivity.
Qed.

Lemma divide_move_offset d e : (e | 2 ^ 32) -> (e | move_offset d e).
Proof.
  intros H. unfold move_offset. apply divide_u32; [exact H|].
  apply Z.divide_factor_r.
Qed.

(** What holds when the loop is left. *)
Lemma save_env_loop_inv fuel : forall d r0 st r st',
  save_env_loop fuel d r0 st = Some (r, st') ->
  ENV_PARAM_PART_BYTE_SIZE <= strlen (env_cache st) ->
  (env_start_addr st' = env_start_addr st
   /\ env_total_size st' = env_total_size st
   /\ flash_erase_min_size st' = flash_erase_min_size st
   /\ default_env_set st' = default_env_set st
   /\ strlen (env_cache st') = strlen (env_cache st)
   /\ dev_faults (flash st') = dev_faults (flash st)
   /\ detail_size_of st' = detail_size_of st)
  /\ (cur_using_data_addr st' = cur_using_data_addr st
      \/ 0 <= cur_using_data_addr st' < 2 ^ 32)
  /\ (exists new,
        dev_log (flash st') = new ++ dev_log (flash st)
        /\ forall a n, In (a, n) (erases new) ->
             n = u32 (ENV_PARAM_PART_BYTE_SIZE + d)
             /\ ((flash_erase_min_size st | 2 ^ 32) ->
                 (flash_erase_min_size st | cur_using_data_addr st) ->
                 (flash_erase_min_size st | a)))
  /\ ((flash_erase_min_size st | 2 ^ 32) ->
      (flash_erase_min_size st | cur_using_data_addr st) ->
      (flash_erase_min_size st | cur_using_data_addr st')).
Proof.
  induction fuel as [|fuel IH]; intros d r0 st r st' H Hl.
  - simpl in H. binv H. apply data_section_fits_inv in Ha.
    destruct Ha as (-> & -> & _).
    destruct (fits_of d st); [discriminate|]. pinj H.
    repeat split; auto. exists []. split; [reflexivity|]. intros a n [].
  - simpl in H. binv H. apply data_section_fits_inv in Ha.
    destruct Ha as (-> & -> & _).
    destruct (fits_of d st).
    2:{ pinj H. repeat split; auto. exists []. split; [reflexivity|].
        intros a n []. }
    binv H. destruct a as [ctl r1].
    apply save_env_turn_inv in Ha. symmetry in Ha.
    destruct (turn_result_facts d st ctl r1 s Ha Hl)
      as ((Hst & Htot & Hmin & Hdef & Hlen & Hf & Hds) & (new & Hnew) & Hcase).
    pose proof (turn_log_erases _ _ _ _ Hnew) as Her.
    destruct Hnew as [Hlog _].
    destruct ctl.
    + (* the loop goes on *)
      assert (Hl1 : ENV_PARAM_PART_BYTE_SIZE <= strlen (env_cache s)) by lia.
      destruct (IH d r1 s r st' H Hl1)
        as ((Hst' & Htot' & Hmin' & Hdef' & Hlen' & Hf' & Hds')
            & Hcur' & (new' & Hlog' & Hnew') & Hdiv').
      destruct Hcase as [(Hc & _)|(_ & _ & Hcur & _)]; [discriminate|].
      assert (Hdiv1 : (flash_erase_min_size st | 2 ^ 32) ->
                      (flash_erase_min_size st | cur_using_data_addr st) ->
                      (flash_erase_min_size st | cur_using_data_addr s)).
      { intros H32 Hc. rewrite Hcur. apply divide_u32; [exact H32|].
        apply Z.divide_add_r; [exact Hc|apply divide_move_offset; exact H32]. }
      split; [repeat split; congruence|].
      split.
      { right. destruct Hcur' as [->|Hr]; [|exact Hr].
        rewrite Hcur. apply u32_range. }
      split.
      { exists (new' ++ new). split.
        - rewrite Hlog', Hlog, app_assoc. reflexivity.
        - intros a n Hin. rewrite erases_app in Hin.
          apply in_app_or in Hin. destruct Hin as [Hin|Hin].
          + destruct (Hnew' a n Hin) as [Hn Hd]. split; [exact Hn|].
            intros H32 Hc. rewrite Hmin in Hd. apply Hd; auto.
          + rewrite Her in Hin. destruct Hin as [Hin|[]].
            injection Hin as <- <-. split; [reflexivity|auto]. }
      intros H32 Hc. rewrite Hmin in Hdiv'. apply Hdiv'; auto.
    + (* the loop is broken *)
      pinj H.
      destruct Hcase as [(_ & _ & Hcur & _)|(Hc & _)]; [|discriminate].
      split; [repeat split; congruence|].
      split; [left; exact Hcur|].
      split.
      { exists new. split; [exact Hlog|].
        intros a n Hin. rewrite Her in Hin. destruct Hin as [Hin|[]].
        injection Hin as <- <-. split; [reflexivity|auto]. }
      intros _ Hc. rewrite Hcur. exact Hc.
Qed.

End Loop.

(** ** [save_cur_using_data_addr] and [flash_save_env] *)

Lemma mem_load_store_word m addr w :
  mem_load (mem_store m addr (word_bytes w)) addr 4 = word_bytes w.
Proof.
  unfold mem_load, mem_store. rewrite strlen_word_bytes.
  change (Z.to_nat 4) with 4%nat. cbn [seq map].
  repeat match goal with
  | |- context [(addr <=? addr + Z.of_nat ?i) && (addr + Z.of_nat ?i <? addr + 4)] =>
      replace ((addr <=? addr + Z.of_nat i) && (addr + Z.of_nat i <? addr + 4))
        with true
        by (symmetry; apply andb_true_iff; split;
            [apply Z.leb_le|apply Z.ltb_lt]; lia);
      replace (addr + Z.of_nat i - addr) with (Z.of_nat i) by lia;
      rewrite Nat2Z.id
  end.
  reflexivity.
Qed.

Lemma mem_load_erase_word m addr :
  mem_load (mem_erase m addr 4) addr 4 = word_bytes 4294967295.
Proof.
  unfold mem_load, mem_erase.
  change (Z.to_nat 4) with 4%nat. cbn [seq map].
  repeat match goal with
  | |- context [(addr <=? addr + Z.of_nat ?i) && (addr + Z.of_nat ?i <? addr + 4)] =>
      replace ((addr <=? addr + Z.of_nat i) && (addr + Z.of_nat i <? addr + 4))
        with true
        by (symmetry; apply andb_true_iff; split;
            [apply Z.leb_le|apply Z.ltb_lt]; lia)
  end.
  reflexivity.
Qed.

Section SaveEnv.

Context {B : Build}.

(** What [save_cur_using_data_addr] does when it returns: it leaves the
    globals alone, issues one erase, of 4 bytes at the start address, and
    when its last operation succeeds the System Section holds the word. *)
Lemma save_cur_using_data_addr_inv a st x st' :
  save_cur_using_data_addr a st = Some (x, st') ->
  exists dev' new,
    st' = with_flash st dev'
    /\ dev_faults dev' = dev_faults (flash st)
    /\ dev_log dev' = new ++ dev_log (flash st)
    /\ erases new = [(env_start_addr st, 4)]
    /\ (last_op_succeeded st' -> x = FLASH_NO_ERR /\ system_word st' = u32 a)
    /\ (match new with
        | [(OpErase _ _, r)] => r = FLASH_ERASE_ERR /\ x = r
        | [(OpWrite s data, r); (OpErase _ _, FLASH_NO_ERR)] =>
            s = env_start_addr st /\ data = word_bytes a /\ x = r
        | _ => False
        end).
Proof.
  unfold save_cur_using_data_addr. intros H. binv H.
  apply get_env_start_addr_inv in Ha. destruct Ha as (-> & -> & Hs).
  unfold flash_erase at 1 in H. unfold bind at 1 in H.
  unfold dev_erase in H.
  destruct (dev_faults (flash st) (length (dev_log (flash st)))
              (OpErase (env_start_addr st) 4)) eqn:Hfe.
  - pinj H. eexists. exists [(OpErase (env_start_addr st) 4, FLASH_ERASE_ERR)].
    repeat split; try reflexivity.
    + unfold last_op_succeeded in H. cbn in H. contradiction.
    + unfold last_op_succeeded in H. cbn in H. contradiction.
  - binv H. apply get_env_start_addr_inv in Ha. destruct Ha as (-> & -> & _).
    unfold flash_write, dev_write in H.
    cbn [flash with_flash dev_faults dev_log env_start_addr] in H.
    match type of H with
    | context [if ?c then _ else _] => destruct c eqn:Hfw
    end; pinj H.
    + eexists.
      exists [(OpWrite (env_start_addr st) (word_bytes a), FLASH_WRITE_ERR);
              (OpErase (env_start_addr st) 4, FLASH_NO_ERR)].
      repeat split; try reflexivity.
      * unfold last_op_succeeded in H. cbn in H. contradiction.
      * unfold last_op_succeeded in H. cbn in H. contradiction.
    + eexists.
      exists [(OpWrite (env_start_addr st) (word_bytes a), FLASH_NO_ERR);
              (OpErase (env_start_addr st) 4, FLASH_NO_ERR)].
      repeat split; try reflexivity.
      unfold system_word. cbn [flash with_flash flash_mem env_start_addr].
      rewrite mem_load_store_word. apply bytes_word_word_bytes.
Qed.

(** How [flash_save_env] ends. *)
Lemma flash_save_env_inv fuel st r st' :
  flash_save_env fuel st = Some (r, st') ->
  exists r1 s1,
    save_env_loop fuel (detail_size_of st) FLASH_NO_ERR st = Some (r1, s1)
    /\ cur_using_data_addr st <> 0
    /\ ((fits_of (detail_size_of st) s1 = true /\ r = r1
         /\ ((cur_using_data_addr s1 = cur_using_data_addr st /\ st' = s1)
             \/ (cur_using_data_addr s1 <> cur_using_data_addr st
                 /\ exists x,
                      save_cur_using_data_addr (cur_using_data_addr s1) s1
                      = Some (x, st'))))
        \/ (fits_of (detail_size_of st) s1 = false /\ r = FLASH_ENV_FULL
            /\ exists x,
                 save_cur_using_data_addr 4294967295 s1 = Some (x, st'))).
Proof.
  unfold flash_save_env. intros H. binv H.
  apply get_cur_using_data_addr_inv in Ha. destruct Ha as (-> & -> & Hc).
  binv H. apply get_env_detail_size_inv in Ha. destruct Ha as (-> & -> & _).
  binv H. rename a into r1. rename s into s1.
  exists r1, s1. split; [exact Ha|]. split; [exact Hc|].
  binv H. apply data_section_fits_inv in Ha0. destruct Ha0 as (-> & -> & _).
  destruct (fits_of (detail_size_of st) s1).
  - left. split; [reflexivity|].
    binv H. apply get_cur_using_data_addr_inv in Ha0.
    destruct Ha0 as (-> & -> & _).
    binv H.
    destruct (Z.eqb_spec (cur_using_data_addr s1) (cur_using_data_addr st))
      as [Heq|Hne]; cbn [negb] in Ha0.
    + pinj Ha0. pinj H. split; [reflexivity|]. left. auto.
    + binv Ha0. apply get_cur_using_data_addr_inv in Ha1.
      destruct Ha1 as (-> & -> & _).
      binv Ha0. pinj Ha0. pinj H. split; [reflexivity|]. right.
      split; [exact Hne|]. eexists. exact Ha1.
  - right. split; [reflexivity|].
    binv H. pinj H. split; [reflexivity|]. eexists. exact Ha0.
Qed.

End SaveEnv.

(** ** [flash_load_env] *)

Lemma bind_ret_value {A C} (m : M A) (c b : C) st st' :
  bind m (fun _ => ret c) st = Some (b, st') -> b = c.
Proof. intros H. binv H. pinj H. reflexivity. Qed.

Lemma strlen_mem_load m addr size :
  0 <= size -> strlen (mem_load m addr size) = size.
Proof.
  intros H. unfold strlen, mem_load. rewrite length_map, length_seq. lia.
Qed.

Lemma firstn_ram_splice ram p data n :
  (n <= Z.to_nat p)%nat -> (Z.to_nat p <= length ram)%nat ->
  firstn n (ram_splice ram p data) = firstn n ram.
Proof.
  intros Hn Hp. unfold ram_splice.
  rewrite firstn_app, firstn_firstn, length_firstn.
  replace (Nat.min n (Z.to_nat p)) with n by lia.
  replace (n - Nat.min (Z.to_nat p) (length ram))%nat with 0%nat by lia.
  cbn [firstn]. apply app_nil_r.
Qed.

Lemma strlen_ram_splice ram p data :
  0 <= p -> p + strlen data <= strlen ram ->
  strlen (ram_splice ram p data) = strlen ram.
Proof.
  intros Hp Hfit. unfold ram_splice, strlen in *.
  rewrite !length_app, length_firstn, length_skipn. lia.
Qed.

Lemma ram_load_splice ram p data :
  0 <= p -> p + strlen data <= strlen ram ->
  ram_load (ram_splice ram p data) p (strlen data) = Some data.
Proof.
  intros Hp Hfit. unfold ram_splice.
  assert (Hl : strlen (firstn (Z.to_nat p) ram) = p)
    by (unfold strlen in *; rewrite length_firstn; lia).
  pose proof (ram_load_app (firstn (Z.to_nat p) ram) data
                (skipn (Z.to_nat p + length data) ram)) as H.
  rewrite Hl in H. exact H.
Qed.

Lemma ram_load_after_splice ram w n :
  strlen w = 4 -> 8 <= strlen ram ->
  ram_load (ram_splice ram 4 w) 8 n = ram_load ram 8 n.
Proof.
  intros Hw Hl. unfold ram_load.
  rewrite strlen_ram_splice by lia.
  assert (Hsk : skipn (Z.to_nat 8) (ram_splice ram 4 w)
                = skipn (Z.to_nat 8) ram).
  { unfold ram_splice. rewrite app_assoc, skipn_app.
    assert (Hpre : length (firstn (Z.to_nat 4) ram ++ w) = Z.to_nat 8)
      by (rewrite length_app, length_firstn; unfold strlen in *; lia).
    rewrite Hpre, Nat.sub_diag, skipn_all2 by lia.
    cbn [app skipn].
    replace (Z.to_nat 4 + length w)%nat with (Z.to_nat 8)
      by (unfold strlen in *; lia).
    reflexivity. }
  rewrite Hsk. reflexivity.
Qed.

Lemma ram_load_word1 ram :
  ram_load ram 4 4
  = if 8 <=? strlen ram then Some (firstn 4 (skipn 4 ram)) else None.
Proof. reflexivity. Qed.

Section Load.

Context {B : Build}.



Lemma flash_read_to_cache_eq addr dst size st :
  0 <= size -> 0 <= dst -> dst + size <= strlen (env_cache st) ->
  flash_read_to_cache addr dst size st
  = Some (tt, with_cache st
                (ram_splice (env_cache st) dst
                   (mem_load (flash_mem (flash st)) addr size))).
Proof.
  intros Hs Hd Hfit. unfold flash_read_to_cache. rewrite bind_gets.
  destruct (Z.leb_spec 0 dst); [|lia].
  destruct (Z.leb_spec (dst + size) (strlen (env_cache st))); [|lia].
  cbn [andb]. unfold flash_read. rewrite bind_gets.
  unfold memcpy_to_cache. rewrite bind_gets. unfold ram_store.
  rewrite strlen_mem_load by exact Hs.
  destruct (Z.leb_spec 0 dst); [|lia].
  destruct (Z.leb_spec (dst + size) (strlen (env_cache st))); [|lia].
  reflexivity.
Qed.


End Load.

(** ** Saving: claims C3, C8 and C9 *)

Lemma code_stride_ceiling d e :
  0 <= d -> 0 < e ->
  (d / e + 1) * e
  = if d mod e =? 0 then spec_stride d e + e else spec_stride d e.
Proof.
  intros Hd He. unfold spec_stride.
  pose proof (Z.div_mod d e ltac:(lia)) as Hdm.
  pose proof (Z.mod_pos_bound d e He) as Hm.
  destruct (Z.eqb_spec (d mod e) 0) as [H0|H0].
  - replace ((d + e - 1) / e) with (d / e); [lia|].
    apply Z.div_unique with (r := e - 1); lia.
  - replace ((d + e - 1) / e) with (d / e + 1); [lia|].
    apply Z.div_unique with (r := d mod e - 1); lia.
Qed.

(** C3, as the claim states it, fails for a detail size that is a multiple
    of the erase unit: with an empty detail part (size 0) and erase units
    of 256 bytes, a fault on the first erase moves the data section from
    4352 to 4608, by 256 bytes, where the ceiling formula gives 0. *)
Lemma save_stride_not_ceiling :
  returned (flash_save_env (B := plain_build) 4)
    (with_flash (plain_state []) (planned_dev [true]))
  = Some FLASH_NO_ERR
  /\ cur_using_data_addr
       (state_after (flash_save_env (B := plain_build) 4)
          (with_flash (plain_state []) (planned_dev [true])))
     = 4352 + 256
  /\ spec_stride (detail_size_of (B := plain_build) (plain_state [])) 256 = 0.
Proof. repeat split; reflexivity. Qed.

(** C3 (amended).  A turn of the loop of [flash_save_env] in which the
    erase or the write faults moves the data section address and the
    cached detail part end address by the same stride
    [(detail_size / erase_min + 1) * erase_min], modulo 2^32.  That stride
    is the ceiling formula of the specification when the detail size is not
    a multiple of the erase unit and one erase unit more when it is.  When
    [flash_save_env] returns [FLASH_NO_ERR] with the data section moved,
    and its last device operation, the write of the System Section,
    succeeded, the System Section holds the new data section address. *)
Theorem save_fault_moves_section {B : Build} st :
  usable st ->
  (forall d ctl r st',
     save_env_turn d st = Some ((ctl, r), st') ->
     r = FLASH_ERASE_ERR \/ r = FLASH_WRITE_ERR ->
     cur_using_data_addr st'
     = u32 (cur_using_data_addr st + move_offset d (flash_erase_min_size st))
     /\ end_addr_of st'
        = u32 (end_addr_of st + move_offset d (flash_erase_min_size st)))
  /\ (forall d, 0 <= d -> 0 < flash_erase_min_size st ->
        (d / flash_erase_min_size st + 1) * flash_erase_min_size st
        = if d mod flash_erase_min_size st =? 0
          then spec_stride d (flash_erase_min_size st) + flash_erase_min_size st
          else spec_stride d (flash_erase_min_size st))
  /\ (forall fuel st',
        flash_save_env fuel st = Some (FLASH_NO_ERR, st') ->
        cur_using_data_addr st' <> cur_using_data_addr st ->
        last_op_succeeded st' ->
        system_word st' = cur_using_data_addr st').
Proof.
  intros (Hcur & Hstart & Htot & Hcache). split; [|split].
  - intros d ctl r st' Hturn Hr.
    apply save_env_turn_inv in Hturn. symmetry in Hturn.
    destruct (turn_result_facts d st ctl r st' Hturn (proj1 Hcache))
      as (_ & _ & [(_ & -> & _)|(_ & _ & Hc & He)]).
    + destruct Hr; discriminate.
    + auto.
  - intros d Hd He. apply code_stride_ceiling; assumption.
  - intros fuel st' Hrun Hmoved Hlast.
    destruct (flash_save_env_inv fuel st _ _ Hrun)
      as (r1 & s1 & Hloop & _ & [(Hfit & <- & Hend)|(_ & Hr & _)]);
      [|discriminate].
    destruct (save_env_loop_inv fuel _ _ st _ s1 Hloop (proj1 Hcache))
      as (_ & Hrange & _).
    destruct Hend as [(Heq & ->)|(Hne & x & Hsave)]; [contradiction|].
    destruct (save_cur_using_data_addr_inv _ _ _ _ Hsave)
      as (dev' & new & -> & _ & _ & _ & Hword & _).
    destruct (Hword Hlast) as [_ Hw]. rewrite Hw.
    cbn [cur_using_data_addr with_flash].
    apply u32_small. destruct Hrange as [Heq|Hr]; [contradiction|exact Hr].
Qed.

Lemma save_fault_moves_section_witness :
  usable (B := plain_build) (with_flash (plain_state []) (planned_dev [true]))
  /\ system_word
       (state_after (flash_save_env (B := plain_build) 4)
          (with_flash (plain_state []) (planned_dev [true])))
     = 4608.
Proof.
  assert (Hus : usable (B := plain_build)
                  (with_flash (plain_state []) (planned_dev [true])))
    by (repeat split; vm_compute; congruence).
  split; [exact Hus|].
  refine (proj2 (proj2 (save_fault_moves_section (B := plain_build) _ Hus))
            4%nat _ _ _ _).
  - reflexivity.
  - vm_compute. congruence.
  - exact I.
Defined.

(** C8, as the claim states it, fails: after a fault on the first erase, a
    save of an empty detail part erases 4 bytes at 4352, 4 bytes at 4608 and
    4 bytes at 4096, and 4 is no multiple of the erase unit of 256 bytes. *)
Lemma erase_length_not_whole_units :
  erases (dev_log (flash
            (state_after (flash_save_env (B := plain_build) 4)
               (with_flash (plain_state []) (planned_dev [true])))))
  = [(4096, 4); (4608, 4); (4352, 4)]
  /\ ~ (256 | 4).
Proof.
  split; [reflexivity|]. intros [k Hk]. lia.
Qed.

(** C8 (amended).  Every erase [flash_save_env] issues is either that of
    the System Section, of 4 bytes at the start address, or that of a data
    section, of [ENV_PARAM_PART_BYTE_SIZE + detail_size] bytes at the data
    section address of the turn; that address is a multiple of the erase
    unit when the data section address the save starts from is (the erase
    unit dividing 2^32).  The lengths are byte counts, not multiples of the
    erase unit.  [save_cur_using_data_addr] alone issues the one erase of
    the System Section. *)
Theorem erase_calls_of_save {B : Build} st :
  usable st ->
  (forall fuel r st',
     flash_save_env fuel st = Some (r, st') ->
     exists new,
       dev_log (flash st') = new ++ dev_log (flash st)
       /\ forall a n, In (a, n) (erases new) ->
            (a = env_start_addr st /\ n = 4)
            \/ (n = u32 (ENV_PARAM_PART_BYTE_SIZE + detail_size_of st)
                /\ ((flash_erase_min_size st | 2 ^ 32) ->
                    (flash_erase_min_size st | cur_using_data_addr st) ->
                    (flash_erase_min_size st | a))))
  /\ (forall a x st',
        save_cur_using_data_addr a st = Some (x, st') ->
        exists new,
          dev_log (flash st') = new ++ dev_log (flash st)
          /\ erases new = [(env_start_addr st, 4)]).
Proof.
  intros (Hcur & Hstart & Htot & Hcache). split.
  - intros fuel r st' Hrun.
    destruct (flash_save_env_inv fuel st _ _ Hrun)
      as (r1 & s1 & Hloop & _ & Hend).
    destruct (save_env_loop_inv fuel _ _ st _ s1 Hloop (proj1 Hcache))
      as ((Hst & _) & _ & (new & Hlog & Hnew) & _).
    assert (Hsys : forall a x, save_cur_using_data_addr a s1 = Some (x, st') ->
              exists new0,
                dev_log (flash st') = new0 ++ dev_log (flash st)
                /\ forall a n, In (a, n) (erases new0) ->
                     (a = env_start_addr st /\ n = 4)
                     \/ (n = u32 (ENV_PARAM_PART_BYTE_SIZE + detail_size_of st)
                         /\ ((flash_erase_min_size st | 2 ^ 32) ->
                             (flash_erase_min_size st | cur_using_data_addr st) ->
                             (flash_erase_min_size st | a)))).
    { intros a x Hsave.
      destruct (save_cur_using_data_addr_inv _ _ _ _ Hsave)
        as (dev' & new1 & -> & _ & Hlog1 & Her1 & _).
      exists (new1 ++ new). split.
      - cbn [flash with_flash]. rewrite Hlog1, Hlog, app_assoc. reflexivity.
      - intros a0 n Hin. rewrite erases_app in Hin.
        apply in_app_or in Hin. destruct Hin as [Hin|Hin].
        + rewrite Her1 in Hin. destruct Hin as [Hin|[]].
          injection Hin as <- <-. left. auto.
        + right. apply Hnew. exact Hin. }
    destruct Hend as [(_ & _ & [(_ & ->)|(_ & x & Hsave)])|(_ & _ & x & Hsave)].
    + exists new. split; [exact Hlog|]. intros a n Hin. right.
      apply Hnew. exact Hin.
    + eapply Hsys. exact Hsave.
    + eapply Hsys. exact Hsave.
  - intros a x st' Hsave.
    destruct (save_cur_using_data_addr_inv _ _ _ _ Hsave)
      as (dev' & new & -> & _ & Hlog & Her & _).
    exists new. auto.
Qed.

Lemma erase_calls_of_save_witness :
  usable (B := plain_build) (with_flash (plain_state []) (planned_dev [true]))
  /\ exists new,
       dev_log (flash
          (state_after (flash_save_env (B := plain_build) 4)
             (with_flash (plain_state []) (planned_dev [true]))))
       = new ++ []
       /\ forall a n, In (a, n) (erases new) ->
            (a = 4096 /\ n = 4)
            \/ (n = 4 /\ ((256 | 2 ^ 32) -> (256 | 4352) -> (256 | a))).
Proof.
  assert (Hus : usable (B := plain_build)
                  (with_flash (plain_state []) (planned_dev [true])))
    by (repeat split; vm_compute; congruence).
  split; [exact Hus|].
  exact (proj1 (erase_calls_of_save (B := plain_build) _ Hus)
           4%nat FLASH_NO_ERR _ eq_refl).
Defined.

Section DetailSize.

Context {B : Build}.




End DetailSize.




(** ** The exhausted store: claim C7 *)

Section Exhausted.

Context {B : Build}.

Lemma save_env_loop_S fuel d r0 st :
  save_env_loop (S fuel) d r0 st
  = (fits <- data_section_fits d ;;
     if fits then
       turn <- save_env_turn d ;;
       match turn with
       | (CONTINUE, result) => save_env_loop fuel d result
       | (BREAK, result) => ret result
       end
     else ret r0) st.
Proof. reflexivity. Qed.


Lemma move_offset_small d e :
  0 <= d -> 0 < e -> (d / e + 1) * e < 2 ^ 32 ->
  move_offset d e = (d / e + 1) * e /\ 0 < move_offset d e.
Proof.
  intros Hd He Hm. unfold move_offset.
  assert (0 <= d / e) by (apply Z.div_pos; lia).
  rewrite u32_small by nia. split; [reflexivity|nia].
Qed.

(** The loop returns when its moves do not wrap around and it is given
    as many turns as there are addresses in front of the end of the
    store. *)
Lemma save_env_loop_total fuel : forall d r0 st,
  0 < cur_using_data_addr st -> env_start_addr st <> 0 ->
  env_total_size st <> 0 -> 0 < flash_erase_min_size st ->
  0 <= d -> u32 (ENV_PARAM_PART_BYTE_SIZE + d) <= strlen (env_cache st) ->
  ENV_PARAM_PART_BYTE_SIZE + detail_size_of st <= strlen (env_cache st) ->
  0 <= env_start_addr st + env_total_size st ->
  env_start_addr st + env_total_size st
  + (d / flash_erase_min_size st + 1) * flash_erase_min_size st <= 2 ^ 32 ->
  cur_using_data_addr st + d < 2 ^ 32 ->
  env_start_addr st + env_total_size st - (cur_using_data_addr st + d)
  <= Z.of_nat fuel ->
  exists r st',
    save_env_loop fuel d r0 st = Some (r, st') /\ 0 < cur_using_data_addr st'.
Proof.
  induction fuel as [|fuel IH];
    intros d r0 st Hcur Hstart Htot He Hd Hsz Hfit HL Hwrap Hcd Hfuel.
  all: assert (Hdiv : 0 <= d / flash_erase_min_size st)
         by (apply Z.div_pos; lia).
  all: assert (Hm : 0 < (d / flash_erase_min_size st + 1)
                        * flash_erase_min_size st) by nia.
  all: assert (Hfits : fits_of d st
                       = (cur_using_data_addr st + d
                          <? env_start_addr st + env_total_size st))
         by (unfold fits_of; rewrite !u32_small by lia; reflexivity).
  - simpl. rewrite (bind_run _ (data_section_fits_eq d st
                                  ltac:(lia) Hstart Htot)).
    rewrite Hfits.
    destruct (Z.ltb_spec (cur_using_data_addr st + d)
                (env_start_addr st + env_total_size st)); [lia|].
    exists r0, st. auto.
  - rewrite save_env_loop_S.
    rewrite (bind_run _ (data_section_fits_eq d st ltac:(lia) Hstart Htot)).
    rewrite Hfits.
    destruct (Z.ltb_spec (cur_using_data_addr st + d)
                (env_start_addr st + env_total_size st)) as [Hlt|Hge].
    2:{ exists r0, st. auto. }
    assert (Hc0 : cur_using_data_addr st <> 0) by lia.
    assert (He0 : flash_erase_min_size st <> 0) by lia.
    cbv beta iota.
    pose proof (save_env_turn_eq d st Hc0 He0 Hfit Hd Hsz) as Hturn.
    destruct (turn_result d st) as [[ctl r1] s1] eqn:Ht.
    mstep Hturn.
    assert (Hl : ENV_PARAM_PART_BYTE_SIZE <= strlen (env_cache st)).
    { pose proof (u32_range (end_addr_of st - detail_addr_of st)).
      unfold detail_size_of in Hfit. lia. }
    destruct (turn_result_facts d st ctl r1 s1 Ht Hl)
      as ((Hst & Htt & Hmin & _ & Hlen & _ & Hds) & _ & Hcase).
    destruct (move_offset_small d (flash_erase_min_size st) Hd He ltac:(lia))
      as [Hmo _].
    destruct Hcase as [(-> & _ & Hc & _)|(-> & _ & Hc & _)].
    + exists r1, s1. split; [reflexivity|lia].
    + rewrite Hmo in Hc. rewrite u32_small in Hc by lia.
      apply IH; rewrite ?Hst, ?Htt, ?Hmin, ?Hlen, ?Hds, ?Hc; try lia.
Qed.

Lemma save_cur_using_data_addr_total a st :
  env_start_addr st <> 0 ->
  exists x st', save_cur_using_data_addr a st = Some (x, st').
Proof.
  intros Hs. unfold save_cur_using_data_addr.
  mstep (get_env_start_addr_eq st Hs).
  unfold flash_erase at 1. unfold bind at 1.
  destruct (dev_erase (flash st) (env_start_addr st) 4) as [re de] eqn:He.
  assert (Hre : re = FLASH_ERASE_ERR \/ re = FLASH_NO_ERR).
  { unfold dev_erase in He.
    destruct (dev_faults (flash st) _ _); injection He as <- _; auto. }
  destruct Hre as [-> | ->].
  - eexists. eexists. reflexivity.
  - assert (Hs' : env_start_addr (with_flash st de) <> 0) by exact Hs.
    mstep (get_env_start_addr_eq _ Hs').
    unfold flash_write.
    destruct (dev_write _ _ _). eexists. eexists. reflexivity.
Qed.

(** [flash_save_env] returns under the same conditions. *)
Lemma flash_save_env_total fuel st :
  usable st -> 0 < cur_using_data_addr st -> 0 < flash_erase_min_size st ->
  ENV_PARAM_PART_BYTE_SIZE + detail_size_of st <= strlen (env_cache st) ->
  0 <= env_start_addr st + env_total_size st ->
  env_start_addr st + env_total_size st
  + (detail_size_of st / flash_erase_min_size st + 1) * flash_erase_min_size st
  <= 2 ^ 32 ->
  cur_using_data_addr st + detail_size_of st < 2 ^ 32 ->
  env_start_addr st + env_total_size st <= Z.of_nat fuel ->
  exists r st', flash_save_env fuel st = Some (r, st').
Proof.
  intros (Hcur & Hstart & Htot & Hcache) Hc He Hfit HL Hwrap Hcd Hfuel.
  pose proof param_size_cases as Hp.
  assert (Hd : 0 <= detail_size_of st)
    by (unfold detail_size_of; apply u32_range).
  assert (Hl4 : 4 <= strlen (env_cache st)) by lia.
  destruct (save_env_loop_total fuel (detail_size_of st) FLASH_NO_ERR st)
    as (r1 & s1 & Hloop & Hc1); try assumption; try lia.
  { rewrite u32_small by lia. lia. }
  destruct (save_env_loop_inv fuel _ _ st _ s1 Hloop (proj1 Hcache))
    as ((Hst & Htt & _) & _).
  unfold flash_save_env.
  mstep (get_cur_using_data_addr_eq st Hcur).
  mstep (get_env_detail_size_eq st Hcur Hl4).
  mstep Hloop.
  assert (Hc1' : cur_using_data_addr s1 <> 0) by lia.
  assert (Hs1 : env_start_addr s1 <> 0) by congruence.
  assert (Ht1 : env_total_size s1 <> 0) by congruence.
  mstep (data_section_fits_eq (detail_size_of st) s1 Hc1' Hs1 Ht1).
  destruct (fits_of (detail_size_of st) s1).
  - mstep (get_cur_using_data_addr_eq s1 Hc1').
    destruct (negb (cur_using_data_addr s1 =? cur_using_data_addr st)).
    + rewrite bind_bind.
      mstep (get_cur_using_data_addr_eq s1 Hc1').
      destruct (save_cur_using_data_addr_total (cur_using_data_addr s1) s1 Hs1)
        as (x & st' & Hsave).
      rewrite bind_bind. mstep Hsave. eexists. eexists. reflexivity.
    + eexists. eexists. reflexivity.
  - destruct (save_cur_using_data_addr_total 4294967295 s1 Hs1)
      as (x & st' & Hsave).
    mstep Hsave. eexists. eexists. reflexivity.
Qed.

End Exhausted.




(** On the worn device, where the erase of every data section faults, the
    save of the store with the record [a=1] runs out of positions: it
    returns [FLASH_ENV_FULL] and leaves the sentinel in the System
    Section. *)
Example save_on_worn_device :
  returned (flash_save_env (B := plain_build) (Z.to_nat 5120)) worn_state
  = Some FLASH_ENV_FULL
  /\ system_word
       (state_after (flash_save_env (B := plain_build) (Z.to_nat 5120))
          worn_state)
     = 4294967295
  /\ erases (dev_log (flash
       (state_after (flash_save_env (B := plain_build) (Z.to_nat 5120))
          worn_state)))
     = [(4096, 4); (4864, 8); (4608, 8); (4352, 8)].
Proof. repeat split; vm_compute; reflexivity. Qed.

(** ** Loading: claim C4 *)

Section Loading.

Context {B : Build}.

(** The size of the detail part [flash_load_env] reads. *)
Lemma loaded_detail_size st :
  detail_size_of
    (with_cache (with_cur st (system_word st))
       (word_bytes (end_word_of st) ++ skipn 4 (env_cache st)))
  = u32 (end_word_of st - u32 (system_word st + ENV_PARAM_PART_BYTE_SIZE)).
Proof.
  unfold detail_size_of. rewrite end_addr_of_set.
  unfold detail_addr_of. cbn [cur_using_data_addr with_cache with_cur].
  unfold u32. rewrite Zminus_mod_idemp_l. reflexivity.
Qed.

(** When nothing stands in the way, [flash_load_env] loads the data
    section. *)
Lemma flash_load_env_loads fuel st :
  env_start_addr st <> 0 -> system_word st <> 0 ->
  (system_word st =? 4294967295) || (system_word st >? load_limit st) = false ->
  (end_word_of st >? load_limit st) = false ->
  ENV_PARAM_PART_BYTE_SIZE
  + u32 (end_word_of st - u32 (system_word st + ENV_PARAM_PART_BYTE_SIZE))
  <= strlen (env_cache st) ->
  (crc_check = true ->
   crc_of (loaded_state st) = stored_crc_of (loaded_state st)) ->
  flash_load_env fuel st = Some (LOAD_FROM_FLASH, loaded_state st).
Proof.
  intros Hs Hp Htest Hend Hfit Hcrc.
  pose proof param_size_cases as Hpc.
  pose proof (u32_range (end_word_of st
                         - u32 (system_word st + ENV_PARAM_PART_BYTE_SIZE)))
    as Hd.
  unfold flash_load_env.
  mstep (get_env_start_addr_eq st Hs).
  unfold flash_read at 1. rewrite bind_gets. fold (system_word st).
  rewrite !bind_gets. fold (load_limit st). rewrite Htest.
  unfold set_cur_using_data_addr at 1. rewrite bind_modify.
  set (st1 := with_cur st (system_word st)).
  assert (Hc1 : cur_using_data_addr st1 <> 0) by exact Hp.
  mstep (get_cur_using_data_addr_eq st1 Hc1).
  unfold flash_read at 1. rewrite bind_gets.
  cbn [cur_using_data_addr with_cur flash flash_mem st1].
  fold (end_word_of st). rewrite Hend. fold st1.
  assert (Hl1 : 4 <= strlen (env_cache st1)) by (cbn; lia).
  mstep (set_env_detail_end_addr_eq st1 (end_word_of st) Hl1).
  cbn [env_cache with_cur st1]. fold st1.
  set (st2 := with_cache st1 (word_bytes (end_word_of st)
                              ++ skipn 4 (env_cache st))).
  assert (Hc2 : cur_using_data_addr st2 <> 0) by exact Hp.
  assert (Hlen2 : strlen (env_cache st2) = strlen (env_cache st))
    by (apply strlen_set_end; lia).
  assert (Hl2 : 4 <= strlen (env_cache st2)) by lia.
  mstep (get_env_detail_addr_eq st2 Hc2).
  mstep (get_env_detail_size_eq st2 Hc2 Hl2).
  assert (Hd2 : detail_size_of st2
                = u32 (end_word_of st
                       - u32 (system_word st + ENV_PARAM_PART_BYTE_SIZE)))
    by apply loaded_detail_size.
  assert (Hsz2 : 0 <= detail_size_of st2) by lia.
  assert (Hdst2 : 0 <= 4 * ENV_PARAM_PART_WORD_SIZE)
    by (rewrite param_byte_size_eq; lia).
  assert (Hroom2 : 4 * ENV_PARAM_PART_WORD_SIZE + detail_size_of st2
                   <= strlen (env_cache st2))
    by (rewrite param_byte_size_eq; lia).
  mstep (flash_read_to_cache_eq (detail_addr_of st2)
           (4 * ENV_PARAM_PART_WORD_SIZE) (detail_size_of st2) st2
           Hsz2 Hdst2 Hroom2).
  cbn [flash with_cache with_cur st2 st1].
  fold st1. fold st2.
  set (st3 := with_cache st2 _).
  unfold loaded_state. fold st1. fold st2.
  cbn [flash with_cache with_cur st2 st1]. fold st1. fold st2. fold st3.
  destruct crc_check eqn:Hcc; [|reflexivity].
  assert (Hc3 : cur_using_data_addr st3 <> 0) by exact Hp.
  mstep (get_cur_using_data_addr_eq st3 Hc3).
  assert (Hlen3 : strlen (env_cache st3) = strlen (env_cache st)).
  { unfold st3. cbn [env_cache with_cache]. fold st2.
    rewrite strlen_ram_splice; [exact Hlen2|exact Hdst2|].
    rewrite strlen_mem_load by exact Hsz2. exact Hroom2. }
  assert (Hp8 : ENV_PARAM_PART_BYTE_SIZE = 8)
    by (unfold ENV_PARAM_PART_BYTE_SIZE, ENV_PARAM_PART_WORD_SIZE;
        rewrite Hcc; reflexivity).
  assert (Hsz3 : 0 <= 4) by lia.
  assert (Hdst3 : 0 <= 4 * ENV_PARAM_PART_INDEX_DATA_CRC) by (cbn; lia).
  assert (Hroom3 : 4 * ENV_PARAM_PART_INDEX_DATA_CRC + 4
                   <= strlen (env_cache st3))
    by (change (4 * ENV_PARAM_PART_INDEX_DATA_CRC) with 4; lia).
  mstep (flash_read_to_cache_eq
           (u32 (cur_using_data_addr st3 + ENV_PARAM_PART_INDEX_DATA_CRC * 4))
           (4 * ENV_PARAM_PART_INDEX_DATA_CRC) 4 st3 Hsz3 Hdst3 Hroom3).
  cbn [flash cur_using_data_addr with_cache with_cur st3 st2 st1].
  fold st1. fold st2. fold st3.
  set (st4 := with_cache st3 _) in *.
  pose proof (Hcrc eq_refl) as Hok.
  unfold env_crc_is_ok.
  assert (Hc4 : cur_using_data_addr st4 <> 0) by exact Hp.
  assert (Hfit4 : ENV_PARAM_PART_BYTE_SIZE + detail_size_of st4
                  <= strlen (env_cache st4)).
  { assert (Hlen4 : strlen (env_cache st4) = strlen (env_cache st)).
    { unfold st4. cbn [env_cache with_cache].
      rewrite strlen_ram_splice; [exact Hlen3|exact Hdst3|].
      rewrite strlen_mem_load by exact Hsz3. exact Hroom3. }
    assert (Hw0 : firstn 4 (env_cache st4) = firstn 4 (env_cache st2)).
    { unfold st4. cbn [env_cache with_cache].
      rewrite firstn_ram_splice
        by (change (4 * ENV_PARAM_PART_INDEX_DATA_CRC) with 4;
            unfold strlen in *; lia).
      unfold st3. cbn [env_cache with_cache]. fold st2.
      apply firstn_ram_splice;
        rewrite param_byte_size_eq; unfold strlen in *; lia. }
    assert (Hd4 : detail_size_of st4 = detail_size_of st2).
    { unfold detail_size_of, end_addr_of. rewrite Hw0. reflexivity. }
    lia. }
  rewrite bind_bind.
  mstep (calc_env_crc_eq st4 Hc4 Hfit4).
  unfold cache_word. rewrite !bind_bind, bind_gets.
  change (4 * ENV_PARAM_PART_INDEX_DATA_CRC) with 4.
  rewrite ram_load_word1.
  assert (Hd4 : 0 <= detail_size_of st4)
    by (unfold detail_size_of; apply u32_range).
  destruct (Z.leb_spec 8 (strlen (env_cache st4))); [|lia].
  rewrite bind_bind, bind_defined, !bind_ret.
  fold (stored_crc_of st4).
  unfold loaded_state in Hok. rewrite Hcc in Hok.
  fold st1 in Hok. fold st2 in Hok.
  cbn [flash with_cache with_cur st2 st1] in Hok.
  fold st1 in Hok. fold st2 in Hok. fold st3 in Hok. fold st4 in Hok.
  rewrite Hok, Z.eqb_refl. reflexivity.
Qed.

(** The cache of the state loaded holds the detail part of the flash. *)
Lemma loaded_state_content st :
  ENV_PARAM_PART_BYTE_SIZE
  + u32 (end_word_of st - u32 (system_word st + ENV_PARAM_PART_BYTE_SIZE))
  <= strlen (env_cache st) ->
  cur_using_data_addr (loaded_state st) = system_word st
  /\ end_addr_of (loaded_state st) = end_word_of st
  /\ flash (loaded_state st) = flash st
  /\ ram_load (env_cache (loaded_state st)) ENV_PARAM_PART_BYTE_SIZE
       (u32 (end_word_of st - u32 (system_word st + ENV_PARAM_PART_BYTE_SIZE)))
     = Some (mem_load (flash_mem (flash st))
               (u32 (system_word st + ENV_PARAM_PART_BYTE_SIZE))
               (u32 (end_word_of st
                     - u32 (system_word st + ENV_PARAM_PART_BYTE_SIZE)))).
Proof.
  intros Hfit. pose proof param_size_cases as Hpc.
  set (d := u32 (end_word_of st
                 - u32 (system_word st + ENV_PARAM_PART_BYTE_SIZE))) in *.
  assert (Hd : 0 <= d) by apply u32_range.
  unfold loaded_state.
  set (st1 := with_cur st (system_word st)).
  set (st2 := with_cache st1 (word_bytes (end_word_of st)
                              ++ skipn 4 (env_cache st))).
  assert (Hd2 : detail_size_of st2 = d) by apply loaded_detail_size.
  assert (Hda : detail_addr_of st2
                = u32 (system_word st + ENV_PARAM_PART_BYTE_SIZE))
    by reflexivity.
  rewrite Hd2, Hda.
  set (data := mem_load (flash_mem (flash st))
                 (u32 (system_word st + ENV_PARAM_PART_BYTE_SIZE)) d).
  assert (Hdl : strlen data = d) by (apply strlen_mem_load; exact Hd).
  assert (Hlen2 : strlen (env_cache st2) = strlen (env_cache st))
    by (apply strlen_set_end; lia).
  set (c3 := ram_splice (env_cache st2) (4 * ENV_PARAM_PART_WORD_SIZE) data).
  assert (Hl3 : strlen c3 = strlen (env_cache st))
    by (unfold c3; rewrite strlen_ram_splice;
        rewrite ?param_byte_size_eq; lia).
  assert (Hw3 : firstn 4 c3 = word_bytes (end_word_of st)).
  { unfold c3. rewrite firstn_ram_splice
      by (rewrite param_byte_size_eq; unfold strlen in *; lia).
    reflexivity. }
  assert (Hload3 : ram_load c3 ENV_PARAM_PART_BYTE_SIZE d = Some data).
  { unfold c3. rewrite param_byte_size_eq, <- Hdl.
    apply ram_load_splice; lia. }
  assert (Hend : bytes_word (word_bytes (end_word_of st)) = end_word_of st).
  { rewrite bytes_word_word_bytes. apply u32_small.
    unfold end_word_of. apply bytes_word_range.
    unfold mem_load. rewrite length_map, length_seq. reflexivity. }
  destruct crc_check eqn:Hcc.
  - assert (Hp8 : ENV_PARAM_PART_BYTE_SIZE = 8)
      by (unfold ENV_PARAM_PART_BYTE_SIZE, ENV_PARAM_PART_WORD_SIZE;
          rewrite Hcc; reflexivity).
    cbn [cur_using_data_addr flash env_cache with_cache with_cur st2 st1].
    fold st1. fold st2. fold c3.
    change (4 * ENV_PARAM_PART_INDEX_DATA_CRC) with 4.
    repeat split.
    + unfold end_addr_of. cbn [env_cache with_cache].
      rewrite firstn_ram_splice by (unfold strlen in *; lia).
      rewrite Hw3. exact Hend.
    + rewrite Hp8 in *. rewrite ram_load_after_splice; [exact Hload3| |lia].
      apply strlen_mem_load. lia.
  - cbn [cur_using_data_addr flash env_cache with_cache with_cur st2 st1].
    fold st1. fold st2. fold c3.
    repeat split.
    + unfold end_addr_of. cbn [env_cache with_cache]. rewrite Hw3. exact Hend.
    + exact Hload3.
Qed.

End Loading.




(** ** Installing the defaults: claim C10 *)

Lemma stride_le d e : 0 <= d -> 0 < e -> (d / e + 1) * e <= d + e.
Proof.
  intros Hd He. pose proof (Z.mul_div_le d e He). lia.
Qed.

Section Defaults.

Context {B : Build}.

Lemma only_cache_differs_refl st : only_cache_differs st st.
Proof. repeat split. Qed.

Lemma only_cache_differs_with_cache st c :
  strlen c = strlen (env_cache st) -> only_cache_differs st (with_cache st c).
Proof. intros H. repeat split. exact H. Qed.

Lemma only_cache_differs_trans s1 s2 s3 :
  only_cache_differs s1 s2 -> only_cache_differs s2 s3 ->
  only_cache_differs s1 s3.
Proof.
  intros (A1 & A2 & A3 & A4 & A5 & A6 & A7) (B1 & B2 & B3 & B4 & B5 & B6 & B7).
  repeat split; congruence.
Qed.

Lemma usable_only_cache st st' :
  usable st -> only_cache_differs st st' -> usable st'.
Proof.
  intros (Hc & Hs & Ht & Hl) (_ & A2 & _ & A4 & A5 & _ & A7).
  repeat split; try congruence; lia.
Qed.

(** [write_env] returns when the record fits 16 bits and the cache. *)
Lemma write_env_total st recs key value :
  holds_records st recs -> usable st ->
  strlen key + strlen value + 2 <= 65532 ->
  ENV_PARAM_PART_BYTE_SIZE + strlen (flat_map record_bytes recs)
  + strlen (record_bytes (record_of key value)) <= strlen (env_cache st) ->
  exists r st', write_env key value st = Some (r, st').
Proof.
  intros Hrec Hus Hsize Hroom.
  pose proof (usable_cache st Hus) as Hlen.
  destruct Hrec as (head & slack & Hc & Hh & Hd & Hnf).
  destruct Hus as (Hcur & Hstart & Htot & Hcache).
  pose proof param_size_cases as Hp.
  pose proof (strlen_nonneg (flat_map record_bytes recs)) as Hfl.
  unfold write_env.
  mstep (get_env_detail_size_eq st Hcur Hlen).
  mstep (flash_get_env_total_size_eq st Htot).
  destruct (_ >=? _); [eexists; eexists; reflexivity|].
  rewrite env_storage_length_eq by exact Hsize.
  rewrite format_env_str_eq, bind_defined.
  mstep (get_env_detail_size_eq st Hcur Hlen).
  unfold memcpy_to_cache. rewrite bind_bind, bind_gets.
  unfold ram_store. rewrite Hd.
  destruct (Z.leb_spec 0 (ENV_PARAM_PART_BYTE_SIZE
                          + strlen (flat_map record_bytes recs))); [|lia].
  destruct (Z.leb_spec (ENV_PARAM_PART_BYTE_SIZE
                        + strlen (flat_map record_bytes recs)
                        + strlen (record_bytes (record_of key value)))
              (strlen (env_cache st))); [|lia].
  cbn [andb]. rewrite bind_bind, bind_defined, bind_modify.
  set (st1 := with_cache st _).
  assert (Hl1 : 4 <= strlen (env_cache st1)).
  { unfold st1. cbn [env_cache with_cache].
    rewrite strlen_ram_splice; lia. }
  mstep (get_env_detail_end_addr_eq st1 Hl1).
  rewrite (bind_run _ (set_env_detail_end_addr_eq st1 _ Hl1)).
  eexists. eexists. reflexivity.
Qed.

(** One step of the loop of [flash_env_set_default]. *)
Lemma create_env_step st recs key value :
  holds_records st recs -> usable st ->
  nul_free key -> nul_free value ->
  strlen key + strlen value + 2 <= 65532 ->
  ENV_PARAM_PART_BYTE_SIZE + strlen (flat_map record_bytes recs)
  + strlen (record_bytes (record_of key value)) <= strlen (env_cache st) ->
  exists r st' recs',
    create_env key value st = Some (r, st')
    /\ holds_records st' recs' /\ only_cache_differs st st'
    /\ strlen (flat_map record_bytes recs')
       <= strlen (flat_map record_bytes recs)
          + strlen (record_bytes (record_of key value)).
Proof.
  intros Hrec Hus Hnk Hnv Hsize Hroom.
  pose proof (strlen_record_bytes_pos (record_of key value)) as Hpos.
  assert (Hsame : forall r : FlashErrCode,
            exists st' recs',
              Some (r, st) = Some (r, st')
              /\ holds_records st' recs' /\ only_cache_differs st st'
              /\ strlen (flat_map record_bytes recs')
                 <= strlen (flat_map record_bytes recs)
                    + strlen (record_bytes (record_of key value))).
  { intros r. exists st, recs. repeat split; auto. lia. }
  unfold create_env. destruct key as [|c key].
  { eexists. apply Hsame. }
  destruct (has_equal_sign (c :: key)).
  { eexists. apply Hsame. }
  assert (Hkey : c :: key <> []) by discriminate.
  mstep (find_env_records st _ (c :: key) Hrec (proj1 Hus) Hkey).
  destruct (find_in_records recs (c :: key) ENV_PARAM_PART_BYTE_SIZE).
  { eexists. apply Hsame. }
  destruct (write_env_total st recs (c :: key) value Hrec Hus Hsize Hroom)
    as (r & st' & Hrun).
  rewrite Hrun.
  destruct (write_env_run st _ _ _ _ Hus Hrun)
    as [(_ & -> & ->)|(_ & -> & _)].
  { eexists. apply Hsame. }
  destruct (write_env_records st recs _ _ _ Hrec Hus Hsize Hnk Hnv Hrun)
    as (Hrec' & cc & -> & Hlen).
  exists FLASH_NO_ERR, (with_cache st cc), (recs ++ [record_of (c :: key) value]).
  split; [reflexivity|]. split; [exact Hrec'|].
  split; [apply only_cache_differs_with_cache; exact Hlen|].
  rewrite flat_map_app. cbn [flat_map]. rewrite app_nil_r, strlen_app. lia.
Qed.

(** The loop of [flash_env_set_default] returns on a valid default set
    that fits the cache. *)
Lemma create_default_envs_total set : forall st recs,
  holds_records st recs -> usable st ->
  Forall valid_default set ->
  ENV_PARAM_PART_BYTE_SIZE + strlen (flat_map record_bytes recs)
  + defaults_size set <= strlen (env_cache st) ->
  exists st' recs',
    create_default_envs set st = Some (tt, st')
    /\ holds_records st' recs' /\ only_cache_differs st st'
    /\ strlen (flat_map record_bytes recs')
       <= strlen (flat_map record_bytes recs) + defaults_size set.
Proof.
  induction set as [|e set IH]; intros st recs Hrec Hus Hval Hroom.
  - exists st, recs. simpl. repeat split; auto. lia.
  - inversion Hval as [|? ? (Hnk & Hnv & Hsize) Hval']; subst.
    simpl defaults_size in *.
    assert (Hds : 0 <= defaults_size set).
    { clear. induction set as [|e set IH]; simpl; [lia|].
      pose proof (strlen_record_bytes_pos (record_of (key e) (value e))). lia. }
    assert (Hroom0 : ENV_PARAM_PART_BYTE_SIZE
                     + strlen (flat_map record_bytes recs)
                     + strlen (record_bytes (record_of (key e) (value e)))
                     <= strlen (env_cache st)) by lia.
    destruct (create_env_step st recs (key e) (value e) Hrec Hus Hnk Hnv Hsize
                Hroom0)
      as (r & s1 & recs1 & Hrun & Hrec1 & Hsame1 & Hlen1).
    pose proof (usable_only_cache st s1 Hus Hsame1) as Hus1.
    assert (Hroom1 : ENV_PARAM_PART_BYTE_SIZE
                     + strlen (flat_map record_bytes recs1)
                     + defaults_size set <= strlen (env_cache s1)).
    { destruct Hsame1 as (_ & _ & _ & _ & _ & _ & Hl). lia. }
    destruct (IH s1 recs1 Hrec1 Hus1 Hval' Hroom1)
      as (st' & recs' & Hrun' & Hrec' & Hsame' & Hlen').
    exists st', recs'. simpl create_default_envs.
    mstep Hrun. split; [exact Hrun'|]. split; [exact Hrec'|].
    split; [eapply only_cache_differs_trans; eassumption|]. lia.
Qed.

End Defaults.

(** C10.  [flash_env_set_default] tells [FLASH_NO_ERR] whenever it returns,
    whatever the [create_env] calls over the default set and the closing
    [flash_save_env] have told: their codes are dropped.  And it does return,
    with [FLASH_NO_ERR], from a usable state whose default set is not empty,
    holds valid variables and fits the cache, when no address wraps around
    and the save loop is given the turns it can take. *)
Theorem flash_env_set_default_no_err {B : Build} (fuel : nat) (st : env_state) :
  (forall r st',
     flash_env_set_default fuel st = Some (r, st') -> r = FLASH_NO_ERR)
  /\ (usable st -> 0 < cur_using_data_addr st ->
      0 < flash_erase_min_size st ->
      default_env_set st <> [] ->
      Forall valid_default (default_env_set st) ->
      ENV_PARAM_PART_BYTE_SIZE + defaults_size (default_env_set st)
      <= strlen (env_cache st) ->
      0 <= env_start_addr st + env_total_size st ->
      env_start_addr st + env_total_size st
      + defaults_size (default_env_set st) + flash_erase_min_size st
      <= 2 ^ 32 ->
      cur_using_data_addr st + defaults_size (default_env_set st) < 2 ^ 32 ->
      env_start_addr st + env_total_size st <= Z.of_nat fuel ->
      exists st', flash_env_set_default fuel st = Some (FLASH_NO_ERR, st')).
Proof.
  split.
  - intros r st' H. unfold flash_env_set_default in H.
    do 6 binv H. unfold ret in H. pinj H. reflexivity.
  - intros Hus Hcur He Hset Hval Hroom HL Hwrap Hcd Hfuel.
    pose proof param_size_cases as Hp.
    pose proof (usable_cache st Hus) as Hl4.
    unfold flash_env_set_default. rewrite bind_gets.
    assert (Hne : negb (Nat.eqb (length (default_env_set st)) 0) = true).
    { destruct (default_env_set st); [contradiction|reflexivity]. }
    mstep (FLASH_ASSERT_true _ st Hne).
    mstep (get_env_detail_addr_eq st (proj1 Hus)).
    rewrite (bind_run _ (set_env_detail_end_addr_eq st (detail_addr_of st) Hl4)).
    set (st0 := with_cache st _).
    assert (Hlen0 : strlen (env_cache st0) = strlen (env_cache st)).
    { unfold st0. cbn [env_cache with_cache]. apply strlen_set_end, Hl4. }
    assert (Hsame0 : only_cache_differs st st0).
    { unfold st0. apply only_cache_differs_with_cache.
      apply strlen_set_end, Hl4. }
    pose proof (usable_only_cache st st0 Hus Hsame0) as Hus0.
    assert (Hsize0 : detail_size_of st0 = 0).
    { unfold detail_size_of. unfold st0 at 1. rewrite end_addr_of_set.
      change (detail_addr_of st0) with (detail_addr_of st).
      unfold detail_addr_of. rewrite u32_idem, Z.sub_diag. reflexivity. }
    assert (Hrec0 : holds_records st0 []).
    { exists (firstn (Z.to_nat ENV_PARAM_PART_BYTE_SIZE) (env_cache st0)),
        (skipn (Z.to_nat ENV_PARAM_PART_BYTE_SIZE) (env_cache st0)).
      cbn [flat_map app]. rewrite firstn_skipn.
      split; [reflexivity|]. split.
      - unfold strlen in *. rewrite length_firstn.
        destruct Hus0 as (_ & _ & _ & Hc). unfold strlen in Hc. lia.
      - split; [exact Hsize0|constructor]. }
    assert (Hds : 0 <= defaults_size (default_env_set st)).
    { clear. induction (default_env_set st) as [|e set IH]; simpl; [lia|].
      pose proof (strlen_record_bytes_pos (record_of (key e) (value e))). lia. }
    destruct (create_default_envs_total (default_env_set st) st0 [] Hrec0 Hus0
                Hval)
      as (s1 & recs1 & Hrun1 & Hrec1 & Hsame1 & Hlen1).
    { cbn [flat_map]. rewrite strlen_nil. lia. }
    cbn [flat_map] in Hlen1. rewrite strlen_nil in Hlen1.
    mstep Hrun1.
    pose proof (usable_only_cache st0 s1 Hus0 Hsame1) as Hus1.
    pose proof (only_cache_differs_trans st st0 s1 Hsame0 Hsame1)
      as (_ & T2 & T3 & T4 & T5 & _ & T7).
    destruct Hrec1 as (head & slack & _ & _ & Hd1 & _).
    pose proof (strlen_nonneg (flat_map record_bytes recs1)) as Hn1.
    assert (Hd0 : 0 <= detail_size_of s1) by lia.
    pose proof (stride_le (detail_size_of s1) (flash_erase_min_size st)
                  Hd0 He) as Hstride.
    destruct (flash_save_env_total fuel s1 Hus1) as (r2 & s2 & Hrun2);
      try rewrite T2; try rewrite T3; try rewrite T4; try rewrite T5;
      try rewrite T7; try lia.
    mstep Hrun2. eexists. reflexivity.
Qed.

(** On the module of [careless_state] the function returns, and every
    hypothesis of the second part holds. *)
Lemma flash_env_set_default_no_err_witness :
  exists st',
    flash_env_set_default (B := plain_build) (Z.to_nat 5120) careless_state
    = Some (FLASH_NO_ERR, st').
Proof.
  apply (proj2 (flash_env_set_default_no_err (B := plain_build)
                  (Z.to_nat 5120) careless_state)).
  - repeat split; vm_compute; congruence.
  - reflexivity.
  - reflexivity.
  - discriminate.
  - repeat constructor; try discriminate; vm_compute; congruence.
  - vm_compute. congruence.
  - vm_compute. congruence.
  - vm_compute. congruence.
  - reflexivity.
  - vm_compute. congruence.
Defined.

(** On that module two of the three defaults are rejected and the save
    fails, and [flash_env_set_default] still tells [FLASH_NO_ERR]. *)
Example set_default_on_careless_state :
  let st0 := with_cache careless_state
               (word_bytes (detail_addr_of (B := plain_build) careless_state)
                ++ skipn 4 (env_cache careless_state)) in
  returned (create_env (B := plain_build) (str "b=d") (str "x")) st0
  = Some FLASH_ENV_NAME_ERR
  /\ returned (create_env (B := plain_build) (str "boot") (str "1") ;;;
               create_env (B := plain_build) (str "boot") (str "2")) st0
     = Some FLASH_ENV_NAME_EXIST
  /\ returned (create_default_envs (B := plain_build)
                 (default_env_set careless_state) ;;;
               flash_save_env (B := plain_build) (Z.to_nat 5120)) st0
     = Some FLASH_ENV_FULL
  /\ returned (flash_env_set_default (B := plain_build) (Z.to_nat 5120))
       careless_state
     = Some FLASH_NO_ERR.
Proof. vm_compute. repeat split. Qed.

(** ** The example states hold their records *)

Lemma u32_sub_same a l : u32 (u32 (a + l) - u32 a) = u32 l.
Proof.
  unfold u32. rewrite Zminus_mod_idemp_l, Zminus_mod_idemp_r.
  f_equal. lia.
Qed.

Lemma make_state_holds {B : Build} start total erase_min cur recs dev :
  Forall nul_free recs ->
  strlen (flat_map record_bytes recs) < 2 ^ 32 ->
  holds_records
    (make_state start total erase_min cur (flat_map record_bytes recs) dev)
    recs.
Proof.
  intros Hnf Hlen.
  set (detail := flat_map record_bytes recs) in *.
  set (e := cur + ENV_PARAM_PART_BYTE_SIZE + strlen detail).
  exists (word_bytes e ++ (if crc_check then word_bytes 0 else [])),
    (repeat NUL
       (Z.to_nat (total - strlen (word_bytes e
                                  ++ (if crc_check then word_bytes 0 else [])
                                  ++ detail)))).
  split; [|split; [|split]].
  - unfold make_state, make_cache. cbn [env_cache]. fold e.
    rewrite <- !app_assoc. reflexivity.
  - rewrite strlen_app, strlen_word_bytes.
    unfold ENV_PARAM_PART_BYTE_SIZE, ENV_PARAM_PART_WORD_SIZE.
    destruct crc_check; [rewrite strlen_word_bytes|rewrite strlen_nil]; lia.
  - unfold detail_size_of, detail_addr_of, end_addr_of, make_state, make_cache.
    cbn [env_cache cur_using_data_addr]. fold e.
    rewrite <- app_assoc.
    change (firstn 4 (word_bytes e ++ _)) with (word_bytes e).
    rewrite bytes_word_word_bytes. unfold e. rewrite u32_sub_same.
    apply u32_small. fold detail. pose proof (strlen_nonneg detail). lia.
  - exact Hnf.
Qed.

Lemma make_state_usable {B : Build} start total erase_min cur detail dev :
  cur <> 0 -> start <> 0 -> total <> 0 ->
  ENV_PARAM_PART_BYTE_SIZE + strlen detail <= total < 2 ^ 32 ->
  usable (make_state start total erase_min cur detail dev)
  /\ strlen (env_cache (make_state start total erase_min cur detail dev))
     = total.
Proof.
  intros Hc Hs Ht Hl.
  assert (Hlen : strlen (env_cache
                   (make_state start total erase_min cur detail dev)) = total).
  { unfold make_state, make_cache. cbn [env_cache].
    set (e := cur + ENV_PARAM_PART_BYTE_SIZE + strlen detail).
    assert (Hh : strlen (word_bytes e
                         ++ (if crc_check then word_bytes 0 else []) ++ detail)
                 = ENV_PARAM_PART_BYTE_SIZE + strlen detail).
    { rewrite !strlen_app, strlen_word_bytes.
      unfold ENV_PARAM_PART_BYTE_SIZE, ENV_PARAM_PART_WORD_SIZE.
      destruct crc_check; [rewrite strlen_word_bytes|rewrite strlen_nil]; lia. }
    rewrite strlen_app, strlen_repeat, Hh. lia. }
  split; [|exact Hlen].
  repeat split; try assumption; rewrite Hlen.
  - pose proof (strlen_nonneg detail). lia.
  - lia.
Qed.

Lemma plain_state_holds recs :
  Forall nul_free recs ->
  strlen (flat_map record_bytes recs) < 2 ^ 32 ->
  holds_records (B := plain_build) (plain_state recs) recs.
Proof. apply (make_state_holds (B := plain_build)). Qed.

Lemma crc_state_holds recs :
  Forall nul_free recs ->
  strlen (flat_map record_bytes recs) < 2 ^ 32 ->
  holds_records (B := crc_build) (crc_state recs) recs.
Proof. apply (make_state_holds (B := crc_build)). Qed.

Lemma nul_free_repeat c n : c <> NUL -> nul_free (repeat c n).
Proof.
  intros Hc. apply Forall_forall. intros x Hx.
  apply repeat_spec in Hx. subst x. exact Hc.
Qed.

Lemma two_records_held :
  holds_records (B := plain_build) (plain_state [str "a=1"; str "bcd=xyz"])
    [str "a=1"; str "bcd=xyz"].
Proof.
  apply plain_state_holds; [repeat constructor; discriminate|].
  vm_compute. reflexivity.
Qed.

Lemma plain_state_usable recs :
  strlen (detail_with recs) <= 1020 ->
  usable (B := plain_build) (plain_state recs)
  /\ strlen (env_cache (plain_state recs)) = 1024.
Proof.
  intros H. apply (make_state_usable (B := plain_build)); try discriminate.
  change (ENV_PARAM_PART_BYTE_SIZE (B := plain_build)) with 4. lia.
Qed.

Lemma crc_state_usable recs :
  strlen (detail_with recs) <= 1016 ->
  usable (B := crc_build) (crc_state recs)
  /\ strlen (env_cache (crc_state recs)) = 1024.
Proof.
  intros H. apply (make_state_usable (B := crc_build)); try discriminate.
  change (ENV_PARAM_PART_BYTE_SIZE (B := crc_build)) with 8. lia.
Qed.

Lemma two_records_usable :
  usable (B := plain_build) (plain_state [str "a=1"; str "bcd=xyz"]).
Proof. apply plain_state_usable. vm_compute. congruence. Qed.

(** ** What [find_env] and [flash_get_env] tell about the records *)

Lemma Some_inj {A} (a b : A) : Some a = Some b -> a = b.
Proof. intros H. congruence. Qed.

Lemma starts_with_sound k : forall s,
  starts_with s k = true -> exists rest, s = k ++ rest.
Proof.
  induction k as [|a k IH]; intros s H.
  - exists s. reflexivity.
  - destruct s as [|b s]; [discriminate|].
    simpl in H. apply andb_true_iff in H. destruct H as [Hab Hs].
    apply Ascii.eqb_eq in Hab. subst b.
    destruct (IH s Hs) as (rest & ->). exists rest. reflexivity.
Qed.

Lemma strstr_sound k : forall s i,
  strstr s k = Some i ->
  exists pre rest, s = pre ++ k ++ rest /\ length pre = i.
Proof.
  induction s as [|c s IH]; intros i H; rewrite strstr_unfold in H.
  - destruct (starts_with [] k) eqn:Hs; [|discriminate].
    apply Some_inj in H. subst i.
    destruct (starts_with_sound k [] Hs) as (rest & E).
    exists [], rest. split; [exact E|reflexivity].
  - destruct (starts_with (c :: s) k) eqn:Hs.
    + apply Some_inj in H. subst i.
      destruct (starts_with_sound k _ Hs) as (rest & E).
      exists [], rest. split; [exact E|reflexivity].
    + destruct (strstr s k) as [j|] eqn:Hj; [|discriminate].
      apply Some_inj in H. subst i.
      destruct (IH j eq_refl) as (pre & rest & -> & Hl).
      exists (c :: pre), rest. split; [reflexivity|].
      simpl. rewrite Hl. reflexivity.
Qed.

(** The test of [find_env] holds only of a string in which the key stands
    with an equal sign after it. *)
Lemma env_matches_sound s key :
  env_matches s key = true ->
  exists pre post, s = pre ++ key ++ EQUAL_SIGN :: post.
Proof.
  unfold env_matches. destruct (strstr s key) as [i|] eqn:Hi; [|discriminate].
  destruct (strstr_sound key s i Hi) as (pre & rest & -> & Hl).
  intros Hc. apply Ascii.eqb_eq in Hc. unfold char_at in Hc.
  rewrite <- Hl in Hc. rewrite app_assoc in Hc.
  rewrite <- length_app in Hc.
  rewrite app_nth2 in Hc by lia. rewrite Nat.sub_diag in Hc.
  destruct rest as [|c rest]; [discriminate|].
  simpl in Hc. subst c. exists pre, rest. reflexivity.
Qed.

Lemma find_in_records_none_iff recs key : forall pos,
  find_in_records recs key pos = None
  <-> Forall (fun r => env_matches r key = false) recs.
Proof.
  intros pos. split; [apply find_in_records_None|].
  revert pos. induction recs as [|r recs IH]; intros pos H; [reflexivity|].
  inversion H as [|? ? Hr Hrest]; subst. simpl. rewrite Hr. apply IH, Hrest.
Qed.

(** The first equal sign of a string. *)
Lemma strstr_char c : forall s,
  match strstr s [c] with
  | Some i => exists pre, s = pre ++ c :: skipn (S i) s
                          /\ length pre = i /\ ~ In c pre
  | None => ~ In c s
  end.
Proof.
  induction s as [|b s IH]; rewrite strstr_unfold.
  - simpl. auto.
  - rewrite starts_with_cons. destruct (Ascii.eqb_spec c b) as [->|Hne].
    + exists []. simpl. auto.
    + destruct (strstr s [c]) as [j|]; simpl.
      * destruct IH as (pre & E & Hl & Hn).
        exists (b :: pre). simpl. split; [f_equal; exact E|].
        split; [f_equal; exact Hl|]. intros [H|H]; [congruence|auto].
      * intros [H|H]; [congruence|auto].
Qed.

Section FindGet.

Context {B : Build}.

Lemma find_env_nil st :
  cur_using_data_addr st <> 0 -> find_env [] st = Some (None, st).
Proof.
  intros Hcur. unfold find_env, bind, gets, FLASH_ASSERT.
  destruct (Z.eqb_spec (cur_using_data_addr st) 0); [contradiction|reflexivity].
Qed.


(** X2.  On a detail part that holds records, [flash_get_env] returns
    without changing the module.  A value it returns is the text after the
    first equal sign of a record that holds the key with an equal sign after
    it; it returns [NULL] only when the key is empty or no record starts
    with the key and an equal sign; and it returns [value] when [key=value]
    is the first record that passes the test of [find_env]. *)
Theorem flash_get_env_lookup st recs key :
  holds_records st recs -> cur_using_data_addr st <> 0 ->
  exists v,
    flash_get_env key st = Some (v, st)
    /\ (forall s, v = Some s ->
          exists r pre a b,
            In r recs /\ r = pre ++ EQUAL_SIGN :: s /\ ~ In EQUAL_SIGN pre
            /\ r = a ++ key ++ EQUAL_SIGN :: b)
    /\ (v = None ->
          key = []
          \/ forall r post, In r recs -> r <> key ++ EQUAL_SIGN :: post)
    /\ (forall rs1 value rs2,
          recs = rs1 ++ record_of key value :: rs2 ->
          key <> [] -> has_equal_sign key = false ->
          Forall (fun r => env_matches r key = false) rs1 ->
          v = Some value).
Proof.
  intros Hrec Hcur. destruct key as [|c key].
  - exists None. split; [|split; [discriminate|split; [auto|]]].
    + unfold flash_get_env. mstep (find_env_nil st Hcur). reflexivity.
    + intros rs1 value rs2 _ Hk. congruence.
  - assert (Hkey : c :: key <> []) by discriminate.
    set (k := c :: key) in *.
    destruct (find_in_records recs k ENV_PARAM_PART_BYTE_SIZE)
      as [p|] eqn:Hfind.
    + destruct (find_in_records_Some _ _ _ _ Hfind)
        as (rs1 & r & rs2 & -> & -> & Hm & Hnone).
      destruct (env_matches_sound r _ Hm) as (a & b & Hr).
      pose proof (strstr_char EQUAL_SIGN r) as Hchar.
      destruct (strstr r [EQUAL_SIGN]) as [i|] eqn:Hi.
      2: { exfalso. apply Hchar. rewrite Hr, !in_app_iff. right. right.
           left. reflexivity. }
      destruct Hchar as (pre & Hpre & Hl & Hn).
      exists (Some (skipn (S i) r)).
      assert (Hrun : flash_get_env k st = Some (Some (skipn (S i) r), st)).
      { unfold flash_get_env.
        mstep (find_env_records st _ k Hrec Hcur Hkey).
        rewrite Hfind, bind_gets, (c_string_at_record st _ _ _ Hrec),
          bind_defined, Hi.
        reflexivity. }
      split; [exact Hrun|]. split; [|split; [discriminate|]].
      * intros s Hs. apply Some_inj in Hs. subst s.
        exists r, pre, a, b. split; [|auto].
        apply in_app_iff. right. left. reflexivity.
      * intros rs1' value rs2' Hsplit _ Heq Hnone'.
        pose proof (flash_get_env_record st rs1' k value rs2') as Hget.
        rewrite <- Hsplit in Hget.
        specialize (Hget Hrec Hcur Hkey Heq
                      (proj2 (find_in_records_none_iff rs1' k _) Hnone')).
        rewrite Hrun in Hget. apply Some_pair_inj in Hget. tauto.
    + exists None. split; [|split; [discriminate|split]].
      * unfold flash_get_env.
        mstep (find_env_records st _ k Hrec Hcur Hkey).
        rewrite Hfind. reflexivity.
      * intros _. right. intros r post Hin ->.
        apply find_in_records_None in Hfind.
        rewrite Forall_forall in Hfind. specialize (Hfind _ Hin).
        change (k ++ EQUAL_SIGN :: post) with (record_of k post) in Hfind.
        rewrite env_matches_record_of in Hfind. discriminate.
      * intros rs1 value rs2 -> _ _ _. exfalso.
        apply find_in_records_None in Hfind.
        apply Forall_app in Hfind. destruct Hfind as [_ Hf].
        inversion Hf as [|? ? Hm _]; subst.
        rewrite env_matches_record_of in Hm. discriminate.
Qed.

End FindGet.


Lemma flash_get_env_lookup_witness :
  exists v,
    flash_get_env (B := plain_build) (str "bcd")
      (plain_state [str "a=1"; str "bcd=xyz"])
    = Some (v, plain_state [str "a=1"; str "bcd=xyz"])
    /\ (forall s, v = Some s ->
          exists r pre a b,
            In r [str "a=1"; str "bcd=xyz"]
            /\ r = pre ++ EQUAL_SIGN :: s /\ ~ In EQUAL_SIGN pre
            /\ r = a ++ str "bcd" ++ EQUAL_SIGN :: b)
    /\ (v = None ->
          str "bcd" = []
          \/ forall r post,
               In r [str "a=1"; str "bcd=xyz"] ->
               r <> str "bcd" ++ EQUAL_SIGN :: post)
    /\ (forall rs1 value rs2,
          [str "a=1"; str "bcd=xyz"]
          = rs1 ++ record_of (str "bcd") value :: rs2 ->
          str "bcd" <> [] -> has_equal_sign (str "bcd") = false ->
          Forall (fun r => env_matches r (str "bcd") = false) rs1 ->
          v = Some value).
Proof.
  apply (flash_get_env_lookup (B := plain_build)
           (plain_state [str "a=1"; str "bcd=xyz"])
           [str "a=1"; str "bcd=xyz"] (str "bcd")).
  - apply plain_state_holds; [repeat constructor; discriminate|].
    vm_compute. reflexivity.
  - vm_compute. congruence.
Defined.

(** ** Appending, creating and deleting on a detail part that holds records *)

Lemma flat_records_mod4 recs : strlen (flat_map record_bytes recs) mod 4 = 0.
Proof.
  induction recs as [|r recs IH]; [reflexivity|].
  rewrite strlen_flat_map_cons, strlen_record_bytes.
  rewrite Z.add_mod, align4_mod, IH by lia. reflexivity.
Qed.

Lemma strlen_record_of key value :
  strlen (record_of key value) + 1 = strlen key + strlen value + 2.
Proof. unfold record_of. rewrite strlen_app, strlen_cons. lia. Qed.

Section StoreOps.

Context {B : Build}.

(** [write_env] on a record whose length fits 16 bits. *)
Lemma write_env_eq st key value :
  usable st -> strlen key + strlen value + 2 <= 65532 ->
  write_env key value st
  = if u32 (align4 (strlen key + strlen value + 2) + detail_size_of st)
       >=? env_total_size st
    then Some (FLASH_ENV_FULL, st)
    else match ram_store (env_cache st)
                 (ENV_PARAM_PART_BYTE_SIZE + detail_size_of st)
                 (record_bytes (record_of key value)) with
         | Some c' =>
             Some (FLASH_NO_ERR,
                   with_cache st
                     (word_bytes
                        (u32 (end_addr_of st
                              + align4 (strlen key + strlen value + 2)))
                      ++ skipn 4 c'))
         | None => None
         end.
Proof.
  intros Hus Hsize. pose proof (usable_cache st Hus) as Hlen.
  destruct Hus as (Hcur & Hstart & Htot & Hcache).
  unfold write_env.
  mstep (get_env_detail_size_eq st Hcur Hlen).
  mstep (flash_get_env_total_size_eq st Htot).
  rewrite env_storage_length_eq by exact Hsize.
  rewrite strlen_record_of.
  destruct (_ >=? _); [reflexivity|].
  rewrite <- strlen_record_of, format_env_str_eq, bind_defined.
  mstep (get_env_detail_size_eq st Hcur Hlen).
  unfold memcpy_to_cache. rewrite bind_bind, bind_gets.
  destruct (ram_store (env_cache st)
              (ENV_PARAM_PART_BYTE_SIZE + detail_size_of st)
              (record_bytes (record_of key value))) as [c'|] eqn:Hst;
    [|reflexivity].
  pose proof param_size_cases as Hp.
  assert (Hdr : 4 <= ENV_PARAM_PART_BYTE_SIZE + detail_size_of st)
    by (pose proof (u32_range (end_addr_of st - detail_addr_of st));
        unfold detail_size_of; lia).
  destruct (ram_store_keeps_word0 _ _ _ _ Hdr Hst) as [Hw0 Hl'].
  rewrite bind_bind, bind_defined, bind_modify.
  assert (Hlen' : 4 <= strlen (env_cache (with_cache st c')))
    by (cbn [env_cache with_cache]; lia).
  mstep (get_env_detail_end_addr_eq _ Hlen').
  rewrite (bind_run _ (set_env_detail_end_addr_eq (with_cache st c') _ Hlen')).
  unfold ret, end_addr_of. cbn [env_cache with_cache]. rewrite Hw0.
  reflexivity.
Qed.

Lemma detail_size_held st recs :
  holds_records st recs ->
  detail_size_of st = strlen (flat_map record_bytes recs)
  /\ ENV_PARAM_PART_BYTE_SIZE + detail_size_of st <= strlen (env_cache st)
  /\ 0 <= detail_size_of st /\ detail_size_of st mod 4 = 0.
Proof.
  intros (head & slack & Hc & Hh & Hd & _).
  pose proof (strlen_nonneg (flat_map record_bytes recs)).
  pose proof (strlen_nonneg slack).
  rewrite Hd, Hc, !strlen_app, Hh, flat_records_mod4. lia.
Qed.

Lemma align4_le n : n <= 65532 -> align4 n <= 65532.
Proof.
  intros Hn. pose proof (align4_bounds n). pose proof (align4_mod n) as Hm.
  destruct (Z_le_gt_dec (align4 n) 65532) as [|Hgt]; [assumption|exfalso].
  assert (E : align4 n = 65533 \/ align4 n = 65534 \/ align4 n = 65535) by lia.
  destruct E as [E|[E|E]]; rewrite E in Hm; discriminate.
Qed.

(** [write_env] on a record whose length fits the 16 bits of
    [env_str_length]. *)
Lemma write_env_on_records st recs key value :
  holds_records st recs -> usable st ->
  nul_free key -> nul_free value ->
  strlen key + strlen value + 2 <= 65532 ->
  strlen (env_cache st) + 65532 < 2 ^ 32 ->
  (align4 (strlen key + strlen value + 2) + detail_size_of st
   >= env_total_size st ->
   write_env key value st = Some (FLASH_ENV_FULL, st))
  /\ (align4 (strlen key + strlen value + 2) + detail_size_of st
      < env_total_size st ->
      ENV_PARAM_PART_BYTE_SIZE + detail_size_of st
      + align4 (strlen key + strlen value + 2) <= strlen (env_cache st) ->
      exists st',
        write_env key value st = Some (FLASH_NO_ERR, st')
        /\ holds_records st' (recs ++ [record_of key value])
        /\ end_addr_of st'
           = u32 (end_addr_of st + align4 (strlen key + strlen value + 2))
        /\ detail_size_of st'
           = detail_size_of st + align4 (strlen key + strlen value + 2)
        /\ only_cache_differs st st').
Proof.
  intros Hrec Hus Hnk Hnv Hsize Hbig.
  destruct (detail_size_held st recs Hrec) as (Hd & Hfit & Hd0 & _).
  pose proof (align4_le _ Hsize) as Hal.
  pose proof (align4_bounds (strlen key + strlen value + 2)) as Hab.
  pose proof (strlen_nonneg key). pose proof (strlen_nonneg value).
  pose proof param_size_cases as Hp.
  pose proof (write_env_eq st key value Hus Hsize) as Heq.
  rewrite u32_small in Heq by lia.
  split.
  - intros Hfull. rewrite Heq.
    destruct (Z.geb_spec (align4 (strlen key + strlen value + 2)
                          + detail_size_of st) (env_total_size st));
      [reflexivity|lia].
  - intros Hroom Hin.
    destruct (Z.geb_spec (align4 (strlen key + strlen value + 2)
                          + detail_size_of st) (env_total_size st));
      [lia|].
    assert (Hst : exists c',
              ram_store (env_cache st)
                (ENV_PARAM_PART_BYTE_SIZE + detail_size_of st)
                (record_bytes (record_of key value)) = Some c').
    { unfold ram_store.
      rewrite strlen_record_bytes, strlen_record_of.
      destruct (Z.leb_spec 0 (ENV_PARAM_PART_BYTE_SIZE + detail_size_of st));
        [|lia].
      destruct (Z.leb_spec (ENV_PARAM_PART_BYTE_SIZE + detail_size_of st
                            + align4 (strlen key + strlen value + 2))
                  (strlen (env_cache st))); [|lia].
      eexists. reflexivity. }
    destruct Hst as (c' & Hst). rewrite Hst in Heq.
    eexists. split; [exact Heq|].
    destruct (write_env_records st recs key value _ Hrec Hus Hsize Hnk Hnv Heq)
      as (Hrec' & c & Hc & Hlen).
    split; [exact Hrec'|].
    split; [rewrite end_addr_of_set; apply u32_idem|].
    split.
    + rewrite (proj1 (detail_size_held _ _ Hrec')), Hd.
      rewrite flat_map_app. cbn [flat_map].
      rewrite app_nil_r, strlen_app, strlen_record_bytes, strlen_record_of.
      reflexivity.
    + rewrite Hc. apply only_cache_differs_with_cache. exact Hlen.
Qed.

(** X3.  Appending: what [write_env] does with a record whose length fits
    the 16 bits of [env_str_length].  It returns [FLASH_ENV_FULL], the cache
    unchanged, exactly when the padded length added to the detail size
    reaches the total size; otherwise, the record fitting the cache, it
    stores the record behind the last one and moves the detail part end
    address forward by the padded length. *)
Theorem write_env_appends st recs key value :
  holds_records st recs -> usable st ->
  nul_free key -> nul_free value ->
  strlen key + strlen value + 2 <= 65532 ->
  strlen (env_cache st) + 65532 < 2 ^ 32 ->
  (align4 (strlen key + strlen value + 2) + detail_size_of st
   >= env_total_size st ->
   write_env key value st = Some (FLASH_ENV_FULL, st))
  /\ (align4 (strlen key + strlen value + 2) + detail_size_of st
      < env_total_size st ->
      ENV_PARAM_PART_BYTE_SIZE + detail_size_of st
      + align4 (strlen key + strlen value + 2) <= strlen (env_cache st) ->
      exists st',
        write_env key value st = Some (FLASH_NO_ERR, st')
        /\ holds_records st' (recs ++ [record_of key value])
        /\ end_addr_of st'
           = u32 (end_addr_of st + align4 (strlen key + strlen value + 2))
        /\ detail_size_of st'
           = detail_size_of st + align4 (strlen key + strlen value + 2)
        /\ only_cache_differs st st').
Proof. exact (write_env_on_records st recs key value). Qed.

(** X4.  In a build without the CRC word, on the cache of [total_size] bytes
    that [flash_env_init] allocates, [write_env] stays inside the cache
    whatever the record: it returns, with [FLASH_ENV_FULL] and the cache
    unchanged or with [FLASH_NO_ERR] and the record appended. *)
Theorem write_env_in_plain_cache st recs key value :
  crc_check = false ->
  holds_records st recs -> usable st ->
  nul_free key -> nul_free value ->
  strlen key + strlen value + 2 <= 65532 ->
  strlen (env_cache st) = env_total_size st ->
  env_total_size st mod 4 = 0 ->
  env_total_size st + 65532 < 2 ^ 32 ->
  write_env key value st = Some (FLASH_ENV_FULL, st)
  \/ exists st',
       write_env key value st = Some (FLASH_NO_ERR, st')
       /\ holds_records st' (recs ++ [record_of key value])
       /\ only_cache_differs st st'.
Proof.
  intros Hcrc Hrec Hus Hnk Hnv Hsize Hlen Hmod Hbig.
  destruct (detail_size_held st recs Hrec) as (Hd & Hfit & Hd0 & Hdm).
  pose proof (align4_mod (strlen key + strlen value + 2)) as Ham.
  assert (Hp : ENV_PARAM_PART_BYTE_SIZE = 4).
  { unfold ENV_PARAM_PART_BYTE_SIZE, ENV_PARAM_PART_WORD_SIZE.
    rewrite Hcrc. reflexivity. }
  destruct (write_env_on_records st recs key value Hrec Hus Hnk Hnv Hsize
              ltac:(lia)) as [Hfull Happ].
  destruct (Z_lt_ge_dec (align4 (strlen key + strlen value + 2)
                         + detail_size_of st) (env_total_size st))
    as [Hlt|Hge].
  - right.
    assert (Hin : ENV_PARAM_PART_BYTE_SIZE + detail_size_of st
                  + align4 (strlen key + strlen value + 2)
                  <= strlen (env_cache st)).
    { rewrite Hp, Hlen.
      pose proof (Z.div_mod (align4 (strlen key + strlen value + 2)) 4
                    ltac:(lia)).
      pose proof (Z.div_mod (detail_size_of st) 4 ltac:(lia)).
      pose proof (Z.div_mod (env_total_size st) 4 ltac:(lia)).
      lia. }
    destruct (Happ Hlt Hin) as (st' & Hrun & Hrec' & _ & _ & Hsame).
    exists st'. auto.
  - left. apply Hfull. lia.
Qed.

(** X5.  In a build with the CRC word the capacity test of [write_env]
    leaves the 8 bytes of the parameters part out: when the record brings
    the detail part to within 8 bytes of the total size, [write_env] takes
    the record and writes it past the end of the cache of [total_size]
    bytes. *)
Theorem write_env_overruns_crc_cache st recs key value :
  crc_check = true ->
  holds_records st recs -> usable st ->
  strlen key + strlen value + 2 <= 65532 ->
  strlen (env_cache st) = env_total_size st ->
  env_total_size st + 65532 < 2 ^ 32 ->
  env_total_size st - 8
  < align4 (strlen key + strlen value + 2) + detail_size_of st
  < env_total_size st ->
  write_env key value st = None.
Proof.
  intros Hcrc Hrec Hus Hsize Hlen Hbig Hnear.
  destruct (detail_size_held st recs Hrec) as (Hd & Hfit & Hd0 & Hdm).
  pose proof (align4_le _ Hsize) as Hal.
  pose proof (align4_bounds (strlen key + strlen value + 2)) as Hab.
  pose proof (strlen_nonneg key). pose proof (strlen_nonneg value).
  assert (Hp : ENV_PARAM_PART_BYTE_SIZE = 8).
  { unfold ENV_PARAM_PART_BYTE_SIZE, ENV_PARAM_PART_WORD_SIZE.
    rewrite Hcrc. reflexivity. }
  rewrite (write_env_eq st key value Hus Hsize).
  rewrite u32_small by lia.
  destruct (Z.geb_spec (align4 (strlen key + strlen value + 2)
                        + detail_size_of st) (env_total_size st)); [lia|].
  unfold ram_store. rewrite strlen_record_bytes, strlen_record_of.
  destruct (Z.leb_spec (ENV_PARAM_PART_BYTE_SIZE + detail_size_of st
                        + align4 (strlen key + strlen value + 2))
              (strlen (env_cache st))); [lia|].
  rewrite andb_false_r. reflexivity.
Qed.

Lemma find_in_records_In recs key pos r :
  In r recs -> env_matches r key = true ->
  find_in_records recs key pos <> None.
Proof.
  intros Hin Hm Hnone. apply find_in_records_None in Hnone.
  rewrite Forall_forall in Hnone. rewrite (Hnone _ Hin) in Hm. discriminate.
Qed.

Lemma no_match_of_no_occurrence recs key :
  (forall r a b, In r recs -> r <> a ++ key ++ EQUAL_SIGN :: b) ->
  Forall (fun r => env_matches r key = false) recs.
Proof.
  intros H. apply Forall_forall. intros r Hin.
  destruct (env_matches r key) eqn:Hm; [|reflexivity].
  destruct (env_matches_sound r key Hm) as (a & b & E).
  exfalso. exact (H r a b Hin E).
Qed.

(** X6.  What [create_env] turns down.  An empty name and a name with an
    equal sign get [FLASH_ENV_NAME_ERR]; the name of a stored variable gets
    [FLASH_ENV_NAME_EXIST]; whenever the code returned is not [FLASH_NO_ERR]
    the module is as it was; and once [create_env] has stored a variable,
    creating it again, with any value, gets [FLASH_ENV_NAME_EXIST]. *)
Theorem create_env_rejects st recs key value :
  holds_records st recs -> usable st ->
  (key = [] \/ has_equal_sign key = true ->
   create_env key value st = Some (FLASH_ENV_NAME_ERR, st))
  /\ (forall v0,
        key <> [] -> has_equal_sign key = false ->
        In (record_of key v0) recs ->
        create_env key value st = Some (FLASH_ENV_NAME_EXIST, st))
  /\ (forall r st',
        create_env key value st = Some (r, st') ->
        r <> FLASH_NO_ERR -> st' = st)
  /\ (forall st' value',
        nul_free key -> nul_free value ->
        create_env key value st = Some (FLASH_NO_ERR, st') ->
        create_env key value' st' = Some (FLASH_ENV_NAME_EXIST, st')).
Proof.
  intros Hrec Hus. split; [|split; [|split]].
  - intros [->|Heq]; [reflexivity|].
    unfold create_env. destruct key; [reflexivity|]. rewrite Heq. reflexivity.
  - intros v0 Hkey Heq Hin. unfold create_env.
    destruct key as [|c key]; [congruence|]. rewrite Heq.
    mstep (find_env_records st _ (c :: key) Hrec (proj1 Hus) Hkey).
    pose proof (find_in_records_In recs (c :: key) ENV_PARAM_PART_BYTE_SIZE _
                  Hin (env_matches_record_of _ _)) as Hf.
    destruct (find_in_records recs (c :: key) ENV_PARAM_PART_BYTE_SIZE);
      [reflexivity|congruence].
  - intros r st' Hrun Hr. unfold create_env in Hrun.
    destruct key as [|c key]; [pinj Hrun; reflexivity|].
    destruct (has_equal_sign (c :: key)); [pinj Hrun; reflexivity|].
    assert (Hkey : c :: key <> []) by discriminate.
    mstep_in (find_env_records st _ (c :: key) Hrec (proj1 Hus) Hkey) Hrun.
    destruct (find_in_records recs (c :: key) ENV_PARAM_PART_BYTE_SIZE);
      [pinj Hrun; reflexivity|].
    destruct (write_env_run st _ _ _ _ Hus Hrun)
      as [(_ & _ & ->)|(_ & -> & _)]; [reflexivity|congruence].
  - intros st' value' Hnk Hnv Hrun.
    assert (Hkey : key <> []).
    { intros ->. discriminate Hrun. }
    assert (Heq : has_equal_sign key = false).
    { unfold create_env in Hrun. destruct key as [|c key]; [congruence|].
      destruct (has_equal_sign (c :: key)); [discriminate|reflexivity]. }
    destruct (create_then_get st recs key value st' Hrec Hus Hkey Heq Hnk Hnv
                Hrun) as [_ Hrec'].
    assert (Hcur' : cur_using_data_addr st' <> 0).
    { unfold create_env in Hrun. destruct key as [|c key]; [congruence|].
      rewrite Heq in Hrun.
      mstep_in (find_env_records st _ (c :: key) Hrec (proj1 Hus) Hkey) Hrun.
      destruct (find_in_records recs (c :: key) ENV_PARAM_PART_BYTE_SIZE);
        [discriminate|].
      destruct (write_env_run st _ _ _ _ Hus Hrun)
        as [(_ & Hr & _)|(_ & _ & e & c' & _ & _ & ->)]; [discriminate|].
      exact (proj1 Hus). }
    unfold create_env. destruct key as [|c key]; [congruence|]. rewrite Heq.
    mstep (find_env_records st' _ (c :: key) Hrec' Hcur' Hkey).
    assert (Hin : In (record_of (c :: key) value)
                    (recs ++ [record_of (c :: key) value]))
      by (apply in_app_iff; right; left; reflexivity).
    pose proof (find_in_records_In _ (c :: key) ENV_PARAM_PART_BYTE_SIZE _
                  Hin (env_matches_record_of _ _)) as Hf.
    destruct (find_in_records (recs ++ [record_of (c :: key) value])
                (c :: key) ENV_PARAM_PART_BYTE_SIZE);
      [reflexivity|congruence].
Qed.

Lemma ram_load_strlen ram p n l :
  ram_load ram p n = Some l -> strlen l = n.
Proof.
  unfold ram_load.
  destruct (Z.leb_spec 0 p); [|discriminate].
  destruct (Z.leb_spec 0 n); [|discriminate].
  destruct (Z.leb_spec (p + n) (strlen ram)); [|discriminate].
  cbn [andb]. intros E. apply Some_inj in E. subst l.
  unfold strlen in *. rewrite length_firstn, length_skipn. lia.
Qed.

Lemma find_first_match rs1 rec rs2 key :
  Forall (fun r => env_matches r key = false) rs1 ->
  env_matches rec key = true ->
  find_in_records (rs1 ++ rec :: rs2) key ENV_PARAM_PART_BYTE_SIZE
  = Some (ENV_PARAM_PART_BYTE_SIZE + strlen (flat_map record_bytes rs1)).
Proof.
  intros Hnone Hm.
  rewrite find_in_records_app
    by (apply find_in_records_none_iff; exact Hnone).
  cbn [find_in_records]. rewrite Hm. reflexivity.
Qed.

(** [flash_del_env] at the first record that passes the test of
    [find_env], the record being no shorter than the parameters part. *)
Lemma flash_del_env_held st key rs1 rec rs2 :
  holds_records st (rs1 ++ rec :: rs2) -> usable st ->
  key <> [] -> has_equal_sign key = false ->
  Forall (fun r => env_matches r key = false) rs1 ->
  env_matches rec key = true ->
  ENV_PARAM_PART_BYTE_SIZE <= strlen (record_bytes rec) ->
  flash_del_env key st
  = if detail_size_of st + strlen (record_bytes rec)
       <=? strlen (env_cache st)
    then match ram_load (env_cache st)
                 (ENV_PARAM_PART_BYTE_SIZE
                  + strlen (flat_map record_bytes rs1)
                  + strlen (record_bytes rec))
                 (strlen (record_bytes rec)
                  + strlen (flat_map record_bytes rs2)
                  - ENV_PARAM_PART_BYTE_SIZE) with
         | Some data =>
             Some (FLASH_NO_ERR,
                   with_cache st
                     (word_bytes (u32 (end_addr_of st
                                       - strlen (record_bytes rec)))
                      ++ skipn 4
                           (ram_splice (env_cache st)
                              (ENV_PARAM_PART_BYTE_SIZE
                               + strlen (flat_map record_bytes rs1)) data)))
         | None => None
         end
    else None.
Proof.
  intros Hrec Hus Hkey Heq Hnone Hm Hlong.
  pose proof (find_env_records st _ key Hrec (proj1 Hus) Hkey) as Hfe.
  rewrite (find_first_match rs1 rec rs2 key Hnone Hm) in Hfe.
  rewrite (flash_del_env_run st key _ Hus Hkey Heq Hfe).
  rewrite (c_string_at_record st rs1 rec rs2 Hrec).
  destruct (detail_size_held _ _ Hrec) as (Hd & Hfit & _ & _).
  rewrite flat_map_app, strlen_app, strlen_flat_map_cons in Hd.
  pose proof (strlen_nonneg (flat_map record_bytes rs1)) as HF1.
  pose proof (strlen_nonneg (flat_map record_bytes rs2)) as HF2.
  pose proof (strlen_nonneg rec) as Hrl.
  pose proof param_size_cases as Hp.
  destruct Hus as (Hcur & Hstart & Htot & Hcache).
  assert (HRl : strlen rec + 1 <= strlen (record_bytes rec))
    by (rewrite strlen_record_bytes; apply align4_bounds).
  rewrite del_length_eq by lia.
  set (R := strlen (record_bytes rec)) in *.
  set (F1 := strlen (flat_map record_bytes rs1)) in *.
  set (F2 := strlen (flat_map record_bytes rs2)) in *.
  assert (Hrem : u32 (detail_size_of st - (ENV_PARAM_PART_BYTE_SIZE + F1))
                 = R + F2 - ENV_PARAM_PART_BYTE_SIZE).
  { rewrite Hd.
    replace (F1 + (R + F2) - (ENV_PARAM_PART_BYTE_SIZE + F1))
      with (R + F2 - ENV_PARAM_PART_BYTE_SIZE) by lia.
    apply u32_small. lia. }
  rewrite Hrem.
  destruct (Z.leb_spec (detail_size_of st + R) (strlen (env_cache st)))
    as [Hin|Hout].
  - destruct (ram_load (env_cache st) (ENV_PARAM_PART_BYTE_SIZE + F1 + R)
                (R + F2 - ENV_PARAM_PART_BYTE_SIZE)) as [data|] eqn:Hload;
      [|reflexivity].
    pose proof (ram_load_strlen _ _ _ _ Hload) as Hdl.
    unfold ram_store. rewrite Hdl.
    destruct (Z.leb_spec 0 (ENV_PARAM_PART_BYTE_SIZE + F1)); [|lia].
    destruct (Z.leb_spec (ENV_PARAM_PART_BYTE_SIZE + F1
                          + (R + F2 - ENV_PARAM_PART_BYTE_SIZE))
                (strlen (env_cache st))); [|lia].
    cbn [andb].
    assert (Hst : ram_store (env_cache st) (ENV_PARAM_PART_BYTE_SIZE + F1) data
                  = Some (ram_splice (env_cache st)
                            (ENV_PARAM_PART_BYTE_SIZE + F1) data)).
    { unfold ram_store. rewrite Hdl.
      destruct (Z.leb_spec 0 (ENV_PARAM_PART_BYTE_SIZE + F1)); [|lia].
      destruct (Z.leb_spec (ENV_PARAM_PART_BYTE_SIZE + F1
                            + (R + F2 - ENV_PARAM_PART_BYTE_SIZE))
                  (strlen (env_cache st))); [|lia].
      reflexivity. }
    assert (Hp4 : 4 <= ENV_PARAM_PART_BYTE_SIZE + F1) by lia.
    destruct (ram_store_keeps_word0 _ _ _ _ Hp4 Hst) as [Hw0 Hl'].
    destruct (Z.leb_spec 4 (strlen (ram_splice (env_cache st)
                                      (ENV_PARAM_PART_BYTE_SIZE + F1) data)));
      [|lia].
    rewrite Hw0. reflexivity.
  - unfold ram_load.
    destruct (Z.leb_spec (ENV_PARAM_PART_BYTE_SIZE + F1 + R
                          + (R + F2 - ENV_PARAM_PART_BYTE_SIZE))
                (strlen (env_cache st))); [lia|].
    rewrite andb_false_r. reflexivity.
Qed.

(** What [flash_del_env] does when it stays inside the cache. *)
Lemma flash_del_env_held_run st key rs1 rec rs2 :
  holds_records st (rs1 ++ rec :: rs2) -> usable st ->
  key <> [] -> has_equal_sign key = false ->
  Forall (fun r => env_matches r key = false) rs1 ->
  env_matches rec key = true ->
  ENV_PARAM_PART_BYTE_SIZE <= strlen (record_bytes rec) ->
  detail_size_of st + strlen (record_bytes rec) <= strlen (env_cache st) ->
  exists st',
    flash_del_env key st = Some (FLASH_NO_ERR, st')
    /\ holds_records st' (rs1 ++ rs2)
    /\ end_addr_of st' = u32 (end_addr_of st - strlen (record_bytes rec))
    /\ detail_size_of st' = detail_size_of st - strlen (record_bytes rec)
    /\ only_cache_differs st st'.
Proof.
  intros Hrec Hus Hkey Heq Hnone Hm Hlong Hin.
  pose proof (flash_del_env_held st key rs1 rec rs2 Hrec Hus Hkey Heq Hnone
                Hm Hlong) as Hrun.
  destruct (detail_size_held _ _ Hrec) as (Hd & Hfit & _ & _).
  rewrite flat_map_app, strlen_app, strlen_flat_map_cons in Hd.
  pose proof (strlen_nonneg (flat_map record_bytes rs1)) as HF1.
  pose proof (strlen_nonneg (flat_map record_bytes rs2)) as HF2.
  pose proof param_size_cases as Hp.
  destruct (Z.leb_spec (detail_size_of st + strlen (record_bytes rec))
              (strlen (env_cache st))); [|lia].
  assert (Hl : exists data,
            ram_load (env_cache st)
              (ENV_PARAM_PART_BYTE_SIZE + strlen (flat_map record_bytes rs1)
               + strlen (record_bytes rec))
              (strlen (record_bytes rec) + strlen (flat_map record_bytes rs2)
               - ENV_PARAM_PART_BYTE_SIZE) = Some data).
  { unfold ram_load.
    destruct (Z.leb_spec 0 (ENV_PARAM_PART_BYTE_SIZE
                            + strlen (flat_map record_bytes rs1)
                            + strlen (record_bytes rec))); [|lia].
    destruct (Z.leb_spec 0 (strlen (record_bytes rec)
                            + strlen (flat_map record_bytes rs2)
                            - ENV_PARAM_PART_BYTE_SIZE)); [|lia].
    destruct (Z.leb_spec (ENV_PARAM_PART_BYTE_SIZE
                          + strlen (flat_map record_bytes rs1)
                          + strlen (record_bytes rec)
                          + (strlen (record_bytes rec)
                             + strlen (flat_map record_bytes rs2)
                             - ENV_PARAM_PART_BYTE_SIZE))
                (strlen (env_cache st))); [|lia].
    eexists. reflexivity. }
  destruct Hl as (data & Hl). rewrite Hl in Hrun.
  eexists. split; [exact Hrun|].
  destruct (flash_del_env_records st key rs1 rec rs2 _ _ Hrec Hus Hkey Heq
              (find_first_match rs1 rec rs2 key Hnone Hm) Hlong Hrun)
    as (_ & Hrec' & c & Hc & Hlen).
  split; [exact Hrec'|].
  split; [rewrite end_addr_of_set; apply u32_idem|].
  split.
  - rewrite (proj1 (detail_size_held _ _ Hrec')), Hd.
    rewrite flat_map_app, strlen_app. lia.
  - rewrite Hc. apply only_cache_differs_with_cache. exact Hlen.
Qed.

(** X8.  Deleting what is not there.  [flash_del_env] returns
    [FLASH_ENV_NAME_ERR] and leaves the module as it was for an empty name,
    for a name with an equal sign, and when no record holds the name with an
    equal sign after it; and whenever it returns, the code is
    [FLASH_NO_ERR], or it is [FLASH_ENV_NAME_ERR] and the module is as it
    was. *)
Theorem flash_del_env_absent st recs key :
  holds_records st recs -> usable st ->
  (key = [] \/ has_equal_sign key = true
   \/ (forall r a b, In r recs -> r <> a ++ key ++ EQUAL_SIGN :: b) ->
   flash_del_env key st = Some (FLASH_ENV_NAME_ERR, st))
  /\ (forall r st',
        flash_del_env key st = Some (r, st') ->
        r = FLASH_NO_ERR \/ (r = FLASH_ENV_NAME_ERR /\ st' = st)).
Proof.
  intros Hrec Hus. split.
  - intros Hcase. unfold flash_del_env.
    destruct key as [|c key]; [reflexivity|].
    destruct (has_equal_sign (c :: key)) eqn:Heq; [reflexivity|].
    destruct Hcase as [Hk|[Hk|Hno]]; try discriminate.
    assert (Hkey : c :: key <> []) by discriminate.
    mstep (find_env_records st _ (c :: key) Hrec (proj1 Hus) Hkey).
    rewrite (proj2 (find_in_records_none_iff recs (c :: key) _)
               (no_match_of_no_occurrence recs (c :: key) Hno)).
    reflexivity.
  - intros r st' Hrun.
    destruct key as [|c key]; [right; pinj Hrun; auto|].
    destruct (has_equal_sign (c :: key)) eqn:Heq.
    { unfold flash_del_env in Hrun. rewrite Heq in Hrun.
      right. pinj Hrun. auto. }
    assert (Hkey : c :: key <> []) by discriminate.
    pose proof (find_env_records st _ (c :: key) Hrec (proj1 Hus) Hkey) as Hfe.
    destruct (find_in_records recs (c :: key) ENV_PARAM_PART_BYTE_SIZE)
      as [p|] eqn:Hfind.
    + rewrite (flash_del_env_run st _ p Hus Hkey Heq Hfe) in Hrun.
      destruct (c_string_at (env_cache st) p) as [s|]; [|discriminate].
      destruct (ram_load _ _ _) as [data|]; [|discriminate].
      destruct (ram_store _ _ _) as [c'|]; [|discriminate].
      destruct (4 <=? strlen c'); [|discriminate].
      left. apply Some_pair_inj in Hrun. symmetry. tauto.
    + unfold flash_del_env in Hrun. rewrite Heq in Hrun.
      mstep_in Hfe Hrun. right. pinj Hrun. auto.
Qed.

(** X9.  Deleting a stored variable.  At the first record that passes the
    test of [find_env], when the record is no shorter than the parameters
    part and [detail_size + record length] does not pass the end of the
    cache, [flash_del_env] returns [FLASH_NO_ERR], the records before and
    after it are kept, in their order, and the detail part end address and
    the detail size go down by the padded length of the record. *)
Theorem flash_del_env_removes st key rs1 rec rs2 :
  holds_records st (rs1 ++ rec :: rs2) -> usable st ->
  key <> [] -> has_equal_sign key = false ->
  Forall (fun r => env_matches r key = false) rs1 ->
  env_matches rec key = true ->
  ENV_PARAM_PART_BYTE_SIZE <= strlen (record_bytes rec) ->
  detail_size_of st + strlen (record_bytes rec) <= strlen (env_cache st) ->
  exists st',
    flash_del_env key st = Some (FLASH_NO_ERR, st')
    /\ holds_records st' (rs1 ++ rs2)
    /\ end_addr_of st' = u32 (end_addr_of st - strlen (record_bytes rec))
    /\ detail_size_of st' = detail_size_of st - strlen (record_bytes rec)
    /\ only_cache_differs st st'.
Proof. apply flash_del_env_held_run. Qed.

(** X10.  The [memcpy] of [flash_del_env] reads [detail_size - offset] bytes
    from the end of the record, the offset being taken from the start of the
    cache: the last byte it reads is at [detail_size + record length].  When
    that passes the end of the cache, [flash_del_env] reads outside the
    cache. *)
Theorem flash_del_env_reads_past_cache st key rs1 rec rs2 :
  holds_records st (rs1 ++ rec :: rs2) -> usable st ->
  key <> [] -> has_equal_sign key = false ->
  Forall (fun r => env_matches r key = false) rs1 ->
  env_matches rec key = true ->
  ENV_PARAM_PART_BYTE_SIZE <= strlen (record_bytes rec) ->
  strlen (env_cache st) < detail_size_of st + strlen (record_bytes rec) ->
  flash_del_env key st = None.
Proof.
  intros Hrec Hus Hkey Heq Hnone Hm Hlong Hout.
  rewrite (flash_del_env_held st key rs1 rec rs2 Hrec Hus Hkey Heq Hnone Hm
             Hlong).
  destruct (Z.leb_spec (detail_size_of st + strlen (record_bytes rec))
              (strlen (env_cache st))); [lia|reflexivity].
Qed.

(** The used size [flash_get_env_used_size] reports is counted from the
    start address of the area: it is the detail size, plus the parameters
    part, plus the distance of the data section in use from the start
    address (modulo 2^32). *)
Theorem used_size_counts_from_start st :
  usable st ->
  flash_get_env_used_size st
  = Some (u32 (detail_size_of st + ENV_PARAM_PART_BYTE_SIZE
               + (cur_using_data_addr st - env_start_addr st)), st).
Proof.
  intros Hus. pose proof (usable_cache st Hus) as Hlen.
  destruct Hus as (Hcur & Hstart & Htot & Hcache).
  unfold flash_get_env_used_size.
  mstep (get_env_detail_end_addr_eq st Hlen).
  mstep (get_env_start_addr_eq st Hstart).
  unfold ret. do 2 f_equal.
  unfold detail_size_of, detail_addr_of, u32.
  rewrite <- Z.add_assoc, Zplus_mod_idemp_l.
  replace (end_addr_of st
           - (cur_using_data_addr st + ENV_PARAM_PART_BYTE_SIZE) mod 2 ^ 32
           + (ENV_PARAM_PART_BYTE_SIZE
              + (cur_using_data_addr st - env_start_addr st)))
    with (end_addr_of st + ENV_PARAM_PART_BYTE_SIZE
          + cur_using_data_addr st - env_start_addr st
          - (cur_using_data_addr st + ENV_PARAM_PART_BYTE_SIZE) mod 2 ^ 32)
    by lia.
  rewrite Zminus_mod_idemp_r. f_equal. lia.
Qed.

(** X11.  [flash_set_env] turns down an empty name and a name with an equal
    sign, whatever the value: it returns [FLASH_ENV_NAME_ERR] and leaves the
    module as it was. *)
Theorem flash_set_env_bad_name st recs key value :
  holds_records st recs -> usable st ->
  key = [] \/ has_equal_sign key = true ->
  flash_set_env key value st = Some (FLASH_ENV_NAME_ERR, st).
Proof.
  intros Hrec Hus Hbad.
  assert (Hdel : flash_del_env key st = Some (FLASH_ENV_NAME_ERR, st)).
  { unfold flash_del_env. destruct key as [|c key]; [reflexivity|].
    destruct Hbad as [Hk|Hk]; [discriminate|]. rewrite Hk. reflexivity. }
  assert (Hcreate : create_env key value st = Some (FLASH_ENV_NAME_ERR, st)).
  { unfold create_env. destruct key as [|c key]; [reflexivity|].
    destruct Hbad as [Hk|Hk]; [discriminate|]. rewrite Hk. reflexivity. }
  unfold flash_set_env. destruct value as [|v0 value]; [exact Hdel|].
  destruct key as [|c key].
  - mstep (find_env_nil st (proj1 Hus)). rewrite bind_ret. exact Hcreate.
  - assert (Hkey : c :: key <> []) by discriminate.
    mstep (find_env_records st _ (c :: key) Hrec (proj1 Hus) Hkey).
    destruct (find_in_records recs (c :: key) ENV_PARAM_PART_BYTE_SIZE).
    + mstep Hdel. reflexivity.
    + rewrite bind_ret. exact Hcreate.
Qed.


End StoreOps.

Lemma write_env_appends_witness :
  exists st',
    write_env (B := plain_build) (str "a") (str "1") (plain_state [])
    = Some (FLASH_NO_ERR, st')
    /\ holds_records (B := plain_build) st'
         ([] ++ [record_of (str "a") (str "1")])
    /\ end_addr_of st'
       = u32 (end_addr_of (plain_state [])
              + align4 (strlen (str "a") + strlen (str "1") + 2))
    /\ detail_size_of (B := plain_build) st'
       = detail_size_of (B := plain_build) (plain_state [])
         + align4 (strlen (str "a") + strlen (str "1") + 2)
    /\ only_cache_differs (plain_state []) st'.
Proof.
  refine (proj2 (write_env_appends (B := plain_build) (plain_state []) []
                   (str "a") (str "1") _ _ _ _ _ _) _ _).
  - apply plain_state_holds; [constructor|reflexivity].
  - apply plain_state_usable. vm_compute. congruence.
  - repeat constructor; discriminate.
  - repeat constructor; discriminate.
  - vm_compute. congruence.
  - vm_compute. reflexivity.
  - vm_compute. reflexivity.
  - vm_compute. congruence.
Defined.

Lemma write_env_in_plain_cache_witness :
  write_env (B := plain_build) (str "a") kilo_value (plain_state [])
  = Some (FLASH_ENV_FULL, plain_state [])
  \/ exists st',
       write_env (B := plain_build) (str "a") kilo_value (plain_state [])
       = Some (FLASH_NO_ERR, st')
       /\ holds_records (B := plain_build) st'
            ([] ++ [record_of (str "a") kilo_value])
       /\ only_cache_differs (plain_state []) st'.
Proof.
  apply (write_env_in_plain_cache (B := plain_build) (plain_state []) []
           (str "a") kilo_value).
  - reflexivity.
  - apply plain_state_holds; [constructor|reflexivity].
  - apply plain_state_usable. vm_compute. congruence.
  - repeat constructor; discriminate.
  - apply nul_free_repeat. discriminate.
  - vm_compute. congruence.
  - vm_compute. reflexivity.
  - reflexivity.
  - reflexivity.
Defined.

Lemma write_env_overruns_crc_cache_witness :
  write_env (B := crc_build) (str "a") (str "1") (crc_state [filler_record])
  = None.
Proof.
  apply (write_env_overruns_crc_cache (B := crc_build)
           (crc_state [filler_record]) [filler_record]).
  - reflexivity.
  - apply crc_state_holds; [|vm_compute; reflexivity].
    constructor; [|constructor]. apply Forall_app. split.
    + repeat constructor; discriminate.
    + apply nul_free_repeat. discriminate.
  - apply crc_state_usable. vm_compute. congruence.
  - vm_compute. congruence.
  - vm_compute. reflexivity.
  - reflexivity.
  - vm_compute. split; reflexivity.
Defined.

Lemma create_env_rejects_witness :
  create_env (B := plain_build) (str "a") (str "2")
    (plain_state [str "a=1"; str "bcd=xyz"])
  = Some (FLASH_ENV_NAME_EXIST, plain_state [str "a=1"; str "bcd=xyz"]).
Proof.
  refine (proj1 (proj2 (create_env_rejects (B := plain_build)
                          (plain_state [str "a=1"; str "bcd=xyz"])
                          [str "a=1"; str "bcd=xyz"] (str "a") (str "2")
                          two_records_held two_records_usable))
            (str "1") _ _ _).
  - discriminate.
  - reflexivity.
  - left. reflexivity.
Defined.

Lemma flash_del_env_absent_witness :
  flash_del_env (B := plain_build) (str "qq")
    (plain_state [str "a=1"; str "bcd=xyz"])
  = Some (FLASH_ENV_NAME_ERR, plain_state [str "a=1"; str "bcd=xyz"]).
Proof.
  refine (proj1 (flash_del_env_absent (B := plain_build)
                   (plain_state [str "a=1"; str "bcd=xyz"])
                   [str "a=1"; str "bcd=xyz"] (str "qq")
                   two_records_held two_records_usable) _).
  right. right. intros r a b Hin E.
  assert (Hz : In "q"%char r).
  { rewrite E. apply in_app_iff. right. left. reflexivity. }
  destruct Hin as [<-|[<-|[]]]; cbv in Hz;
    repeat (destruct Hz as [Hz|Hz]; [discriminate Hz|]); exact Hz.
Defined.

Lemma flash_del_env_removes_witness :
  exists st',
    flash_del_env (B := plain_build) (str "a")
      (plain_state [str "a=1"; str "bcd=xyz"])
    = Some (FLASH_NO_ERR, st')
    /\ holds_records (B := plain_build) st' ([] ++ [str "bcd=xyz"])
    /\ end_addr_of st'
       = u32 (end_addr_of (plain_state [str "a=1"; str "bcd=xyz"])
              - strlen (record_bytes (str "a=1")))
    /\ detail_size_of (B := plain_build) st'
       = detail_size_of (B := plain_build)
           (plain_state [str "a=1"; str "bcd=xyz"])
         - strlen (record_bytes (str "a=1"))
    /\ only_cache_differs (plain_state [str "a=1"; str "bcd=xyz"]) st'.
Proof.
  apply (flash_del_env_removes (B := plain_build)
           (plain_state [str "a=1"; str "bcd=xyz"]) (str "a")
           [] (str "a=1") [str "bcd=xyz"]).
  - exact two_records_held.
  - exact two_records_usable.
  - discriminate.
  - reflexivity.
  - constructor.
  - reflexivity.
  - vm_compute. congruence.
  - vm_compute. congruence.
Defined.

Lemma flash_del_env_reads_past_cache_witness :
  flash_del_env (B := plain_build) (str "k")
    (plain_state [str "k=" ++ wide_value])
  = None.
Proof.
  apply (flash_del_env_reads_past_cache (B := plain_build)
           (plain_state [str "k=" ++ wide_value]) (str "k")
           [] (str "k=" ++ wide_value) []).
  - apply plain_state_holds; [|vm_compute; reflexivity].
    constructor; [|constructor]. apply Forall_app. split.
    + repeat constructor; discriminate.
    + apply nul_free_repeat. discriminate.
  - apply plain_state_usable. vm_compute. congruence.
  - discriminate.
  - reflexivity.
  - constructor.
  - reflexivity.
  - vm_compute. congruence.
  - vm_compute. reflexivity.
Defined.

Lemma used_size_counts_from_start_witness :
  flash_get_env_used_size (plain_state [str "a=1"; str "bcd=xyz"])
  = Some (u32 (detail_size_of (B := plain_build)
                 (plain_state [str "a=1"; str "bcd=xyz"])
               + ENV_PARAM_PART_BYTE_SIZE (B := plain_build)
               + (cur_using_data_addr (plain_state [str "a=1"; str "bcd=xyz"])
                  - env_start_addr (plain_state [str "a=1"; str "bcd=xyz"]))),
          plain_state [str "a=1"; str "bcd=xyz"]).
Proof.
  apply (used_size_counts_from_start (B := plain_build)).
  exact two_records_usable.
Defined.

Lemma flash_set_env_bad_name_witness :
  flash_set_env (B := plain_build) (str "a=b") (str "1")
    (plain_state [str "a=1"; str "bcd=xyz"])
  = Some (FLASH_ENV_NAME_ERR, plain_state [str "a=1"; str "bcd=xyz"]).
Proof.
  apply (flash_set_env_bad_name (B := plain_build) _
           [str "a=1"; str "bcd=xyz"]).
  - exact two_records_held.
  - exact two_records_usable.
  - right. reflexivity.
Defined.


(** ** What a save leaves in the flash and in the cache *)

Lemma length_mem_load m a n : length (mem_load m a n) = Z.to_nat n.
Proof. unfold mem_load. rewrite length_map, length_seq. reflexivity. Qed.

Lemma nth_mem_load m a n i x :
  (i < Z.to_nat n)%nat -> nth i (mem_load m a n) x = m (a + Z.of_nat i).
Proof.
  intros Hi. unfold mem_load.
  rewrite (nth_indep _ x (m (a + Z.of_nat 0)))
    by (rewrite length_map, length_seq; exact Hi).
  rewrite (map_nth (fun i => m (a + Z.of_nat i))).
  rewrite seq_nth by exact Hi. reflexivity.
Qed.

Lemma mem_load_ext m1 m2 a n :
  (forall x, a <= x < a + n -> m1 x = m2 x) ->
  mem_load m1 a n = mem_load m2 a n.
Proof.
  intros H. unfold mem_load. apply map_ext_in. intros i Hi.
  apply in_seq in Hi. apply H. lia.
Qed.

Lemma mem_load_store_same m a data :
  mem_load (mem_store m a data) a (strlen data) = data.
Proof.
  apply (nth_ext _ _ ERASED ERASED).
  - rewrite length_mem_load. unfold strlen. lia.
  - intros i Hi. rewrite length_mem_load in Hi.
    rewrite nth_mem_load by exact Hi. unfold mem_store, strlen in *.
    destruct (Z.leb_spec a (a + Z.of_nat i)); [|lia].
    destruct (Z.ltb_spec (a + Z.of_nat i) (a + Z.of_nat (length data)));
      [|lia].
    cbn [andb]. f_equal. lia.
Qed.

Lemma mem_load_sub m a n k n2 :
  0 <= k -> 0 <= n2 -> k + n2 <= n ->
  mem_load m (a + k) n2
  = firstn (Z.to_nat n2) (skipn (Z.to_nat k) (mem_load m a n)).
Proof.
  intros Hk Hn2 Hle. apply (nth_ext _ _ ERASED ERASED).
  - rewrite length_firstn, length_skipn, !length_mem_load. lia.
  - intros i Hi. rewrite length_mem_load in Hi.
    rewrite nth_mem_load by exact Hi.
    rewrite nth_firstn. destruct (Nat.ltb_spec i (Z.to_nat n2)); [|lia].
    rewrite nth_skipn, nth_mem_load by lia. f_equal. lia.
Qed.

Lemma mem_load_store_other m a data b n :
  b + n <= a \/ a + strlen data <= b ->
  mem_load (mem_store m a data) b n = mem_load m b n.
Proof.
  intros Hd. apply mem_load_ext. intros x Hx. unfold mem_store.
  destruct (Z.leb_spec a x); [|reflexivity].
  destruct (Z.ltb_spec x (a + strlen data)); [lia|reflexivity].
Qed.

Lemma mem_load_erase_other m a size b n :
  b + n <= a \/ a + size <= b ->
  mem_load (mem_erase m a size) b n = mem_load m b n.
Proof.
  intros Hd. apply mem_load_ext. intros x Hx. unfold mem_erase.
  destruct (Z.leb_spec a x); [|reflexivity].
  destruct (Z.ltb_spec x (a + size)); [lia|reflexivity].
Qed.

Section Persist.

Context {B : Build}.

(** The CRC32 code covers the detail part end address and the detail part,
    not itself: once stored, it is the code of the cache it is stored in. *)
Lemma with_crc_valid st :
  crc_check = true -> 8 <= strlen (env_cache st) ->
  crc_of (with_crc st) = crc_of st
  /\ stored_crc_of (with_crc st) = crc_of st.
Proof.
  intros Hcc Hl.
  assert (Hp : ENV_PARAM_PART_BYTE_SIZE = 8)
    by (unfold ENV_PARAM_PART_BYTE_SIZE, ENV_PARAM_PART_WORD_SIZE;
        rewrite Hcc; reflexivity).
  assert (Hc : env_cache (with_crc st)
               = firstn 4 (env_cache st) ++ word_bytes (crc_of st)
                 ++ skipn 8 (env_cache st))
    by (unfold with_crc; rewrite Hcc; reflexivity).
  assert (Hf4 : length (firstn 4 (env_cache st)) = 4%nat)
    by (rewrite length_firstn; unfold strlen in Hl; lia).
  assert (Hw0 : firstn 4 (env_cache (with_crc st)) = firstn 4 (env_cache st)).
  { rewrite Hc, firstn_app, Hf4, firstn_firstn. cbn [Nat.sub firstn Nat.min].
    apply app_nil_r. }
  assert (Hcur : cur_using_data_addr (with_crc st) = cur_using_data_addr st)
    by apply with_crc_fields.
  assert (Hds : detail_size_of (with_crc st) = detail_size_of st).
  { unfold detail_size_of, end_addr_of, detail_addr_of.
    rewrite Hw0, Hcur. reflexivity. }
  split.
  - unfold crc_of. rewrite Hw0, Hds, Hp. do 3 f_equal.
    rewrite Hc. change (Z.to_nat 8) with 8%nat.
    rewrite skipn_app, Hf4.
    rewrite (skipn_all2 (firstn 4 (env_cache st))) by lia.
    cbn [Nat.sub app]. reflexivity.
  - unfold stored_crc_of. rewrite Hc.
    rewrite skipn_app, Hf4, skipn_all2 by lia.
    rewrite Nat.sub_diag, skipn_O. cbn [app].
    change (firstn 4 (word_bytes (crc_of st) ++ skipn 8 (env_cache st)))
      with (word_bytes (crc_of st)).
    rewrite bytes_word_word_bytes. unfold crc_of at 1. apply u32_idem.
Qed.

(** The detail part of the cache after a turn of the save loop. *)
Lemma turn_result_tail d st x st' :
  turn_result d st = (x, st') ->
  ENV_PARAM_PART_BYTE_SIZE <= strlen (env_cache st) ->
  cache_tail st' = cache_tail st.
Proof.
  intros Ht Hl. unfold cache_tail.
  assert (Hcrc : skipn (Z.to_nat ENV_PARAM_PART_BYTE_SIZE)
                   (env_cache (with_crc st))
                 = skipn (Z.to_nat ENV_PARAM_PART_BYTE_SIZE) (env_cache st)).
  { unfold with_crc, ENV_PARAM_PART_BYTE_SIZE, ENV_PARAM_PART_WORD_SIZE in *.
    destruct crc_check; [|reflexivity].
    cbn [env_cache with_cache]. change (Z.to_nat (2 * 4)) with 8%nat.
    assert (Hf4 : length (firstn 4 (env_cache st)) = 4%nat)
      by (rewrite length_firstn; unfold strlen in Hl; lia).
    rewrite skipn_app, Hf4, skipn_all2 by lia. reflexivity. }
  assert (Hrel : forall s,
            strlen (env_cache s) = strlen (env_cache st) ->
            skipn (Z.to_nat ENV_PARAM_PART_BYTE_SIZE)
              (env_cache (relocated d s))
            = skipn (Z.to_nat ENV_PARAM_PART_BYTE_SIZE) (env_cache s)).
  { intros s Hs. unfold relocated. cbn [env_cache with_cache with_cur].
    pose proof param_size_cases as Hp.
    change (word_bytes ?w ++ ?l) with
      (firstn 4 (word_bytes w ++ l) ++ l).
    replace (Z.to_nat ENV_PARAM_PART_BYTE_SIZE)
      with (Z.to_nat ENV_PARAM_PART_BYTE_SIZE - 4 + 4)%nat by lia.
    rewrite <- (skipn_skipn (Z.to_nat ENV_PARAM_PART_BYTE_SIZE - 4) 4
                  (env_cache s)).
    rewrite <- skipn_skipn. f_equal. }
  unfold turn_result in Ht.
  destruct (fst (dev_erase _ _ _)).
  2: { apply Some_pair_inj' in Ht. destruct Ht as [_ <-].
       rewrite Hrel; [exact Hcrc|].
       cbn [env_cache with_flash]. apply with_crc_cache, Hl. }
  all: destruct (fst (dev_write _ _ _));
    apply Some_pair_inj' in Ht; destruct Ht as [_ <-];
    try exact Hcrc;
    (rewrite Hrel; [exact Hcrc|]);
    cbn [env_cache with_flash]; apply with_crc_cache, Hl.
Qed.

Lemma ram_load_split ram p n l :
  ram_load ram p n = Some l ->
  ram = firstn (Z.to_nat p) ram ++ l ++ skipn (Z.to_nat (p + n)) ram
  /\ strlen (firstn (Z.to_nat p) ram) = p.
Proof.
  unfold ram_load.
  destruct (Z.leb_spec 0 p); [|discriminate].
  destruct (Z.leb_spec 0 n); [|discriminate].
  destruct (Z.leb_spec (p + n) (strlen ram)); [|discriminate].
  cbn [andb]. intros E. apply Some_inj in E. subst l. split.
  - rewrite <- (firstn_skipn (Z.to_nat p) ram) at 1. f_equal.
    rewrite <- (firstn_skipn (Z.to_nat n) (skipn (Z.to_nat p) ram)) at 1.
    f_equal. rewrite skipn_skipn. f_equal. lia.
  - unfold strlen in *. rewrite length_firstn. lia.
Qed.

Lemma find_app_none {A} (f : A -> bool) l1 l2 :
  Forall (fun x => f x = false) l1 -> find f (l1 ++ l2) = find f l2.
Proof.
  induction 1 as [|x l1 Hx _ IH]; [reflexivity|].
  cbn [app find]. rewrite Hx. exact IH.
Qed.

Lemma find_none {A} (f : A -> bool) l :
  Forall (fun x => f x = false) l -> find f l = None.
Proof.
  induction 1 as [|x l Hx _ IH]; [reflexivity|].
  cbn [find]. rewrite Hx. exact IH.
Qed.

Lemma find_app_some {A} (f : A -> bool) l1 l2 x :
  find f l1 = Some x -> find f (l1 ++ l2) = Some x.
Proof.
  induction l1 as [|y l1 IH]; [discriminate|].
  cbn [app find]. destruct (f y); [auto|exact IH].
Qed.

Lemma lookup_records_app recs r k v :
  lookup_records recs k = Some v -> lookup_records (recs ++ [r]) k = Some v.
Proof.
  unfold lookup_records. destruct k as [|c k]; [discriminate|].
  destruct (find (fun r0 => env_matches r0 (c :: k)) recs) as [r0|] eqn:Hf;
    [|discriminate].
  rewrite (find_app_some _ _ _ _ Hf). auto.
Qed.

(** [flash_get_env] on a detail part that holds records. *)
Lemma flash_get_env_eq st recs key :
  holds_records st recs -> cur_using_data_addr st <> 0 ->
  flash_get_env key st = Some (lookup_records recs key, st).
Proof.
  intros Hrec Hcur. unfold flash_get_env, lookup_records.
  destruct key as [|c key].
  { mstep (find_env_nil st Hcur). reflexivity. }
  assert (Hkey : c :: key <> []) by discriminate.
  mstep (find_env_records st _ (c :: key) Hrec Hcur Hkey).
  destruct (find_in_records recs (c :: key) ENV_PARAM_PART_BYTE_SIZE)
    as [p|] eqn:Hfind.
  - destruct (find_in_records_Some _ _ _ _ Hfind)
      as (rs1 & r & rs2 & -> & -> & Hm & Hnone).
    rewrite bind_gets, (c_string_at_record st _ _ _ Hrec), bind_defined.
    rewrite find_app_none by (eapply find_in_records_None; exact Hnone).
    cbn [find]. rewrite Hm.
    destruct (strstr r [EQUAL_SIGN]); reflexivity.
  - rewrite find_none by (eapply find_in_records_None; exact Hfind).
    reflexivity.
Qed.

(** A cache with the same detail part and detail size holds the same
    records. *)
Lemma holds_records_tail st st' recs :
  holds_records st recs ->
  cache_tail st' = cache_tail st ->
  detail_size_of st' = detail_size_of st ->
  strlen (env_cache st') = strlen (env_cache st) ->
  holds_records st' recs.
Proof.
  intros (head & slack & Hc & Hh & Hd & Hnf) Htail Hds Hlen.
  pose proof param_size_cases as Hp.
  exists (firstn (Z.to_nat ENV_PARAM_PART_BYTE_SIZE) (env_cache st')), slack.
  assert (Ht : cache_tail st = flat_map record_bytes recs ++ slack).
  { unfold cache_tail. rewrite Hc, skipn_app.
    replace (Z.to_nat ENV_PARAM_PART_BYTE_SIZE) with (length head)
      by (unfold strlen in Hh; lia).
    rewrite skipn_all, Nat.sub_diag. reflexivity. }
  split; [|split; [|split]].
  - rewrite <- Ht, <- Htail. unfold cache_tail.
    symmetry. apply firstn_skipn.
  - unfold strlen in *. rewrite length_firstn.
    rewrite Hc, !length_app in Hlen. lia.
  - congruence.
  - exact Hnf.
Qed.

(** A turn that breaks the loop has erased the data section and written
    the cache to it. *)
Lemma save_env_turn_break d st r st' :
  save_env_turn d st = Some ((BREAK, r), st') ->
  r = FLASH_NO_ERR
  /\ u32 (ENV_PARAM_PART_BYTE_SIZE + d) <= strlen (env_cache (with_crc st))
  /\ env_cache st' = env_cache (with_crc st)
  /\ cur_using_data_addr st' = cur_using_data_addr st
  /\ flash_mem (flash st')
     = mem_store
         (mem_erase (flash_mem (flash st)) (cur_using_data_addr st)
            (u32 (ENV_PARAM_PART_BYTE_SIZE + d)))
         (cur_using_data_addr st)
         (firstn (Z.to_nat (u32 (ENV_PARAM_PART_BYTE_SIZE + d)))
            (env_cache (with_crc st))).
Proof.
  unfold save_env_turn. intros H. binv H.
  apply cache_crc_inv in Ha. subst s.
  destruct (with_crc_fields st) as (Hcur & Hfl & _).
  binv H. apply get_cur_using_data_addr_inv in Ha.
  destruct Ha as (-> & -> & Hc). rewrite Hcur in *.
  unfold flash_erase at 1 in H. unfold bind at 1 in H. rewrite Hfl in H.
  unfold dev_erase in H.
  destruct (dev_faults (flash st) (length (dev_log (flash st)))
              (OpErase (cur_using_data_addr st)
                 (u32 (ENV_PARAM_PART_BYTE_SIZE + d)))).
  - binv H. apply Some_pair_inj in H. destruct H as [H _]. discriminate H.
  - binv H. apply get_cur_using_data_addr_inv in Ha.
    destruct Ha as (-> & -> & _).
    rewrite bind_gets in H.
    cbn [cur_using_data_addr env_cache with_flash] in H. rewrite Hcur in H.
    destruct (ram_load (env_cache (with_crc st)) 0
                (u32 (ENV_PARAM_PART_BYTE_SIZE + d))) as [data|] eqn:Hld;
      [|discriminate].
    rewrite bind_defined in H.
    apply (ram_load_inv_app []) in Hld. destruct Hld as [-> Hsz].
    unfold flash_write at 1 in H. unfold bind at 1 in H.
    unfold dev_write in H. cbn [flash with_flash dev_faults dev_log] in H.
    match type of H with
    | context [if ?c then _ else _] => destruct c
    end.
    + binv H. apply Some_pair_inj in H. destruct H as [H _]. discriminate H.
    + apply Some_pair_inj in H. destruct H as [Hr <-].
      injection Hr as <-.
      cbn [flash env_cache cur_using_data_addr with_flash flash_mem].
      rewrite Hcur. repeat split; try reflexivity. lia.
Qed.

(** When the loop of [flash_save_env] ends where the data section fits,
    its last turn has written the data section. *)
Lemma save_env_loop_saved fuel : forall r0 st r st',
  save_env_loop fuel (detail_size_of st) r0 st = Some (r, st') ->
  ENV_PARAM_PART_BYTE_SIZE + detail_size_of st <= strlen (env_cache st) ->
  strlen (env_cache st) < 2 ^ 32 ->
  cache_tail st' = cache_tail st
  /\ detail_size_of st' = detail_size_of st
  /\ strlen (env_cache st') = strlen (env_cache st)
  /\ (fits_of (detail_size_of st) st' = true ->
      r = FLASH_NO_ERR /\ data_section_saved st'
      /\ (crc_check = true -> crc_of st' = stored_crc_of st')).
Proof.
  induction fuel as [|fuel IH]; intros r0 st r st' H Hfit Hlt.
  - simpl in H. binv H. apply data_section_fits_inv in Ha.
    destruct Ha as (-> & -> & _).
    destruct (fits_of (detail_size_of st) st) eqn:Hf; [discriminate|].
    pinj H. repeat split; congruence.
  - rewrite save_env_loop_S in H. binv H. apply data_section_fits_inv in Ha.
    destruct Ha as (-> & -> & _).
    destruct (fits_of (detail_size_of st) st) eqn:Hf;
      [|pinj H; repeat split; congruence].
    assert (Hd0 : 0 <= detail_size_of st)
      by (unfold detail_size_of; apply u32_range).
    pose proof param_size_cases as Hp.
    assert (Hl : ENV_PARAM_PART_BYTE_SIZE <= strlen (env_cache st)) by lia.
    binv H. destruct a as [ctl r1].
    pose proof Ha as Hturn.
    apply save_env_turn_inv in Ha. symmetry in Ha.
    pose proof (turn_result_tail _ _ _ _ Ha Hl) as Htail.
    destruct (turn_result_facts _ st ctl r1 s Ha Hl)
      as ((_ & _ & _ & _ & Hlen & _ & Hds) & _ & _).
    destruct ctl.
    + rewrite <- Hds in H.
      assert (Hfit1 : ENV_PARAM_PART_BYTE_SIZE + detail_size_of s
                      <= strlen (env_cache s)) by lia.
      assert (Hlt1 : strlen (env_cache s) < 2 ^ 32) by lia.
      destruct (IH r1 s r st' H Hfit1 Hlt1) as (Ht' & Hd' & Hl' & Hsaved).
      rewrite Hds in Hsaved.
      repeat split; try congruence; apply Hsaved; assumption.
    + pinj H.
      destruct (save_env_turn_break _ _ _ _ Hturn)
        as (-> & Hsz & Hcache & Hcur & Hmem).
      split; [exact Htail|]. split; [exact Hds|]. split; [exact Hlen|].
      intros _. split; [reflexivity|].
      destruct (with_crc_cache st Hl) as [_ Hlc].
      split.
      * unfold data_section_saved. rewrite Hds, Hmem, Hcache, Hcur.
        set (n := ENV_PARAM_PART_BYTE_SIZE + detail_size_of st) in *.
        rewrite (u32_small n) by lia.
        assert (Hd : strlen (firstn (Z.to_nat n) (env_cache (with_crc st)))
                     = n).
        { unfold strlen in *. rewrite length_firstn. lia. }
        rewrite <- Hd at 3. apply mem_load_store_same.
      * intros Hcc. unfold crc_of, stored_crc_of, detail_size_of, end_addr_of,
          detail_addr_of. rewrite Hcache, Hcur.
        assert (Hl8 : 8 <= strlen (env_cache st)).
        { unfold ENV_PARAM_PART_BYTE_SIZE, ENV_PARAM_PART_WORD_SIZE in Hl.
          rewrite Hcc in Hl. lia. }
        destruct (with_crc_valid st Hcc Hl8) as [Hv1 Hv2].
        destruct (with_crc_fields st) as (Hcur' & _).
        unfold crc_of, stored_crc_of, detail_size_of, end_addr_of,
          detail_addr_of in Hv1, Hv2.
        rewrite Hcur' in Hv1. rewrite Hv1, Hv2. reflexivity.
Qed.

(** [save_cur_using_data_addr] touches the four bytes of the System
    Section only. *)
Lemma save_cur_using_data_addr_mem a st x st' :
  save_cur_using_data_addr a st = Some (x, st') ->
  env_cache st' = env_cache st
  /\ cur_using_data_addr st' = cur_using_data_addr st
  /\ forall b n,
       b + n <= env_start_addr st \/ env_start_addr st + 4 <= b ->
       mem_load (flash_mem (flash st')) b n
       = mem_load (flash_mem (flash st)) b n.
Proof.
  unfold save_cur_using_data_addr. intros H. binv H.
  apply get_env_start_addr_inv in Ha. destruct Ha as (-> & -> & Hs).
  unfold flash_erase at 1 in H. unfold bind at 1 in H.
  unfold dev_erase in H.
  destruct (dev_faults (flash st) (length (dev_log (flash st)))
              (OpErase (env_start_addr st) 4)).
  - pinj H. repeat split.
  - binv H. apply get_env_start_addr_inv in Ha. destruct Ha as (-> & -> & _).
    unfold flash_write, dev_write in H.
    cbn [flash with_flash dev_faults dev_log env_start_addr] in H.
    match type of H with
    | context [if ?c then _ else _] => destruct c
    end; pinj H; (split; [reflexivity|]); (split; [reflexivity|]);
      intros b n Hdis; cbn [flash with_flash flash_mem].
    + apply mem_load_erase_other. exact Hdis.
    + rewrite mem_load_store_other
        by (rewrite strlen_word_bytes; exact Hdis).
      apply mem_load_erase_other. exact Hdis.
Qed.

(** What [flash_save_env] leaves when it returns [FLASH_NO_ERR]. *)
Lemma flash_save_env_saved fuel st r st' :
  flash_save_env fuel st = Some (r, st') ->
  ENV_PARAM_PART_BYTE_SIZE + detail_size_of st <= strlen (env_cache st) ->
  strlen (env_cache st) < 2 ^ 32 ->
  cache_tail st' = cache_tail st
  /\ detail_size_of st' = detail_size_of st
  /\ strlen (env_cache st') = strlen (env_cache st)
  /\ env_start_addr st' = env_start_addr st
  /\ env_total_size st' = env_total_size st
  /\ flash_erase_min_size st' = flash_erase_min_size st
  /\ default_env_set st' = default_env_set st
  /\ cur_using_data_addr st' <> 0
  /\ (r = FLASH_NO_ERR ->
      fits_of (detail_size_of st) st' = true
      /\ (crc_check = true -> crc_of st' = stored_crc_of st')
      /\ (cur_using_data_addr st'
          + (ENV_PARAM_PART_BYTE_SIZE + detail_size_of st)
          <= env_start_addr st
          \/ env_start_addr st + 4 <= cur_using_data_addr st' ->
          data_section_saved st')).
Proof.
  intros Hrun Hfit Hlt.
  assert (Hd0 : 0 <= detail_size_of st)
    by (unfold detail_size_of; apply u32_range).
  pose proof param_size_cases as Hp.
  assert (Hl : ENV_PARAM_PART_BYTE_SIZE <= strlen (env_cache st)) by lia.
  destruct (flash_save_env_inv fuel st _ _ Hrun)
    as (r1 & s1 & Hloop & Hcur0 & Hcase).
  destruct (save_env_loop_saved fuel _ st r1 s1 Hloop Hfit Hlt)
    as (Htail & Hds & Hlen & Hsaved).
  destruct (save_env_loop_inv fuel _ _ st _ s1 Hloop Hl)
    as ((Hst & Htot & Hmin & Hdef & _) & _).
  assert (Hcur1 : cur_using_data_addr s1 <> 0).
  { unfold flash_save_env in Hrun. binv Hrun. binv Hrun.
    apply get_env_detail_size_inv in Ha0. destruct Ha0 as (-> & -> & _).
    apply get_cur_using_data_addr_inv in Ha. destruct Ha as (-> & _).
    binv Hrun. rewrite Hloop in Ha. pinj Ha.
    binv Hrun. apply data_section_fits_inv in Ha. tauto. }
  assert (Hsame : forall a x,
            save_cur_using_data_addr a s1 = Some (x, st') ->
            cache_tail st' = cache_tail s1
            /\ detail_size_of st' = detail_size_of s1
            /\ env_cache st' = env_cache s1
            /\ cur_using_data_addr st' = cur_using_data_addr s1
            /\ env_start_addr st' = env_start_addr s1
            /\ env_total_size st' = env_total_size s1
            /\ flash_erase_min_size st' = flash_erase_min_size s1
            /\ default_env_set st' = default_env_set s1).
  { intros a x Hs.
    destruct (save_cur_using_data_addr_inv _ _ _ _ Hs) as (dev' & _ & -> & _).
    repeat split. }
  destruct Hcase as [(Hf & -> & [(Hc & ->)|(Hne & x & Hs)])
                    |(Hf & -> & x & Hs)].
  - destruct (Hsaved Hf) as (_ & Hsv & Hcrc).
    split; [exact Htail|]. split; [exact Hds|]. split; [exact Hlen|].
    split; [exact Hst|]. split; [exact Htot|]. split; [exact Hmin|].
    split; [exact Hdef|]. split; [exact Hcur1|].
    intros _. split; [exact Hf|]. split; [exact Hcrc|]. intros _. exact Hsv.
  - destruct (Hsame _ _ Hs) as (T1 & T2 & T3 & T4 & T5 & T6 & T7 & T8).
    destruct (Hsaved Hf) as (_ & Hsv & Hcrc).
    split; [congruence|]. split; [congruence|]. split; [congruence|].
    split; [congruence|]. split; [congruence|]. split; [congruence|].
    split; [congruence|]. split; [congruence|].
    intros _. split; [|split].
    + unfold fits_of in *. rewrite T4, T5, T6. exact Hf.
    + intros Hcc.
      unfold crc_of, stored_crc_of, detail_size_of, end_addr_of,
        detail_addr_of in *.
      rewrite T3, T4. apply Hcrc, Hcc.
    + intros Hdis.
      destruct (save_cur_using_data_addr_mem _ _ _ _ Hs) as (_ & _ & Hmem).
      unfold data_section_saved in *. rewrite T2, T3, T4, Hds.
      rewrite Hds in Hsv. rewrite <- Hsv. apply Hmem.
      rewrite T4 in Hdis. rewrite Hst. lia.
  - destruct (Hsame _ _ Hs) as (T1 & T2 & T3 & T4 & T5 & T6 & T7 & T8).
    split; [congruence|]. split; [congruence|]. split; [congruence|].
    split; [congruence|]. split; [congruence|]. split; [congruence|].
    split; [congruence|]. split; [congruence|].
    discriminate.
Qed.

(** X15.  When [flash_save_env] returns [FLASH_NO_ERR], the flash holds the
    cache: the data section in use, which lies behind the System Section,
    holds the parameters part and the detail part as the cache has them, the
    CRC32 code in it (in a build with the CRC word) being that of the end
    address and the detail part; the data section fits the area as the loop
    tests it; and the detail part of the cache is as it was. *)
Theorem flash_save_env_persists fuel st st' :
  usable st ->
  ENV_PARAM_PART_BYTE_SIZE + detail_size_of st <= strlen (env_cache st) ->
  flash_save_env fuel st = Some (FLASH_NO_ERR, st') ->
  env_start_addr st + 4 <= cur_using_data_addr st' ->
  data_section_saved st'
  /\ (crc_check = true -> stored_crc_of st' = crc_of st')
  /\ fits_of (detail_size_of st) st' = true
  /\ detail_size_of st' = detail_size_of st
  /\ cache_tail st' = cache_tail st.
Proof.
  intros (_ & _ & _ & Hcache) Hfit Hrun Hbehind.
  destruct (flash_save_env_saved fuel st _ st' Hrun Hfit (proj2 Hcache))
    as (Htail & Hds & _ & _ & _ & _ & _ & _ & Hok).
  destruct (Hok eq_refl) as (Hf & Hcrc & Hsv).
  split; [apply Hsv; right; exact Hbehind|].
  split; [intros Hcc; symmetry; apply Hcrc, Hcc|]. auto.
Qed.

(** X16.  [flash_save_env] does not touch the variables: whatever the device
    does and whatever code is returned, the cache holds the records it held,
    and [flash_get_env] returns for every name what it returned before. *)
Theorem flash_save_env_keeps_records fuel st recs r st' :
  holds_records st recs -> usable st ->
  flash_save_env fuel st = Some (r, st') ->
  holds_records st' recs
  /\ usable st'
  /\ forall key v,
       flash_get_env key st = Some (v, st) ->
       flash_get_env key st' = Some (v, st').
Proof.
  intros Hrec Hus Hrun.
  destruct (detail_size_held _ _ Hrec) as (_ & Hfit & _ & _).
  pose proof Hus as (Hcur & Hstart & Htot & Hcache).
  destruct (flash_save_env_saved fuel st _ st' Hrun Hfit (proj2 Hcache))
    as (Htail & Hds & Hlen & Hst & Htt & _ & _ & Hcur' & _).
  pose proof (holds_records_tail st st' recs Hrec Htail Hds Hlen) as Hrec'.
  split; [exact Hrec'|]. split.
  - repeat split; try congruence; lia.
  - intros key v Hget.
    rewrite (flash_get_env_eq st recs key Hrec Hcur) in Hget.
    apply Some_pair_inj in Hget. destruct Hget as [<- _].
    apply flash_get_env_eq; assumption.
Qed.

End Persist.

(** ** Loading what a save has left *)

Lemma firstn_skipn_firstn {A} (l : list A) n k m :
  (k + m <= n)%nat -> firstn m (skipn k (firstn n l)) = firstn m (skipn k l).
Proof.
  intros H. rewrite skipn_firstn_comm, firstn_firstn.
  f_equal. lia.
Qed.

Section RoundTrip.

Context {B : Build}.

(** The CRC32 code in the cache after a load is the one the flash holds. *)
Lemma loaded_state_crc_word st :
  crc_check = true ->
  ENV_PARAM_PART_BYTE_SIZE
  + u32 (end_word_of st - u32 (system_word st + ENV_PARAM_PART_BYTE_SIZE))
  <= strlen (env_cache st) ->
  firstn 4 (skipn 4 (env_cache (loaded_state st)))
  = mem_load (flash_mem (flash st))
      (u32 (system_word st + ENV_PARAM_PART_INDEX_DATA_CRC * 4)) 4.
Proof.
  intros Hcc Hfit.
  assert (Hp : ENV_PARAM_PART_BYTE_SIZE = 8)
    by (unfold ENV_PARAM_PART_BYTE_SIZE, ENV_PARAM_PART_WORD_SIZE;
        rewrite Hcc; reflexivity).
  set (d := u32 (end_word_of st
                 - u32 (system_word st + ENV_PARAM_PART_BYTE_SIZE))) in *.
  assert (Hd : 0 <= d) by apply u32_range.
  unfold loaded_state. rewrite Hcc.
  set (st1 := with_cur st (system_word st)).
  set (st2 := with_cache st1 (word_bytes (end_word_of st)
                              ++ skipn 4 (env_cache st))).
  assert (Hd2 : detail_size_of st2 = d) by apply loaded_detail_size.
  rewrite Hd2.
  assert (Hlen2 : strlen (env_cache st2) = strlen (env_cache st))
    by (apply strlen_set_end; lia).
  set (data := mem_load (flash_mem (flash st)) (detail_addr_of st2) d).
  assert (Hdl : strlen data = d) by (apply strlen_mem_load; exact Hd).
  set (c3 := ram_splice (env_cache st2) (4 * ENV_PARAM_PART_WORD_SIZE) data).
  assert (Hl3 : strlen c3 = strlen (env_cache st))
    by (unfold c3; rewrite strlen_ram_splice;
        rewrite ?param_byte_size_eq; lia).
  cbn [env_cache with_cache]. fold st1. fold st2. fold data. fold c3.
  change (4 * ENV_PARAM_PART_INDEX_DATA_CRC) with 4.
  set (w := mem_load (flash_mem (flash st))
              (u32 (system_word st + ENV_PARAM_PART_INDEX_DATA_CRC * 4)) 4).
  assert (Hw : strlen w = 4) by (apply strlen_mem_load; lia).
  pose proof (ram_load_splice c3 4 w ltac:(lia) ltac:(lia)) as Hl.
  rewrite Hw in Hl. unfold ram_load in Hl.
  destruct ((0 <=? 4) && (0 <=? 4)
            && (4 + 4 <=? strlen (ram_splice c3 4 w))); [|discriminate].
  apply Some_inj in Hl. exact Hl.
Qed.

(** The detail part end address of a data section that lies inside the
    32 bits. *)
Lemma end_addr_of_section st :
  4 <= strlen (env_cache st) ->
  0 <= cur_using_data_addr st ->
  cur_using_data_addr st + ENV_PARAM_PART_BYTE_SIZE + detail_size_of st
  < 2 ^ 32 ->
  end_addr_of st
  = cur_using_data_addr st + ENV_PARAM_PART_BYTE_SIZE + detail_size_of st.
Proof.
  intros Hl Hc Hlt. pose proof (end_addr_of_range st Hl) as He.
  pose proof param_size_cases as Hp.
  assert (Hd0 : 0 <= detail_size_of st)
    by (unfold detail_size_of; apply u32_range).
  assert (Hcp : u32 (cur_using_data_addr st + ENV_PARAM_PART_BYTE_SIZE)
                = cur_using_data_addr st + ENV_PARAM_PART_BYTE_SIZE)
    by (apply u32_small; lia).
  assert (Hx : detail_size_of st
               = (end_addr_of st - (cur_using_data_addr st
                                    + ENV_PARAM_PART_BYTE_SIZE)) mod 2 ^ 32).
  { unfold detail_size_of, detail_addr_of. rewrite Hcp. reflexivity. }
  rewrite Hx in *. clear Hx Hcp.
  set (x := end_addr_of st - (cur_using_data_addr st
                              + ENV_PARAM_PART_BYTE_SIZE)) in *.
  pose proof (Z.div_mod x (2 ^ 32) ltac:(lia)) as Hdm.
  pose proof (Z.mod_pos_bound x (2 ^ 32) ltac:(lia)) as Hm.
  assert (Hq : x / 2 ^ 32 = 0 \/ x / 2 ^ 32 = -1) by (unfold x in *; lia).
  destruct Hq as [Hq|Hq]; rewrite Hq in Hdm; unfold x in *; lia.
Qed.

(** What [flash_load_env] makes of the flash a save has left. *)
Lemma load_after_save fuel st recs st' :
  holds_records st recs -> usable st ->
  flash_save_env fuel st = Some (FLASH_NO_ERR, st') ->
  system_word st' = cur_using_data_addr st' ->
  0 < env_start_addr st ->
  env_start_addr st + 4 <= cur_using_data_addr st' ->
  cur_using_data_addr st' + ENV_PARAM_PART_BYTE_SIZE + detail_size_of st
  <= env_start_addr st + env_total_size st ->
  env_start_addr st + env_total_size st < 2 ^ 32 ->
  forall fuel' st0,
    flash st0 = flash st' ->
    env_start_addr st0 = env_start_addr st ->
    env_total_size st0 = env_total_size st ->
    strlen (env_cache st0) = strlen (env_cache st) ->
    exists s,
      flash_load_env fuel' st0 = Some (LOAD_FROM_FLASH, s)
      /\ holds_records s recs
      /\ cur_using_data_addr s = cur_using_data_addr st'
      /\ end_addr_of s = end_addr_of st'
      /\ flash s = flash st'
      /\ forall key v,
           flash_get_env key st = Some (v, st) ->
           flash_get_env key s = Some (v, s).
Proof.
  intros Hrec Hus Hrun Hsys Hs0 Hbehind Hend HL fuel' st0 Hfl Hst0 Htt0 Hlen0.
  destruct (detail_size_held _ _ Hrec) as (Hd & Hfit & Hd0 & _).
  pose proof Hus as (Hcur & Hstart & Htot & Hcache).
  pose proof param_size_cases as Hp.
  destruct (flash_save_env_saved fuel st _ st' Hrun Hfit (proj2 Hcache))
    as (Htail & Hds & Hlen & Hst & Htt & _ & _ & Hcur' & Hok).
  destruct (Hok eq_refl) as (_ & Hcrc & Hsv).
  specialize (Hsv (or_intror Hbehind)).
  pose proof (holds_records_tail st st' recs Hrec Htail Hds Hlen) as Hrec'.
  assert (Hl4 : 4 <= strlen (env_cache st')) by lia.
  assert (A2 : end_addr_of st'
               = cur_using_data_addr st' + ENV_PARAM_PART_BYTE_SIZE
                 + detail_size_of st).
  { rewrite <- Hds. apply end_addr_of_section; [lia|lia|rewrite Hds; lia]. }
  unfold data_section_saved in Hsv. rewrite Hds in Hsv.
  set (c := cur_using_data_addr st') in *.
  set (d := detail_size_of st) in *.
  set (m := flash_mem (flash st')) in *.
  set (n := ENV_PARAM_PART_BYTE_SIZE + d) in *.
  (* the words the load reads *)
  assert (A1 : system_word st0 = c).
  { unfold system_word. rewrite Hfl, Hst0, <- Hst. exact Hsys. }
  assert (Hsub : forall k n2,
            0 <= k -> 0 <= n2 -> k + n2 <= n ->
            mem_load m (c + k) n2
            = firstn (Z.to_nat n2) (skipn (Z.to_nat k) (env_cache st'))).
  { intros k n2 Hk Hn2 Hle.
    rewrite (mem_load_sub m c n k n2 Hk Hn2 Hle), Hsv.
    apply firstn_skipn_firstn. lia. }
  assert (A3 : end_word_of st0 = end_addr_of st').
  { unfold end_word_of. rewrite A1, Hfl. fold m.
    change (ENV_PARAM_PART_INDEX_END_ADDR * 4) with 0.
    rewrite Z.add_0_r, (u32_small c) by lia.
    rewrite <- (Z.add_0_r c), (Hsub 0 4) by lia. reflexivity. }
  assert (A4 : u32 (end_word_of st0
                    - u32 (system_word st0 + ENV_PARAM_PART_BYTE_SIZE)) = d).
  { rewrite A3, A1. exact Hds. }
  assert (Hfit0 : ENV_PARAM_PART_BYTE_SIZE
                  + u32 (end_word_of st0
                         - u32 (system_word st0 + ENV_PARAM_PART_BYTE_SIZE))
                  <= strlen (env_cache st0)).
  { rewrite A4, Hlen0. exact Hfit. }
  destruct (loaded_state_content st0 Hfit0) as (L1 & L2 & L3 & L4).
  rewrite A4, A1, Hfl in L4. fold m in L4.
  rewrite (u32_small (c + ENV_PARAM_PART_BYTE_SIZE)) in L4 by lia.
  rewrite (Hsub ENV_PARAM_PART_BYTE_SIZE d) in L4 by lia.
  (* the detail part of the cache at the save *)
  destruct Hrec' as (head' & slack' & Hc' & Hh' & Hd' & Hnf).
  assert (Hflat : firstn (Z.to_nat d)
                    (skipn (Z.to_nat ENV_PARAM_PART_BYTE_SIZE) (env_cache st'))
                  = flat_map record_bytes recs).
  { rewrite Hc', skipn_app.
    replace (Z.to_nat ENV_PARAM_PART_BYTE_SIZE) with (length head')
      by (unfold strlen in Hh'; lia).
    rewrite skipn_all, Nat.sub_diag. cbn [app skipn].
    rewrite firstn_app.
    replace (Z.to_nat d) with (length (flat_map record_bytes recs))
      by (rewrite Hd; unfold strlen; lia).
    rewrite firstn_all, Nat.sub_diag. cbn [firstn]. apply app_nil_r. }
  rewrite Hflat in L4.
  set (s := loaded_state st0) in *.
  assert (Hds_s : detail_size_of s = d).
  { unfold detail_size_of, detail_addr_of. rewrite L1, L2. exact A4. }
  assert (Hrec_s : holds_records s recs).
  { destruct (ram_load_split _ _ _ _ L4) as [Hsplit Hhead].
    eexists. eexists. split; [exact Hsplit|]. split; [exact Hhead|].
    split; [|exact Hnf]. rewrite Hds_s. exact Hd. }
  assert (Hw0 : firstn 4 (env_cache s) = firstn 4 (env_cache st')).
  { pose proof (holds_records_cache _ _ Hrec_s) as Hls.
    rewrite <- (word_bytes_bytes_word (firstn 4 (env_cache s)))
      by (rewrite length_firstn; unfold strlen in Hls; lia).
    rewrite <- (word_bytes_bytes_word (firstn 4 (env_cache st')))
      by (rewrite length_firstn; unfold strlen in Hl4; lia).
    f_equal. fold (end_addr_of s). fold (end_addr_of st').
    rewrite L2. exact A3. }
  assert (Hcrc_s : crc_check = true -> crc_of s = stored_crc_of s).
  { intros Hcc.
    assert (Hp8 : ENV_PARAM_PART_BYTE_SIZE = 8)
      by (unfold ENV_PARAM_PART_BYTE_SIZE, ENV_PARAM_PART_WORD_SIZE;
          rewrite Hcc; reflexivity).
    assert (E1 : crc_of s = crc_of st').
    { unfold crc_of. rewrite Hds_s, Hds, Hw0. fold d. do 2 f_equal.
      rewrite Hflat. unfold ram_load in L4.
      destruct ((0 <=? ENV_PARAM_PART_BYTE_SIZE) && (0 <=? d)
                && (ENV_PARAM_PART_BYTE_SIZE + d <=? strlen (env_cache s)));
        [|discriminate].
      apply Some_inj in L4. exact L4. }
    assert (E2 : stored_crc_of s = stored_crc_of st').
    { unfold stored_crc_of. unfold s.
      rewrite (loaded_state_crc_word st0 Hcc Hfit0), A1, Hfl. fold m.
      change (ENV_PARAM_PART_INDEX_DATA_CRC * 4) with 4.
      rewrite (u32_small (c + 4)) by lia.
      rewrite (Hsub 4 4) by lia. reflexivity. }
    rewrite E1, E2. apply Hcrc, Hcc. }
  exists s. split; [|split; [exact Hrec_s|split; [|split; [|split]]]].
  - apply flash_load_env_loads.
    + rewrite Hst0. exact Hstart.
    + rewrite A1. exact Hcur'.
    + rewrite A1. unfold load_limit. rewrite Hst0, Htt0.
      rewrite (u32_small (env_start_addr st + env_total_size st)) by lia.
      apply orb_false_iff. split.
      * apply Z.eqb_neq. change (2 ^ 32) with 4294967296 in HL. lia.
      * rewrite Z.gtb_ltb. apply Z.ltb_ge. lia.
    + rewrite A3, A2. unfold load_limit. rewrite Hst0, Htt0.
      rewrite (u32_small (env_start_addr st + env_total_size st)) by lia.
      rewrite Z.gtb_ltb. apply Z.ltb_ge. lia.
    + exact Hfit0.
    + exact Hcrc_s.
  - rewrite L1. exact A1.
  - rewrite L2. exact A3.
  - rewrite L3. exact Hfl.
  - intros key v Hget.
    rewrite (flash_get_env_eq st recs key Hrec Hcur) in Hget.
    apply Some_pair_inj in Hget. destruct Hget as [<- _].
    apply flash_get_env_eq; [exact Hrec_s|].
    rewrite L1, A1. exact Hcur'.
Qed.

(** X17.  A save and the load that follows.  When [flash_save_env] has
    returned [FLASH_NO_ERR] and the System Section holds the address of the
    data section, the data section lying behind the System Section and
    ending, parameters part included, inside the area, then
    [flash_load_env], run on the flash the save left, from any cache of the
    same length, takes the branch that loads from the flash and leaves the
    flash as it is; the cache it leaves holds the records the cache held at
    the save, and [flash_get_env] returns for every name what it returned
    before the save. *)
Theorem save_then_load fuel st recs st' :
  holds_records st recs -> usable st ->
  flash_save_env fuel st = Some (FLASH_NO_ERR, st') ->
  system_word st' = cur_using_data_addr st' ->
  0 < env_start_addr st ->
  env_start_addr st + 4 <= cur_using_data_addr st' ->
  cur_using_data_addr st' + ENV_PARAM_PART_BYTE_SIZE + detail_size_of st
  <= env_start_addr st + env_total_size st ->
  env_start_addr st + env_total_size st < 2 ^ 32 ->
  forall fuel' st0,
    flash st0 = flash st' ->
    env_start_addr st0 = env_start_addr st ->
    env_total_size st0 = env_total_size st ->
    strlen (env_cache st0) = strlen (env_cache st) ->
    exists s,
      flash_load_env fuel' st0 = Some (LOAD_FROM_FLASH, s)
      /\ holds_records s recs
      /\ cur_using_data_addr s = cur_using_data_addr st'
      /\ end_addr_of s = end_addr_of st'
      /\ flash s = flash st'
      /\ forall key v,
           flash_get_env key st = Some (v, st) ->
           flash_get_env key s = Some (v, s).
Proof. exact (load_after_save fuel st recs st'). Qed.

End RoundTrip.

Lemma faulty_once_save :
  flash_save_env (B := plain_build) 4 faulty_once_state
  = Some (FLASH_NO_ERR, saved_state).
Proof. reflexivity. Qed.

Lemma flash_save_env_persists_witness :
  data_section_saved (B := plain_build) saved_state
  /\ (crc_check (Build := plain_build) = true ->
      stored_crc_of saved_state = crc_of (B := plain_build) saved_state)
  /\ fits_of (detail_size_of (B := plain_build) faulty_once_state) saved_state
     = true
  /\ detail_size_of (B := plain_build) saved_state
     = detail_size_of (B := plain_build) faulty_once_state
  /\ cache_tail (B := plain_build) saved_state
     = cache_tail (B := plain_build) faulty_once_state.
Proof.
  apply (flash_save_env_persists (B := plain_build) 4 faulty_once_state
           saved_state).
  - exact two_records_usable.
  - vm_compute. congruence.
  - exact faulty_once_save.
  - vm_compute. congruence.
Defined.

Lemma flash_save_env_keeps_records_witness :
  holds_records (B := plain_build) saved_state [str "a=1"; str "bcd=xyz"]
  /\ usable (B := plain_build) saved_state
  /\ forall key v,
       flash_get_env (B := plain_build) key faulty_once_state
       = Some (v, faulty_once_state) ->
       flash_get_env (B := plain_build) key saved_state
       = Some (v, saved_state).
Proof.
  apply (flash_save_env_keeps_records (B := plain_build) 4 faulty_once_state
           [str "a=1"; str "bcd=xyz"] FLASH_NO_ERR saved_state).
  - exact two_records_held.
  - exact two_records_usable.
  - exact faulty_once_save.
Defined.

Lemma save_then_load_witness :
  exists s,
    flash_load_env (B := plain_build) 0 (unloaded_state (flash saved_state))
    = Some (LOAD_FROM_FLASH, s)
    /\ holds_records (B := plain_build) s [str "a=1"; str "bcd=xyz"]
    /\ cur_using_data_addr s = cur_using_data_addr saved_state
    /\ end_addr_of s = end_addr_of saved_state
    /\ flash s = flash saved_state
    /\ forall key v,
         flash_get_env (B := plain_build) key faulty_once_state
         = Some (v, faulty_once_state) ->
         flash_get_env (B := plain_build) key s = Some (v, s).
Proof.
  apply (save_then_load (B := plain_build) 4 faulty_once_state
           [str "a=1"; str "bcd=xyz"] saved_state).
  - exact two_records_held.
  - exact two_records_usable.
  - exact faulty_once_save.
  - reflexivity.
  - reflexivity.
  - vm_compute. congruence.
  - vm_compute. congruence.
  - reflexivity.
  - reflexivity.
  - reflexivity.
  - reflexivity.
  - reflexivity.
Defined.

(** ** The System Section and the CRC32 code *)

Section System.

Context {B : Build}.

Lemma env_crc_is_ok_eq st :
  cur_using_data_addr st <> 0 -> 8 <= strlen (env_cache st) ->
  ENV_PARAM_PART_BYTE_SIZE + detail_size_of st <= strlen (env_cache st) ->
  env_crc_is_ok st = Some (crc_of st =? stored_crc_of st, st).
Proof.
  intros Hc Hl Hfit. unfold env_crc_is_ok.
  mstep (calc_env_crc_eq st Hc Hfit).
  unfold cache_word. rewrite bind_bind, bind_gets.
  change (4 * ENV_PARAM_PART_INDEX_DATA_CRC) with 4.
  rewrite ram_load_word1.
  destruct (Z.leb_spec 8 (strlen (env_cache st))); [|lia].
  reflexivity.
Qed.

(** X19.  In a build with the CRC word: once the save loop has calculated
    and cached the CRC32 code, [env_crc_is_ok] finds the cache in order; the
    end address word and the detail part are as they were, the code not
    being part of what it covers. *)
Theorem cached_crc_is_ok st :
  crc_check = true -> cur_using_data_addr st <> 0 ->
  ENV_PARAM_PART_BYTE_SIZE + detail_size_of st <= strlen (env_cache st) ->
  exists st1,
    cache_crc st = Some (tt, st1)
    /\ env_crc_is_ok st1 = Some (true, st1)
    /\ stored_crc_of st1 = crc_of st
    /\ end_addr_of st1 = end_addr_of st
    /\ cache_tail st1 = cache_tail st.
Proof.
  intros Hcc Hc Hfit.
  assert (Hp : ENV_PARAM_PART_BYTE_SIZE = 8)
    by (unfold ENV_PARAM_PART_BYTE_SIZE, ENV_PARAM_PART_WORD_SIZE;
        rewrite Hcc; reflexivity).
  assert (Hd0 : 0 <= detail_size_of st)
    by (unfold detail_size_of; apply u32_range).
  assert (Hl8 : 8 <= strlen (env_cache st)) by lia.
  assert (Hl : ENV_PARAM_PART_BYTE_SIZE <= strlen (env_cache st)) by lia.
  destruct (with_crc_valid st Hcc Hl8) as [Hv1 Hv2].
  destruct (with_crc_cache st Hl) as [Hw0 Hlen].
  destruct (with_crc_fields st) as (Hcur & _).
  assert (Hds : detail_size_of (with_crc st) = detail_size_of st).
  { unfold detail_size_of, end_addr_of, detail_addr_of.
    rewrite Hw0, Hcur. reflexivity. }
  exists (with_crc st). split; [apply cache_crc_eq; assumption|].
  split; [|split; [exact Hv2|split]].
  - rewrite env_crc_is_ok_eq; [|rewrite Hcur; exact Hc|lia|rewrite Hds; lia].
    rewrite Hv1, Hv2, Z.eqb_refl. reflexivity.
  - unfold end_addr_of. rewrite Hw0. reflexivity.
  - unfold cache_tail. rewrite Hp. change (Z.to_nat 8) with 8%nat.
    unfold with_crc. rewrite Hcc. cbn [env_cache with_cache].
    assert (Hf4 : length (firstn 4 (env_cache st)) = 4%nat)
      by (rewrite length_firstn; unfold strlen in Hl8; lia).
    rewrite skipn_app, Hf4, skipn_all2 by lia. reflexivity.
Qed.


End System.

Lemma cached_crc_is_ok_witness :
  exists st1,
    cache_crc (B := crc_build) (crc_state [str "a=1"; str "bcd=xyz"])
    = Some (tt, st1)
    /\ env_crc_is_ok (B := crc_build) st1 = Some (true, st1)
    /\ stored_crc_of st1
       = crc_of (B := crc_build) (crc_state [str "a=1"; str "bcd=xyz"])
    /\ end_addr_of st1 = end_addr_of (crc_state [str "a=1"; str "bcd=xyz"])
    /\ cache_tail (B := crc_build) st1
       = cache_tail (B := crc_build) (crc_state [str "a=1"; str "bcd=xyz"]).
Proof.
  apply (cached_crc_is_ok (B := crc_build)).
  - reflexivity.
  - vm_compute. congruence.
  - vm_compute. congruence.
Defined.


(** ** The defaults installed *)

Lemma ForallOrdPairs_before {A} (R : A -> A -> Prop) l1 x l2 :
  ForallOrdPairs R (l1 ++ x :: l2) -> Forall (fun y => R y x) l1.
Proof.
  induction l1 as [|y l1 IH]; intros H; [constructor|].
  inversion H as [|? ? Hy Hrest]; subst. constructor.
  - rewrite Forall_forall in Hy. apply Hy.
    apply in_app_iff. right. left. reflexivity.
  - apply IH, Hrest.
Qed.

Lemma defaults_size_eq set :
  defaults_size set = strlen (flat_map record_bytes (default_records set)).
Proof.
  induction set as [|e set IH]; [reflexivity|].
  cbn [defaults_size fold_right default_records map].
  rewrite strlen_flat_map_cons. fold (default_records set).
  fold (defaults_size set). rewrite IH. reflexivity.
Qed.

Section Installed.

Context {B : Build}.

(** The empty detail part [flash_env_set_default] starts from. *)
Lemma reset_holds_nothing st :
  usable st ->
  holds_records
    (with_cache st (word_bytes (detail_addr_of st)
                    ++ skipn 4 (env_cache st))) []
  /\ only_cache_differs st
       (with_cache st (word_bytes (detail_addr_of st)
                       ++ skipn 4 (env_cache st))).
Proof.
  intros Hus. pose proof (usable_cache st Hus) as Hl4.
  pose proof param_size_cases as Hp.
  set (st0 := with_cache st _).
  assert (Hsame0 : only_cache_differs st st0).
  { unfold st0. apply only_cache_differs_with_cache.
    apply strlen_set_end, Hl4. }
  split; [|exact Hsame0].
  pose proof (usable_only_cache st st0 Hus Hsame0) as Hus0.
  exists (firstn (Z.to_nat ENV_PARAM_PART_BYTE_SIZE) (env_cache st0)),
    (skipn (Z.to_nat ENV_PARAM_PART_BYTE_SIZE) (env_cache st0)).
  cbn [flat_map app]. rewrite firstn_skipn.
  split; [reflexivity|]. split; [|split; [|constructor]].
  - unfold strlen in *. rewrite length_firstn.
    destruct Hus0 as (_ & _ & _ & Hc). unfold strlen in Hc. lia.
  - unfold detail_size_of. unfold st0 at 1. rewrite end_addr_of_set.
    change (detail_addr_of st0) with (detail_addr_of st).
    unfold detail_addr_of. rewrite u32_idem, Z.sub_diag. reflexivity.
Qed.

(** The loop of [flash_env_set_default] on a default set that
    [create_env] takes whole. *)
Lemma create_default_envs_installs set : forall st recs,
  holds_records st recs -> usable st ->
  Forall valid_default set ->
  Forall (fun e => proper_name (key e)) set ->
  distinct_defaults set ->
  (forall e r, In e set -> In r recs -> env_matches r (key e) = false) ->
  strlen (flat_map record_bytes recs) + defaults_size set
  < env_total_size st ->
  ENV_PARAM_PART_BYTE_SIZE + strlen (flat_map record_bytes recs)
  + defaults_size set <= strlen (env_cache st) ->
  strlen (env_cache st) + 65532 < 2 ^ 32 ->
  exists st',
    create_default_envs set st = Some (tt, st')
    /\ holds_records st' (recs ++ default_records set)
    /\ only_cache_differs st st'.
Proof.
  induction set as [|e set IH];
    intros st recs Hrec Hus Hval Hprop Hdist Hfresh Hroom Hin Hbig.
  - exists st. cbn [default_records map]. rewrite app_nil_r.
    split; [reflexivity|]. split; [exact Hrec|].
    apply only_cache_differs_refl.
  - inversion Hval as [|? ? (Hnk & Hnv & Hsize) Hval']; subst.
    inversion Hprop as [|? ? (Hkey & Heq) Hprop']; subst.
    inversion Hdist as [|? ? Hde Hdist']; subst.
    cbn [defaults_size fold_right] in Hroom, Hin.
    fold (defaults_size set) in Hroom, Hin.
    assert (Hds : 0 <= defaults_size set).
    { rewrite defaults_size_eq. apply strlen_nonneg. }
    pose proof (strlen_record_bytes (record_of (key e) (value e))) as HR.
    rewrite strlen_record_of in HR.
    destruct (detail_size_held _ _ Hrec) as (Hd & _ & Hd0 & _).
    pose proof (align4_le _ Hsize) as Hal.
    pose proof (align4_bounds (strlen (key e) + strlen (value e) + 2)).
    pose proof (strlen_nonneg (key e)). pose proof (strlen_nonneg (value e)).
    pose proof param_size_cases as Hp.
    (* the step *)
    assert (Hstep : exists s1,
              create_env (key e) (value e) st = Some (FLASH_NO_ERR, s1)
              /\ holds_records s1 (recs ++ [record_of (key e) (value e)])
              /\ only_cache_differs st s1).
    { unfold create_env. destruct (key e) as [|c k] eqn:Hk; [congruence|].
      rewrite Heq.
      mstep (find_env_records st _ (c :: k) Hrec (proj1 Hus) Hkey).
      rewrite (proj2 (find_in_records_none_iff recs (c :: k) _)).
      2: { apply Forall_forall. intros r Hr. rewrite <- Hk.
           apply Hfresh; [left; reflexivity|exact Hr]. }
      pose proof (write_env_eq st (c :: k) (value e) Hus Hsize) as Hw.
      rewrite u32_small in Hw by lia.
      destruct (Z.geb_spec (align4 (strlen (c :: k) + strlen (value e) + 2)
                            + detail_size_of st) (env_total_size st));
        [lia|].
      assert (Hst : exists c',
                ram_store (env_cache st)
                  (ENV_PARAM_PART_BYTE_SIZE + detail_size_of st)
                  (record_bytes (record_of (c :: k) (value e))) = Some c').
      { unfold ram_store. rewrite strlen_record_bytes, strlen_record_of.
        destruct (Z.leb_spec 0 (ENV_PARAM_PART_BYTE_SIZE + detail_size_of st));
          [|lia].
        destruct (Z.leb_spec (ENV_PARAM_PART_BYTE_SIZE + detail_size_of st
                              + align4 (strlen (c :: k) + strlen (value e) + 2))
                    (strlen (env_cache st))); [|lia].
        eexists. reflexivity. }
      destruct Hst as (c' & Hst). rewrite Hst in Hw.
      eexists. split; [exact Hw|].
      destruct (write_env_records st recs _ _ _ Hrec Hus Hsize Hnk Hnv Hw)
        as (Hrec' & cc & Hcc & Hlen).
      split; [exact Hrec'|].
      rewrite Hcc. apply only_cache_differs_with_cache. exact Hlen. }
    destruct Hstep as (s1 & Hrun & Hrec1 & Hsame1).
    pose proof (usable_only_cache st s1 Hus Hsame1) as Hus1.
    pose proof Hsame1 as (_ & Htot1 & _ & _ & _ & _ & Hlen1).
    assert (Hflat1 : strlen (flat_map record_bytes
                               (recs ++ [record_of (key e) (value e)]))
                     = strlen (flat_map record_bytes recs)
                       + strlen (record_bytes (record_of (key e) (value e)))).
    { rewrite flat_map_app. cbn [flat_map].
      rewrite app_nil_r, strlen_app. reflexivity. }
    destruct (IH s1 (recs ++ [record_of (key e) (value e)]) Hrec1 Hus1
                Hval' Hprop' Hdist') as (st' & Hrun' & Hrec' & Hsame').
    + intros e' r He' Hr. apply in_app_iff in Hr.
      destruct Hr as [Hr|[<-|[]]].
      * apply Hfresh; [right; exact He'|exact Hr].
      * rewrite Forall_forall in Hde. apply Hde, He'.
    + rewrite Hflat1, Htot1. lia.
    + rewrite Hflat1, Hlen1. lia.
    + rewrite Hlen1. exact Hbig.
    + exists st'. cbn [create_default_envs]. mstep Hrun.
      split; [exact Hrun'|]. split.
      * cbn [default_records map]. fold (default_records set).
        rewrite <- app_assoc in Hrec'. exact Hrec'.
      * eapply only_cache_differs_trans; eassumption.
Qed.

(** [flash_env_set_default] up to its save. *)
Lemma set_default_before_save fuel st :
  usable st ->
  default_env_set st <> [] ->
  Forall valid_default (default_env_set st) ->
  Forall (fun e => proper_name (key e)) (default_env_set st) ->
  distinct_defaults (default_env_set st) ->
  defaults_size (default_env_set st) < env_total_size st ->
  ENV_PARAM_PART_BYTE_SIZE + defaults_size (default_env_set st)
  <= strlen (env_cache st) ->
  strlen (env_cache st) + 65532 < 2 ^ 32 ->
  exists s1,
    holds_records s1 (default_records (default_env_set st))
    /\ only_cache_differs st s1
    /\ flash_env_set_default fuel st
       = (flash_save_env fuel ;;; ret FLASH_NO_ERR) s1.
Proof.
  intros Hus Hset Hval Hprop Hdist Htot Hroom Hbig.
  pose proof param_size_cases as Hp.
  pose proof (usable_cache st Hus) as Hl4.
  destruct (reset_holds_nothing st Hus) as [Hrec0 Hsame0].
  set (st0 := with_cache st (word_bytes (detail_addr_of st)
                             ++ skipn 4 (env_cache st))) in *.
  pose proof (usable_only_cache st st0 Hus Hsame0) as Hus0.
  pose proof Hsame0 as (_ & T2 & _ & _ & _ & _ & T7).
  destruct (create_default_envs_installs (default_env_set st) st0 []
              Hrec0 Hus0 Hval Hprop Hdist)
    as (s1 & Hrun1 & Hrec1 & Hsame1).
  { intros e r _ []. }
  { cbn [flat_map]. rewrite strlen_nil, T2. lia. }
  { cbn [flat_map]. rewrite strlen_nil, T7. lia. }
  { rewrite T7. exact Hbig. }
  cbn [app] in Hrec1.
  exists s1. split; [exact Hrec1|].
  split; [eapply only_cache_differs_trans; eassumption|].
  unfold flash_env_set_default. rewrite bind_gets.
  assert (Hne : negb (Nat.eqb (length (default_env_set st)) 0) = true).
  { destruct (default_env_set st); [contradiction|reflexivity]. }
  mstep (FLASH_ASSERT_true _ st Hne).
  mstep (get_env_detail_addr_eq st (proj1 Hus)).
  rewrite (bind_run _ (set_env_detail_end_addr_eq st (detail_addr_of st) Hl4)).
  fold st0. mstep Hrun1. reflexivity.
Qed.

(** Every default variable is read back from a cache that holds the
    default records. *)
Lemma defaults_gettable st set :
  holds_records st (default_records set) ->
  cur_using_data_addr st <> 0 ->
  Forall (fun e => proper_name (key e)) set ->
  distinct_defaults set ->
  forall e, In e set -> flash_get_env (key e) st = Some (Some (value e), st).
Proof.
  intros Hrec Hcur Hprop Hdist e Hin.
  apply in_split in Hin. destruct Hin as (l1 & l2 & ->).
  unfold default_records in Hrec. rewrite map_app in Hrec. cbn [map] in Hrec.
  apply Forall_app in Hprop. destruct Hprop as [_ Hprop].
  inversion Hprop as [|? ? (Hkey & Heq) _]; subst.
  apply (flash_get_env_record st _ (key e) (value e) _ Hrec Hcur Hkey Heq).
  apply find_in_records_none_iff. apply Forall_map.
  exact (ForallOrdPairs_before _ l1 e l2 Hdist).
Qed.

(** X21.  [flash_env_set_default] on a default set that [create_env] takes
    whole: names that are not empty and have no equal sign, no name standing
    with an equal sign after it in an earlier record, records that fit 16
    bits, the total size and the cache.  It empties the detail part,
    whatever it held, stores the default variables in their order and saves;
    afterwards the cache holds exactly the default records and
    [flash_get_env] returns, for the name of every default variable, its
    default value. *)
Theorem flash_env_set_default_installs fuel st :
  usable st -> 0 < cur_using_data_addr st ->
  0 < flash_erase_min_size st ->
  default_env_set st <> [] ->
  Forall valid_default (default_env_set st) ->
  Forall (fun e => proper_name (key e)) (default_env_set st) ->
  distinct_defaults (default_env_set st) ->
  defaults_size (default_env_set st) < env_total_size st ->
  ENV_PARAM_PART_BYTE_SIZE + defaults_size (default_env_set st)
  <= strlen (env_cache st) ->
  strlen (env_cache st) + 65532 < 2 ^ 32 ->
  0 <= env_start_addr st + env_total_size st ->
  env_start_addr st + env_total_size st
  + defaults_size (default_env_set st) + flash_erase_min_size st
  <= 2 ^ 32 ->
  cur_using_data_addr st + defaults_size (default_env_set st) < 2 ^ 32 ->
  env_start_addr st + env_total_size st <= Z.of_nat fuel ->
  exists st',
    flash_env_set_default fuel st = Some (FLASH_NO_ERR, st')
    /\ holds_records st' (default_records (default_env_set st))
    /\ forall e,
         In e (default_env_set st) ->
         flash_get_env (key e) st' = Some (Some (value e), st').
Proof.
  intros Hus Hcur He Hset Hval Hprop Hdist Htot Hroom Hbig HL Hwrap Hcd Hfuel.
  destruct (set_default_before_save fuel st Hus Hset Hval Hprop Hdist Htot
              Hroom Hbig) as (s1 & Hrec1 & Hsame1 & Hrun).
  pose proof (usable_only_cache st s1 Hus Hsame1) as Hus1.
  pose proof Hsame1 as (_ & U2 & U3 & U4 & U5 & _ & U7).
  destruct (detail_size_held _ _ Hrec1) as (Hd1 & Hfit1 & Hd0 & _).
  rewrite <- defaults_size_eq in Hd1.
  pose proof (stride_le (detail_size_of s1) (flash_erase_min_size st)
                Hd0 He) as Hstride.
  destruct (flash_save_env_total fuel s1 Hus1) as (r2 & s2 & Hrun2);
    try rewrite U2; try rewrite U3; try rewrite U4; try rewrite U5;
    try rewrite U7; try lia.
  destruct (flash_save_env_saved fuel s1 r2 s2 Hrun2 Hfit1
              (proj2 (proj2 (proj2 (proj2 Hus1)))))
    as (Htail & Hds & Hlen & _ & _ & _ & _ & Hcur2 & _).
  pose proof (holds_records_tail s1 s2 _ Hrec1 Htail Hds Hlen) as Hrec2.
  exists s2. split; [|split; [exact Hrec2|]].
  - rewrite Hrun. mstep Hrun2. reflexivity.
  - apply defaults_gettable; assumption.
Qed.

End Installed.

Lemma tidy_defaults_proper :
  Forall valid_default tidy_defaults
  /\ Forall (fun e => proper_name (key e)) tidy_defaults
  /\ distinct_defaults tidy_defaults.
Proof.
  split; [|split].
  - repeat constructor; try discriminate; vm_compute; congruence.
  - repeat constructor; discriminate.
  - repeat constructor.
Qed.

Lemma flash_env_set_default_installs_witness :
  exists st',
    flash_env_set_default (B := plain_build) (Z.to_nat 5120) tidy_state
    = Some (FLASH_NO_ERR, st')
    /\ holds_records (B := plain_build) st'
         (default_records (default_env_set tidy_state))
    /\ forall e,
         In e (default_env_set tidy_state) ->
         flash_get_env (B := plain_build) (key e) st'
         = Some (Some (value e), st').
Proof.
  apply (flash_env_set_default_installs (B := plain_build)).
  - repeat split; vm_compute; congruence.
  - reflexivity.
  - reflexivity.
  - discriminate.
  - exact (proj1 tidy_defaults_proper).
  - exact (proj1 (proj2 tidy_defaults_proper)).
  - exact (proj2 (proj2 tidy_defaults_proper)).
  - reflexivity.
  - vm_compute. congruence.
  - vm_compute. reflexivity.
  - vm_compute. congruence.
  - vm_compute. congruence.
  - reflexivity.
  - vm_compute. congruence.
Defined.

(** ** Initialisation *)

Section Init.

Context {B : Build}.

(** A turn of the save loop on a device that does not fault. *)
Lemma turn_result_no_fault d st :
  (forall n op, dev_faults (flash st) n op = false) ->
  exists dev',
    turn_result d st = ((BREAK, FLASH_NO_ERR), with_flash (with_crc st) dev')
    /\ dev_faults dev' = dev_faults (flash st)
    /\ flash_mem dev'
       = mem_store
           (mem_erase (flash_mem (flash st)) (cur_using_data_addr st)
              (u32 (ENV_PARAM_PART_BYTE_SIZE + d)))
           (cur_using_data_addr st)
           (firstn (Z.to_nat (u32 (ENV_PARAM_PART_BYTE_SIZE + d)))
              (env_cache (with_crc st))).
Proof.
  intros Hnf. unfold turn_result, dev_erase. rewrite Hnf. cbn [fst snd].
  unfold dev_write. cbn [dev_faults dev_log]. rewrite Hnf. cbn [fst snd].
  eexists. split; [reflexivity|]. split; reflexivity.
Qed.

(** [flash_save_env] on a device that does not fault, from a data section
    that fits. *)
Lemma flash_save_env_no_fault fuel st :
  usable st ->
  (forall n op, dev_faults (flash st) n op = false) ->
  flash_erase_min_size st <> 0 ->
  ENV_PARAM_PART_BYTE_SIZE + detail_size_of st <= strlen (env_cache st) ->
  fits_of (detail_size_of st) st = true ->
  exists st',
    flash_save_env (S fuel) st = Some (FLASH_NO_ERR, st')
    /\ cur_using_data_addr st' = cur_using_data_addr st
    /\ dev_faults (flash st') = dev_faults (flash st)
    /\ forall b n,
         b + n <= cur_using_data_addr st
         \/ cur_using_data_addr st
            + (ENV_PARAM_PART_BYTE_SIZE + detail_size_of st) <= b ->
         mem_load (flash_mem (flash st')) b n
         = mem_load (flash_mem (flash st)) b n.
Proof.
  intros Hus Hnf He Hfit Hfits.
  pose proof (usable_cache st Hus) as Hl4.
  destruct Hus as (Hcur & Hstart & Htot & Hcache).
  assert (Hd0 : 0 <= detail_size_of st)
    by (unfold detail_size_of; apply u32_range).
  set (d := detail_size_of st) in *.
  destruct (turn_result_no_fault d st Hnf) as (dev' & Ht & Hf' & Hmem).
  assert (Hsz : u32 (ENV_PARAM_PART_BYTE_SIZE + d) = ENV_PARAM_PART_BYTE_SIZE + d)
    by (apply u32_small; pose proof param_size_cases; lia).
  pose proof (save_env_turn_eq d st Hcur He Hfit Hd0 ltac:(lia)) as Hturn.
  rewrite Ht in Hturn.
  destruct (with_crc_fields st) as (C1 & _ & C3 & C4 & _).
  set (s1 := with_flash (with_crc st) dev') in *.
  assert (Hfits1 : fits_of d s1 = true).
  { unfold fits_of, s1. cbn [cur_using_data_addr env_start_addr
                               env_total_size with_flash].
    rewrite C1, C3, C4. exact Hfits. }
  exists s1. split; [|split; [exact C1|split; [exact Hf'|]]].
  - unfold flash_save_env.
    mstep (get_cur_using_data_addr_eq st Hcur).
    mstep (get_env_detail_size_eq st Hcur Hl4). fold d.
    assert (Hloop : save_env_loop (S fuel) d FLASH_NO_ERR st
                    = Some (FLASH_NO_ERR, s1)).
    { rewrite save_env_loop_S.
      mstep (data_section_fits_eq d st Hcur Hstart Htot). rewrite Hfits.
      mstep Hturn. reflexivity. }
    mstep Hloop.
    assert (G1 : cur_using_data_addr s1 <> 0) by (unfold s1; cbn; lia).
    assert (G2 : env_start_addr s1 <> 0) by (unfold s1; cbn; lia).
    assert (G3 : env_total_size s1 <> 0) by (unfold s1; cbn; lia).
    mstep (data_section_fits_eq d s1 G1 G2 G3). rewrite Hfits1.
    mstep (get_cur_using_data_addr_eq s1 G1).
    replace (cur_using_data_addr s1) with (cur_using_data_addr st)
      by (symmetry; exact C1).
    rewrite Z.eqb_refl. cbn [negb]. rewrite bind_ret. reflexivity.
  - intros b n Hdis. unfold s1. cbn [flash with_flash]. rewrite Hmem, Hsz.
    rewrite mem_load_store_other.
    + apply mem_load_erase_other. exact Hdis.
    + assert (Hpl : ENV_PARAM_PART_BYTE_SIZE <= strlen (env_cache st))
        by lia.
      destruct (with_crc_cache st Hpl) as [_ Hlc].
      pose proof param_size_cases.
      unfold strlen in *. rewrite length_firstn. lia.
Qed.

(** [save_cur_using_data_addr] on a device that does not fault. *)
Lemma save_cur_using_data_addr_no_fault a st :
  env_start_addr st <> 0 ->
  (forall n op, dev_faults (flash st) n op = false) ->
  exists dev',
    save_cur_using_data_addr a st = Some (FLASH_NO_ERR, with_flash st dev')
    /\ dev_faults dev' = dev_faults (flash st)
    /\ mem_load (flash_mem dev') (env_start_addr st) 4 = word_bytes a.
Proof.
  intros Hs Hnf. unfold save_cur_using_data_addr.
  mstep (get_env_start_addr_eq st Hs).
  unfold flash_erase at 1. unfold bind at 1. unfold dev_erase. rewrite Hnf.
  set (s1 := with_flash st _).
  assert (Hs1 : env_start_addr s1 <> 0) by exact Hs.
  mstep (get_env_start_addr_eq s1 Hs1).
  unfold flash_write, dev_write. cbn [flash with_flash s1 dev_faults dev_log
                                       env_start_addr].
  rewrite Hnf. eexists. split; [reflexivity|]. split; [reflexivity|].
  cbn [flash_mem]. apply mem_load_store_word.
Qed.

(** The first [flash_env_init] on a device whose System Section is erased
    and that does not fault. *)
Lemma first_boot fuel start total erase_min defaults raw dev :
  0 < start -> 0 < total -> total mod 4 = 0 -> 4 <= erase_min ->
  strlen raw = total ->
  Z.of_nat (length defaults) < total -> defaults <> [] ->
  bytes_word (mem_load (flash_mem dev) start 4) = 4294967295 ->
  (forall n op, dev_faults dev n op = false) ->
  Forall valid_default defaults ->
  Forall (fun e => proper_name (key e)) defaults ->
  distinct_defaults defaults ->
  ENV_PARAM_PART_BYTE_SIZE + defaults_size defaults <= total ->
  erase_min + defaults_size defaults < total ->
  start + total + 65532 < 2 ^ 32 ->
  exists s1 st',
    flash_env_init (S fuel) start total erase_min defaults raw dev
    = Some (FLASH_NO_ERR, st')
    /\ holds_records s1 (default_records defaults)
    /\ usable s1
    /\ flash_save_env (S fuel) s1 = Some (FLASH_NO_ERR, st')
    /\ env_start_addr s1 = start /\ env_total_size s1 = total
    /\ strlen (env_cache s1) = total
    /\ cur_using_data_addr st' = start + erase_min
    /\ system_word st' = start + erase_min.
Proof.
  intros Hs Ht Hm4 He Hraw Hn Hne Hsys Hnf Hval Hprop Hdist Hroom Hfits Hbig.
  pose proof param_size_cases as Hp.
  assert (Hds0 : 0 <= defaults_size defaults)
    by (rewrite defaults_size_eq; apply strlen_nonneg).
  set (c0 := start + erase_min).
  set (st_i := {| default_env_set := defaults;
                  env_total_size := total;
                  flash_erase_min_size := erase_min;
                  env_cache := raw;
                  env_start_addr := start;
                  cur_using_data_addr := 0;
                  flash := dev |}).
  (* the System Section is set to the first data section *)
  assert (Hsi : env_start_addr (with_cur st_i c0) <> 0) by (cbn; lia).
  destruct (save_cur_using_data_addr_no_fault c0 (with_cur st_i c0) Hsi Hnf)
    as (dev_a & Hsave & Hfa & Hma).
  set (s_a := with_flash (with_cur st_i c0) dev_a) in *.
  assert (Hus_a : usable s_a).
  { repeat split; cbn; unfold c0; lia. }
  (* the defaults *)
  destruct (set_default_before_save (S fuel) s_a Hus_a Hne Hval Hprop Hdist)
    as (s1 & Hrec1 & Hsame1 & Hdef).
  { change (defaults_size defaults < total). lia. }
  { change (ENV_PARAM_PART_BYTE_SIZE + defaults_size defaults
            <= strlen raw). lia. }
  { change (strlen raw + 65532 < 2 ^ 32). lia. }
  change (default_env_set s_a) with defaults in Hrec1.
  pose proof (usable_only_cache s_a s1 Hus_a Hsame1) as Hus1.
  pose proof Hsame1 as (_ & U2 & U3 & U4 & U5 & U6 & U7).
  change (env_total_size s_a) with total in U2.
  change (flash_erase_min_size s_a) with erase_min in U3.
  change (env_start_addr s_a) with start in U4.
  change (cur_using_data_addr s_a) with c0 in U5.
  change (flash s_a) with dev_a in U6.
  change (env_cache s_a) with raw in U7.
  destruct (detail_size_held _ _ Hrec1) as (Hd1 & Hfit1 & Hd0 & _).
  rewrite <- defaults_size_eq in Hd1.
  (* the save *)
  destruct (flash_save_env_no_fault fuel s1 Hus1)
    as (st' & Hrun & Hcur' & Hf' & Hmem').
  { intros n op. rewrite U6, Hfa. apply Hnf. }
  { rewrite U3. lia. }
  { exact Hfit1. }
  { unfold fits_of. rewrite U5, U4, U2, Hd1.
    rewrite !u32_small by (unfold c0; lia).
    apply Z.ltb_lt. unfold c0. lia. }
  exists s1, st'.
  split; [|split; [exact Hrec1|split; [exact Hus1|split; [exact Hrun|]]]].
  - unfold flash_env_init.
    assert (Hcond : negb (start =? 0) && negb (total =? 0)
                    && negb (erase_min =? 0)
                    && (Z.of_nat (length defaults) <? total)
                    && (total mod 4 =? 0) && (strlen raw =? total) = true).
    { repeat (apply andb_true_iff; split);
        try (apply negb_true_iff, Z.eqb_neq; lia);
        try (apply Z.ltb_lt; lia); apply Z.eqb_eq; assumption. }
    rewrite Hcond. fold st_i.
    assert (Hload : flash_load_env (S fuel) st_i
                    = Some (LOAD_NEW_DEFAULT, st')).
    { unfold flash_load_env.
      assert (Hsti : env_start_addr st_i <> 0) by (cbn; lia).
      mstep (get_env_start_addr_eq st_i Hsti).
      unfold flash_read. rewrite !bind_gets.
      cbn [flash env_start_addr env_total_size st_i].
      rewrite Hsys. cbn [Z.eqb Pos.eqb orb].
      mstep (get_env_start_addr_eq st_i Hsti).
      rewrite bind_gets. unfold set_cur_using_data_addr.
      rewrite bind_modify.
      cbn [env_start_addr flash_erase_min_size st_i].
      rewrite (u32_small (start + erase_min)) by lia. fold c0.
      assert (Hc0 : cur_using_data_addr (with_cur st_i c0) <> 0)
        by (cbn; unfold c0; lia).
      mstep (get_cur_using_data_addr_eq _ Hc0).
      cbn [cur_using_data_addr with_cur].
      mstep Hsave. fold s_a.
      assert (Hd' : flash_env_set_default (S fuel) s_a
                    = Some (FLASH_NO_ERR, st'))
        by (rewrite Hdef; mstep Hrun; reflexivity).
      mstep Hd'. reflexivity. }
    rewrite Hload. reflexivity.
  - split; [exact U4|]. split; [exact U2|]. split; [rewrite U7; exact Hraw|].
    split; [rewrite Hcur', U5; reflexivity|].
    unfold system_word.
    destruct (flash_save_env_saved (S fuel) s1 _ st' Hrun Hfit1
                (proj2 (proj2 (proj2 (proj2 Hus1)))))
      as (_ & _ & _ & Hst & _).
    rewrite Hst, U4.
    rewrite Hmem' by (left; rewrite U5; unfold c0; lia).
    rewrite U6. cbn [flash_mem] in Hma |- *. 
    change (env_start_addr (with_cur st_i c0)) with start in Hma.
    rewrite Hma, bytes_word_word_bytes. apply u32_small. unfold c0. lia.
Qed.

(** X22.  The first boot.  On a device whose System Section is erased and
    that does not fault, [flash_env_init] with a default set that
    [create_env] takes whole and that fits returns [FLASH_NO_ERR]: the data
    section in use is the first one, [start_addr + erase_min_size]; the
    System Section holds its address; the cache holds the default records
    and the flash holds the cache; and [flash_get_env] returns, for the name
    of every default variable, its default value. *)
Theorem flash_env_init_first_boot fuel start total erase_min defaults raw dev :
  0 < start -> 0 < total -> total mod 4 = 0 -> 4 <= erase_min ->
  strlen raw = total ->
  Z.of_nat (length defaults) < total -> defaults <> [] ->
  bytes_word (mem_load (flash_mem dev) start 4) = 4294967295 ->
  (forall n op, dev_faults dev n op = false) ->
  Forall valid_default defaults ->
  Forall (fun e => proper_name (key e)) defaults ->
  distinct_defaults defaults ->
  ENV_PARAM_PART_BYTE_SIZE + defaults_size defaults <= total ->
  erase_min + defaults_size defaults < total ->
  start + total + 65532 < 2 ^ 32 ->
  exists st',
    flash_env_init (S fuel) start total erase_min defaults raw dev
    = Some (FLASH_NO_ERR, st')
    /\ env_start_addr st' = start /\ env_total_size st' = total
    /\ cur_using_data_addr st' = start + erase_min
    /\ system_word st' = start + erase_min
    /\ holds_records st' (default_records defaults)
    /\ data_section_saved st'
    /\ forall e,
         In e defaults ->
         flash_get_env (key e) st' = Some (Some (value e), st').
Proof.
  intros Hs Ht Hm4 He Hraw Hn Hne Hsys Hnf Hval Hprop Hdist Hroom Hfits Hbig.
  destruct (first_boot fuel start total erase_min defaults raw dev Hs Ht Hm4
              He Hraw Hn Hne Hsys Hnf Hval Hprop Hdist Hroom Hfits Hbig)
    as (s1 & st' & Hinit & Hrec1 & Hus1 & Hrun & Hst1 & Htt1 & Hl1 & Hcur'
        & Hsw).
  destruct (detail_size_held _ _ Hrec1) as (_ & Hfit1 & _ & _).
  destruct (flash_save_env_saved (S fuel) s1 _ st' Hrun Hfit1
              (proj2 (proj2 (proj2 (proj2 Hus1)))))
    as (Htail & Hds & Hlen & Hst & Htt & _ & _ & Hc' & Hok).
  destruct (Hok eq_refl) as (_ & _ & Hsv).
  pose proof (holds_records_tail s1 st' _ Hrec1 Htail Hds Hlen) as Hrec'.
  exists st'. split; [exact Hinit|].
  split; [congruence|]. split; [congruence|]. split; [exact Hcur'|].
  split; [exact Hsw|]. split; [exact Hrec'|]. split.
  - apply Hsv. right. rewrite Hcur', Hst1. lia.
  - apply defaults_gettable; assumption.
Qed.

(** X23.  The boot after the first.  [flash_env_init] run again on the flash
    the first boot left, with any cache of [total_size] bytes and any
    default set, loads from the flash: it returns [FLASH_NO_ERR], leaves the
    flash as it is, and the cache holds the records of the first boot,
    provided the data section, parameters part included, ends inside the
    area. *)
Theorem flash_env_init_reboot fuel start total erase_min defaults raw dev :
  0 < start -> 0 < total -> total mod 4 = 0 -> 4 <= erase_min ->
  strlen raw = total ->
  Z.of_nat (length defaults) < total -> defaults <> [] ->
  bytes_word (mem_load (flash_mem dev) start 4) = 4294967295 ->
  (forall n op, dev_faults dev n op = false) ->
  Forall valid_default defaults ->
  Forall (fun e => proper_name (key e)) defaults ->
  distinct_defaults defaults ->
  erase_min + ENV_PARAM_PART_BYTE_SIZE + defaults_size defaults <= total ->
  start + total + 65532 < 2 ^ 32 ->
  exists st',
    flash_env_init (S fuel) start total erase_min defaults raw dev
    = Some (FLASH_NO_ERR, st')
    /\ forall fuel' defaults' raw',
         strlen raw' = total -> Z.of_nat (length defaults') < total ->
         exists s,
           flash_env_init fuel' start total erase_min defaults' raw'
             (flash st')
           = Some (FLASH_NO_ERR, s)
           /\ flash s = flash st'
           /\ cur_using_data_addr s = start + erase_min
           /\ holds_records s (default_records defaults)
           /\ forall e,
                In e defaults ->
                flash_get_env (key e) s = Some (Some (value e), s).
Proof.
  intros Hs Ht Hm4 He Hraw Hn Hne Hsys Hnf Hval Hprop Hdist Hend Hbig.
  pose proof param_size_cases as Hp.
  assert (Hds0 : 0 <= defaults_size defaults)
    by (rewrite defaults_size_eq; apply strlen_nonneg).
  destruct (first_boot fuel start total erase_min defaults raw dev Hs Ht Hm4
              He Hraw Hn Hne Hsys Hnf Hval Hprop Hdist ltac:(lia) ltac:(lia)
              Hbig)
    as (s1 & st' & Hinit & Hrec1 & Hus1 & Hrun & Hst1 & Htt1 & Hl1 & Hcur'
        & Hsw).
  exists st'. split; [exact Hinit|].
  intros fuel' defaults' raw' Hraw' Hn'.
  destruct (detail_size_held _ _ Hrec1) as (Hd1 & _ & _ & _).
  rewrite <- defaults_size_eq in Hd1.
  set (st0 := {| default_env_set := defaults';
                 env_total_size := total;
                 flash_erase_min_size := erase_min;
                 env_cache := raw';
                 env_start_addr := start;
                 cur_using_data_addr := 0;
                 flash := flash st' |}).
  destruct (load_after_save (S fuel) s1 _ st' Hrec1 Hus1 Hrun) with
    (fuel' := fuel') (st0 := st0)
    as (s & Hload & Hrec_s & Hcur_s & _ & Hfl_s & _).
  { rewrite Hsw, Hcur'. reflexivity. }
  { rewrite Hst1. exact Hs. }
  { rewrite Hst1, Hcur'. lia. }
  { rewrite Hcur', Hd1, Hst1, Htt1. lia. }
  { rewrite Hst1, Htt1. lia. }
  { reflexivity. }
  { symmetry. exact Hst1. }
  { symmetry. exact Htt1. }
  { change (strlen raw' = strlen (env_cache s1)). congruence. }
  exists s. split; [|split; [exact Hfl_s|split; [congruence|split]]].
  - unfold flash_env_init.
    assert (Hcond : negb (start =? 0) && negb (total =? 0)
                    && negb (erase_min =? 0)
                    && (Z.of_nat (length defaults') <? total)
                    && (total mod 4 =? 0) && (strlen raw' =? total) = true).
    { repeat (apply andb_true_iff; split);
        try (apply negb_true_iff, Z.eqb_neq; lia);
        try (apply Z.ltb_lt; lia); apply Z.eqb_eq; assumption. }
    rewrite Hcond. fold st0. rewrite Hload. reflexivity.
  - exact Hrec_s.
  - apply defaults_gettable; try assumption.
    rewrite Hcur_s, Hcur'. lia.
Qed.

End Init.

Lemma flash_env_init_first_boot_witness :
  exists st',
    flash_env_init (B := plain_build) 1 4096 1024 256 tidy_defaults
      (repeat NUL (Z.to_nat 1024)) blank_dev
    = Some (FLASH_NO_ERR, st')
    /\ env_start_addr st' = 4096 /\ env_total_size st' = 1024
    /\ cur_using_data_addr st' = 4096 + 256
    /\ system_word st' = 4096 + 256
    /\ holds_records (B := plain_build) st' (default_records tidy_defaults)
    /\ data_section_saved (B := plain_build) st'
    /\ forall e,
         In e tidy_defaults ->
         flash_get_env (B := plain_build) (key e) st'
         = Some (Some (value e), st').
Proof.
  apply (flash_env_init_first_boot (B := plain_build) 0 4096 1024 256
           tidy_defaults (repeat NUL (Z.to_nat 1024)) blank_dev).
  - reflexivity.
  - reflexivity.
  - reflexivity.
  - vm_compute. congruence.
  - reflexivity.
  - reflexivity.
  - discriminate.
  - reflexivity.
  - intros n op. reflexivity.
  - exact (proj1 tidy_defaults_proper).
  - exact (proj1 (proj2 tidy_defaults_proper)).
  - exact (proj2 (proj2 tidy_defaults_proper)).
  - vm_compute. congruence.
  - reflexivity.
  - reflexivity.
Defined.

Lemma flash_env_init_reboot_witness :
  exists st',
    flash_env_init (B := plain_build) 1 4096 1024 256 tidy_defaults
      (repeat NUL (Z.to_nat 1024)) blank_dev
    = Some (FLASH_NO_ERR, st')
    /\ forall fuel' defaults' raw',
         strlen raw' = 1024 -> Z.of_nat (length defaults') < 1024 ->
         exists s,
           flash_env_init (B := plain_build) fuel' 4096 1024 256 defaults'
             raw' (flash st')
           = Some (FLASH_NO_ERR, s)
           /\ flash s = flash st'
           /\ cur_using_data_addr s = 4096 + 256
           /\ holds_records (B := plain_build) s
                (default_records tidy_defaults)
           /\ forall e,
                In e tidy_defaults ->
                flash_get_env (B := plain_build) (key e) s
                = Some (Some (value e), s).
Proof.
  apply (flash_env_init_reboot (B := plain_build) 0 4096 1024 256
           tidy_defaults (repeat NUL (Z.to_nat 1024)) blank_dev).
  - reflexivity.
  - reflexivity.
  - reflexivity.
  - vm_compute. congruence.
  - reflexivity.
  - reflexivity.
  - discriminate.
  - reflexivity.
  - intros n op. reflexivity.
  - exact (proj1 tidy_defaults_proper).
  - exact (proj1 (proj2 tidy_defaults_proper)).
  - exact (proj2 (proj2 tidy_defaults_proper)).
  - vm_compute. congruence.
  - reflexivity.
Defined.

(** ** Printing *)

Lemma print_word_bytes w : print_word 4 w 0 = print_bytes (word_bytes w).
Proof.
  unfold word_bytes. cbn [print_word print_bytes].
  change (8 * 0) with 0. change (8 * (0 + 1)) with 8.
  change (8 * (0 + 1 + 1)) with 16. change (8 * (0 + 1 + 1 + 1)) with 24.
  rewrite Z.shiftr_0_r, !Z.shiftr_div_pow2 by lia.
  change (2 ^ 8) with 256. change (2 ^ 16) with 65536.
  change (2 ^ 24) with 16777216. reflexivity.
Qed.

Lemma print_bytes_nul_free r rest :
  nul_free r -> print_bytes (r ++ rest) = map PRINT_CHAR r ++ print_bytes rest.
Proof.
  induction 1 as [|c r Hc _ IH]; [reflexivity|].
  cbn [app print_bytes map].
  destruct (Ascii.eqb_spec c NUL); [contradiction|]. rewrite IH. reflexivity.
Qed.

Lemma print_bytes_nul rest :
  print_bytes (NUL :: rest) = [PRINT_CHAR NUL; PRINT_NEWLINE].
Proof. reflexivity. Qed.

Lemma record_bytes_long a b c d r :
  record_bytes (a :: b :: c :: d :: r) = a :: b :: c :: d :: record_bytes r.
Proof.
  unfold record_bytes. cbn [app]. do 4 f_equal. f_equal. f_equal.
  rewrite !strlen_cons. unfold align4.
  replace (1 + (1 + (1 + (1 + strlen r))) + 1) with (strlen r + 1 + 1 * 4)
    by lia.
  rewrite Z.mod_add, Z.div_add by lia.
  destruct (Z.eqb_spec ((strlen r + 1) mod 4) 0); lia.
Qed.

(** The words of a record print as its line. *)
Lemma print_chunks_record k : forall r rest n,
  (length r < 4 * k)%nat -> nul_free r ->
  print_chunks (length (record_bytes r) / 4 + n) (record_bytes r ++ rest)
  = record_line r ++ print_chunks n rest.
Proof.
  induction k as [|k IH]; intros r rest n Hlen Hnf; [lia|].
  destruct r as [|a [|b [|c [|d r]]]].
  1-4: unfold record_line; rewrite record_bytes_eq;
       change (Z.to_nat _) with 3%nat || change (Z.to_nat _) with 2%nat
       || change (Z.to_nat _) with 1%nat || change (Z.to_nat _) with 0%nat;
       cbn [repeat app length Nat.div Nat.divmod fst Nat.add print_chunks
              firstn skipn];
       repeat (inversion Hnf as [|? ? ?Hc Hnf']; subst; clear Hnf;
               rename Hnf' into Hnf);
       cbn [print_bytes map app];
       repeat match goal with
              | H : ?x <> NUL |- context [Ascii.eqb ?x NUL] =>
                  destruct (Ascii.eqb_spec x NUL); [contradiction|]
              end;
       reflexivity.
  rewrite record_bytes_long.
  inversion Hnf as [|? ? Ha Hnf1]; subst.
  inversion Hnf1 as [|? ? Hb Hnf2]; subst.
  inversion Hnf2 as [|? ? Hc Hnf3]; subst.
  inversion Hnf3 as [|? ? Hd Hnf4]; subst.
  cbn [length].
  replace (S (S (S (S (length (record_bytes r))))) / 4 + n)%nat
    with (S (length (record_bytes r) / 4 + n)).
  2: { replace (S (S (S (S (length (record_bytes r))))))
         with (length (record_bytes r) + 1 * 4)%nat by lia.
       rewrite Nat.div_add by lia. lia. }
  cbn [print_chunks app firstn skipn print_bytes].
  destruct (Ascii.eqb_spec a NUL); [contradiction|].
  destruct (Ascii.eqb_spec b NUL); [contradiction|].
  destruct (Ascii.eqb_spec c NUL); [contradiction|].
  destruct (Ascii.eqb_spec d NUL); [contradiction|].
  rewrite IH by (cbn [length] in Hlen; lia || assumption).
  reflexivity.
Qed.

Lemma length_record_bytes_div r :
  (length (record_bytes r) mod 4 = 0)%nat.
Proof.
  pose proof (strlen_record_bytes r) as H.
  pose proof (align4_mod (strlen r + 1)) as Hm. rewrite <- H in Hm.
  unfold strlen in Hm.
  pose proof (Nat.div_mod_eq (length (record_bytes r)) 4).
  pose proof (Nat.mod_upper_bound (length (record_bytes r)) 4 ltac:(lia)).
  pose proof (Z.div_mod (Z.of_nat (length (record_bytes r))) 4 ltac:(lia)).
  lia.
Qed.

(** The words of a detail part that holds records print as the lines of
    the records. *)
Lemma print_chunks_records recs : forall slack,
  Forall nul_free recs ->
  print_chunks (length (flat_map record_bytes recs) / 4)
    (flat_map record_bytes recs ++ slack)
  = flat_map record_line recs.
Proof.
  induction recs as [|r recs IH]; intros slack Hnf; [reflexivity|].
  inversion Hnf as [|? ? Hr Hnf']; subst.
  cbn [flat_map]. rewrite length_app, <- app_assoc.
  pose proof (length_record_bytes_div r) as Hm.
  replace ((length (record_bytes r) + length (flat_map record_bytes recs)) / 4)%nat
    with (length (record_bytes r) / 4
          + length (flat_map record_bytes recs) / 4)%nat.
  2: { pose proof (Nat.div_mod_eq (length (record_bytes r)) 4) as Hdm.
       rewrite Hm, Nat.add_0_r in Hdm.
       set (q := (length (record_bytes r) / 4)%nat) in *.
       rewrite Hdm, (Nat.mul_comm 4 q), Nat.div_add_l by lia.
       reflexivity. }
  rewrite (print_chunks_record (S (length r)) r) by (lia || assumption).
  rewrite IH by exact Hnf'. reflexivity.
Qed.

Section Print.

Context {B : Build}.

Lemma cache_word_eq st i :
  0 <= i -> 4 * i + 4 <= strlen (env_cache st) ->
  cache_word i st
  = Some (bytes_word (firstn 4 (skipn (Z.to_nat (4 * i)) (env_cache st))), st).
Proof.
  intros Hi Hl. unfold cache_word. rewrite bind_gets. unfold ram_load.
  destruct (Z.leb_spec 0 (4 * i)); [|lia].
  destruct (Z.leb_spec (4 * i + 4) (strlen (env_cache st))); [|lia].
  reflexivity.
Qed.

Lemma print_words_eq st n : forall i,
  0 <= i -> 4 * i + 4 * Z.of_nat n <= strlen (env_cache st) ->
  print_words n i st
  = Some (print_chunks n (skipn (Z.to_nat (4 * i)) (env_cache st)), st).
Proof.
  induction n as [|n IH]; intros i Hi Hl; [reflexivity|].
  cbn [print_words print_chunks].
  mstep (cache_word_eq st i Hi ltac:(lia)).
  rewrite (bind_run _ (IH (i + 1) ltac:(lia) ltac:(lia))).
  unfold ret. do 2 f_equal.
  rewrite print_word_bytes, word_bytes_bytes_word.
  - f_equal. f_equal. rewrite skipn_skipn. f_equal. lia.
  - rewrite length_firstn, length_skipn. unfold strlen in Hl. lia.
Qed.

(** X24.  [flash_print_env] on a detail part that holds records prints each
    record on a line of its own (the characters of the record, the NUL that
    ends it, a newline; the padding is not printed) in the order of the
    cache, then the used size and the total size; it leaves the module as it
    is. *)
Theorem flash_print_env_lines st recs :
  holds_records st recs -> usable st ->
  flash_print_env st
  = Some (flat_map record_line recs
          ++ [PRINT_SIZE (u32 (end_addr_of st - env_start_addr st))
                (env_total_size st)], st).
Proof.
  intros Hrec Hus. pose proof (usable_cache st Hus) as Hl4.
  destruct (detail_size_held _ _ Hrec) as (Hd & Hfit & Hd0 & Hdm).
  pose proof Hrec as (head & slack & Hc & Hh & _ & Hnf).
  destruct Hus as (Hcur & Hstart & Htot & Hcache).
  pose proof param_size_cases as Hp.
  unfold flash_print_env.
  mstep (get_env_detail_size_eq st Hcur Hl4).
  assert (Hq : 4 * (detail_size_of st / 4) = detail_size_of st).
  { pose proof (Z.div_mod (detail_size_of st) 4 ltac:(lia)). lia. }
  assert (Hws : 0 <= ENV_PARAM_PART_WORD_SIZE)
    by (unfold ENV_PARAM_PART_WORD_SIZE; destruct crc_check; lia).
  assert (Hb : 4 * ENV_PARAM_PART_WORD_SIZE
               + 4 * Z.of_nat (Z.to_nat (detail_size_of st / 4))
               <= strlen (env_cache st)).
  { rewrite param_byte_size_eq, Z2Nat.id; [lia|apply Z.div_pos; lia]. }
  rewrite (bind_run _ (print_words_eq st _ ENV_PARAM_PART_WORD_SIZE Hws Hb)).
  unfold flash_get_env_used_size.
  rewrite bind_bind. mstep (get_env_detail_end_addr_eq st Hl4).
  rewrite bind_bind. mstep (get_env_start_addr_eq st Hstart).
  rewrite bind_ret. mstep (flash_get_env_total_size_eq st Htot).
  unfold ret. do 3 f_equal.
  rewrite param_byte_size_eq, Hc, skipn_app.
  replace (Z.to_nat ENV_PARAM_PART_BYTE_SIZE) with (length head)
    by (unfold strlen in Hh; lia).
  rewrite skipn_all, Nat.sub_diag. cbn [app skipn].
  replace (Z.to_nat (detail_size_of st / 4))
    with (length (flat_map record_bytes recs) / 4)%nat.
  - apply print_chunks_records. exact Hnf.
  - rewrite Hd. unfold strlen.
    rewrite <- (Nat2Z.id (length (flat_map record_bytes recs) / 4)).
    f_equal. rewrite Nat2Z.inj_div. reflexivity.
Qed.

End Print.

Lemma flash_print_env_lines_witness :
  flash_print_env (B := plain_build) (plain_state [str "a=1"; str "bcd=xyz"])
  = Some (flat_map record_line [str "a=1"; str "bcd=xyz"]
          ++ [PRINT_SIZE
                (u32 (end_addr_of (plain_state [str "a=1"; str "bcd=xyz"])
                      - env_start_addr
                          (plain_state [str "a=1"; str "bcd=xyz"])))
                (env_total_size (plain_state [str "a=1"; str "bcd=xyz"]))],
          plain_state [str "a=1"; str "bcd=xyz"]).
Proof.
  apply (flash_print_env_lines (B := plain_build)).
  - exact two_records_held.
  - exact two_records_usable.
Defined.

(** ** Variables kept, variables replaced, and a save the load turns down *)

Section More.

Context {B : Build}.

(** X7.  Creating a variable leaves the others alone: once [create_env] has
    returned [FLASH_NO_ERR], [flash_get_env] returns, for every name it
    returned a value for, the same value. *)
Theorem create_env_keeps_values st recs key value st' :
  holds_records st recs -> usable st ->
  nul_free key -> nul_free value ->
  create_env key value st = Some (FLASH_NO_ERR, st') ->
  holds_records st' (recs ++ [record_of key value])
  /\ forall k v,
       flash_get_env k st = Some (Some v, st) ->
       flash_get_env k st' = Some (Some v, st').
Proof.
  intros Hrec Hus Hnk Hnv Hrun.
  assert (Hkey : key <> []).
  { intros ->. discriminate Hrun. }
  assert (Heq : has_equal_sign key = false).
  { unfold create_env in Hrun. destruct key as [|c key]; [congruence|].
    destruct (has_equal_sign (c :: key)); [discriminate|reflexivity]. }
  destruct (create_then_get st recs key value st' Hrec Hus Hkey Heq Hnk Hnv
              Hrun) as [_ Hrec'].
  assert (Hcur' : cur_using_data_addr st' <> 0).
  { unfold create_env in Hrun. destruct key as [|c key]; [congruence|].
    rewrite Heq in Hrun.
    mstep_in (find_env_records st _ (c :: key) Hrec (proj1 Hus) Hkey) Hrun.
    destruct (find_in_records recs (c :: key) ENV_PARAM_PART_BYTE_SIZE);
      [discriminate|].
    destruct (write_env_run st _ _ _ _ Hus Hrun)
      as [(_ & Hr & _)|(_ & _ & e & c' & _ & _ & ->)]; [discriminate|].
    exact (proj1 Hus). }
  split; [exact Hrec'|].
  intros k v Hget.
  rewrite (flash_get_env_eq st recs k Hrec (proj1 Hus)) in Hget.
  apply Some_pair_inj in Hget. destruct Hget as [Hl _].
  rewrite (flash_get_env_eq st' _ k Hrec' Hcur').
  rewrite (lookup_records_app recs _ k v Hl). reflexivity.
Qed.





End More.

Lemma create_env_keeps_values_witness :
  holds_records (B := plain_build)
    (state_after (create_env (B := plain_build) (str "n") (str "5"))
       (plain_state [str "a=1"; str "bcd=xyz"]))
    ([str "a=1"; str "bcd=xyz"] ++ [record_of (str "n") (str "5")])
  /\ forall k v,
       flash_get_env (B := plain_build) k
         (plain_state [str "a=1"; str "bcd=xyz"])
       = Some (Some v, plain_state [str "a=1"; str "bcd=xyz"]) ->
       flash_get_env (B := plain_build) k
         (state_after (create_env (B := plain_build) (str "n") (str "5"))
            (plain_state [str "a=1"; str "bcd=xyz"]))
       = Some (Some v,
               state_after (create_env (B := plain_build) (str "n") (str "5"))
                 (plain_state [str "a=1"; str "bcd=xyz"])).
Proof.
  apply (create_env_keeps_values (B := plain_build)
           (plain_state [str "a=1"; str "bcd=xyz"])
           [str "a=1"; str "bcd=xyz"] (str "n") (str "5")).
  - exact two_records_held.
  - exact two_records_usable.
  - repeat constructor; discriminate.
  - repeat constructor; discriminate.
  - reflexivity.
Defined.




